(** * Payment collection backend: the payment-posting transaction

    A shallow embedding of the backend's models and services
    ([models/Payment.js], [models/Customer.js], [services/PaymentService.js],
    [middleware/validation.js]) together with the relational schema
    ([db/schema.sql]) they run against.

    Conventions.
    - A JavaScript number is given by its exact rational value.  A number
      read from text is rounded to the nearest binary64, and so is a
      [DECIMAL] column where the program uses it as a number (the driver
      returns it as a string); the other operations the program applies
      to numbers ([Math.floor], [Math.max], comparisons) are exact.
    - A currency column is a [DECIMAL(p,2)]: it holds a number of cents, an
      integer of [Z], and a number stored into it is rounded to two
      decimals.  A nullable column is an [option].  A JavaScript [Date]
      is a number of milliseconds; a [DATETIME] column holds a number of
      seconds, and a date stored into it is rounded to the second.
    - A table with an integer primary key is a finite map from the key to
      the row; [payments] is a list in insertion order.
    - Calls into the MySQL driver thread a [World]: the committed database,
      the state of the pooled connection, and a log of the driver calls
      made so far.  A [Runtime] supplies what the program reads from its
      environment: the clock, the random bits of the UUID, and which driver
      calls fail with a storage error.
    - The database compares strings by equality; column collations are not
      modelled, and neither is the range of a column (the precision of a
      [DECIMAL], the length of a [VARCHAR]). *)

From Stdlib Require Import ZArith QArith Qround Qabs Qpower String Ascii List.
From Stdlib Require Import Lia Lqa.
From stdpp Require Import base option list gmap strings sorting pretty.

Local Open Scope Z_scope.

(** ** JavaScript values and numbers *)

Module JS.

(** A JavaScript Number: a finite value (given by its exact rational
    value; the sign of zero is not tracked), or one of the three
    non-finite values. *)
Inductive Number :=
| Finite (q : Q)
| NaN
| PosInfinity
| NegInfinity.

Inductive Value :=
| VUndefined
| VNull
| VBoolean (b : bool)
| VNumber (x : Number)
| VString (s : string).

Definition of_Z (n : Z) : Number := Finite (inject_Z n).

(** [x <= y] on numbers: false as soon as one of them is [NaN]. *)
Definition le (x y : Number) : bool :=
  match x, y with
  | NaN, _ | _, NaN => false
  | NegInfinity, _ | _, PosInfinity => true
  | PosInfinity, _ | _, NegInfinity => false
  | Finite p, Finite q => Qle_bool p q
  end.

(** *** The binary64 nearest to a rational

    The Number value for a mathematical value: the nearest multiple of
    [2^e], where [e] leaves 53 significant bits (and is at least [-1074]),
    ties going to the even multiple; an infinity from [2^1024] on. *)
Definition round_half_even (q : Q) : Z :=
  let f := Qfloor q in
  match (q - inject_Z f ?= 1 # 2)%Q with
  | Lt => f
  | Gt => f + 1
  | Eq => if Z.even f then f else f + 1
  end.

(** For [q > 0], the exponent [e] with [2^e <= q < 2^(e+1)]. *)
Definition binary_exponent (q : Q) : Z :=
  let e := Z.log2 (Qnum q) - Z.log2 (Zpos (Qden q)) in
  if Qle_bool (2 ^ e) q then e else e - 1.

Definition binary64 (q : Q) : Number :=
  match (q ?= 0)%Q with
  | Eq => Finite 0
  | c =>
      let a := Qabs q in
      let e := Z.max (binary_exponent a - 52) (-1074) in
      let v := (inject_Z (round_half_even (a / 2 ^ e)) * 2 ^ e)%Q in
      if Qle_bool (2 ^ 1024) v
      then match c with Lt => NegInfinity | _ => PosInfinity end
      else Finite (Qred (match c with Lt => - v | _ => v end))
  end.

(** [Math.floor] on a number. *)
Definition Math_floor (x : Number) : Number :=
  match x with
  | Finite q => of_Z (Qfloor q)
  | other => other
  end.

(** [Math.max] of two numbers: [NaN] if either is, otherwise the larger. *)
Definition Math_max (x y : Number) : Number :=
  match x, y with
  | NaN, _ | _, NaN => NaN
  | PosInfinity, _ | _, PosInfinity => PosInfinity
  | NegInfinity, z | z, NegInfinity => z
  | Finite p, Finite q => if Qle_bool p q then Finite q else Finite p
  end.

(** [Math.min] of two numbers: [NaN] if either is, otherwise the
    smaller. *)
Definition Math_min (x y : Number) : Number :=
  match x, y with
  | NaN, _ | _, NaN => NaN
  | NegInfinity, _ | _, NegInfinity => NegInfinity
  | PosInfinity, z | z, PosInfinity => z
  | Finite p, Finite q => if Qle_bool p q then Finite p else Finite q
  end.

(** A parameter with a default: [function f(x = d)]. *)
Definition default_param (d : Value) (v : Value) : Value :=
  match v with
  | VUndefined => d
  | _ => v
  end.

(** [Number.isFinite(v)], with the number [v] then is: the test coerces
    nothing and fails for every value that is not a number. *)
Definition as_finite (v : Value) : option Q :=
  match v with
  | VNumber (Finite q) => Some q
  | _ => None
  end.

(** [Number.isFinite(v) ? Math.max(0, Math.floor(v)) : d], the expression
    that computes [safeLimit] and [safeOffset].  In the first branch [v]
    is a finite number, so [Math.floor] coerces nothing. *)
Definition sanitize (d : Z) (v : Value) : Number :=
  match as_finite v with
  | Some q => Math_max (of_Z 0) (Math_floor (Finite q))
  | None => of_Z d
  end.

(** *** Rendering a number in a template literal

    [Number::toString] prints a non-negative integer below [10^21] as
    decimal digits, and from [10^21] on in exponent notation: the digits
    without their trailing zeros, a point after the first one if there are
    several, then [e+] and the exponent.  The digits are the fewest that
    read back as the same binary64.  Up to [2^53] every integer is a
    binary64, so they are the exact digits of the integer, which is what
    this model prints.  Above [2^53] the model still prints the exact
    digits where an engine prints fewer and pads with zeros ([2^63] as
    [9223372036854776000]): there the text of the model is a decimal
    integer literal as the engine's is, but not the same one, and the
    properties below that speak of the digits stop at [2^53].  Finite
    values that are not integers are not modelled. *)
Fixpoint strip_zeros (s : string) : string :=
  match s with
  | String "0"%char s' => strip_zeros s'
  | _ => s
  end.

Definition exponent_form (digits : string) : string :=
  match String.rev (strip_zeros (String.rev digits)) with
  | String c "" => String c ""
  | String c rest => String c ("." +:+ rest)
  | "" => ""
  end +:+ "e+" +:+ pretty (Z.of_nat (String.length digits) - 1).

Definition natural_to_string (n : Z) : string :=
  if n <? 10 ^ 21 then pretty n else exponent_form (pretty n).

Definition is_integer (q : Q) : bool := Qeq_bool q (inject_Z (Qfloor q)).

Definition NumberToString (x : Number) : option string :=
  match x with
  | NaN => Some "NaN"
  | PosInfinity => Some "Infinity"
  | NegInfinity => Some "-Infinity"
  | Finite q =>
      if is_integer q
      then Some (if Qfloor q <? 0
                 then "-" +:+ natural_to_string (- Qfloor q)
                 else natural_to_string (Qfloor q))
      else None
  end.

(** A JavaScript [Error] object with the optional [status] property the
    services attach to it. *)
Record Error := mkError { message : string; status : option Z }.

Definition new_Error (msg : string) : Error := mkError msg None.

End JS.

(** ** The schema *)

Inductive customer_status := ACTIVE | CLOSED | DEFAULT.
Inductive payment_status := PENDING | SUCCESS | FAILED | REVERSED.
Inductive payment_method := UPI | CARD | NET_BANKING | CHEQUE.
Inductive schedule_status := SCHEDULE_PENDING | SCHEDULE_PAID | SCHEDULE_OVERDUE.

Global Instance customer_status_eq_dec : EqDecision customer_status.
Proof. solve_decision. Defined.
Global Instance payment_status_eq_dec : EqDecision payment_status.
Proof. solve_decision. Defined.
Global Instance payment_method_eq_dec : EqDecision payment_method.
Proof. solve_decision. Defined.
Global Instance schedule_status_eq_dec : EqDecision schedule_status.
Proof. solve_decision. Defined.

(** A row of [customers], without its primary key [id] (the key of the
    table).  Only the columns the code reads or writes are kept. *)
Module CustomerRow.
Record t := mk {
  account_number : string;
  customer_name : string;
  emi_due : Z;
  outstanding_balance : option Z;
  status : customer_status;
  created_at : Z
}.
End CustomerRow.

(** A row of [payments]. *)
Module PaymentRow.
Record t := mk {
  id : Z;
  payment_reference_id : string;
  customer_id : Z;
  account_number : string;
  payment_date : Z;
  payment_amount : Z;
  status : payment_status;
  payment_method : payment_method;
  transaction_id : option string;
  remarks : option string
}.
End PaymentRow.

(** A row of [payment_schedule], without its primary key. *)
Module ScheduleRow.
Record t := mk {
  customer_id : Z;
  due_date : Z;
  due_amount : Z;
  paid_amount : option Z;
  status : schedule_status
}.
End ScheduleRow.

Record Database := mkDatabase {
  customers : gmap Z CustomerRow.t;
  payments : list PaymentRow.t;
  payment_schedule : gmap Z ScheduleRow.t
}.

(** The row of aggregates [Payment.getPaymentStats] selects.  The sums
    and the maximum are [NULL] over no row.  The column
    [avg_payment_amount] is not kept. *)
Module PaymentStats.
Record t := mk {
  total_payments : Z;
  total_paid : option Z;
  failed_payments : option Z;
  last_payment_date : option Z
}.
End PaymentStats.

(** The row [Customer.findWithPaymentInfo] selects: the customer (key and
    columns) and three subqueries over the customer's payments. *)
Module CustomerPaymentInfo.
Record t := mk {
  customer : Z * CustomerRow.t;
  total_payments : Z;
  total_paid : option Z;
  last_payment_date : option Z
}.
End CustomerPaymentInfo.

(** The [filters] object of [Payment.findAll] and [Payment.countAll].  An
    absent property is [None]; the two dates, when given, are [Date]s (a
    date given as text is not modelled). *)
Module Filters.
Record t := mk {
  status : option string;
  payment_method : option string;
  start_date : option Z;
  end_date : option Z
}.
End Filters.

(** ** SQL statements of the models *)

Module SQL.

(** *** Fixed-point columns

    A [DECIMAL(p,2)] column holds a number of cents.  [of_cents] is the
    number it stands for; [to_cents] is the value stored for a number: the
    number rounded to two decimals, half away from zero.  A JavaScript
    number bound to a statement is taken with its exact value. *)
Definition of_cents (c : Z) : Q := inject_Z c / 100.

Definition round_half_away (q : Q) : Z :=
  if Qle_bool 0 q then Qfloor (q + (1 # 2)) else - Qfloor (- q + (1 # 2)).

Definition to_cents (q : Q) : Z := round_half_away (q * 100).

(** A [Date] bound to a [DATETIME] column: milliseconds rounded to the
    second, half up. *)
Definition to_datetime (ms : Z) : Z := (ms + 500) / 1000.

(** [column - ?] and [column + ?] on a nullable column, stored back into
    it: [NULL] absorbs. *)
Definition minus (x : option Z) (a : Q) : option Z :=
  (λ b, to_cents (of_cents b - a)) <$> x.
Definition plus (x : option Z) (a : Q) : option Z :=
  (λ b, to_cents (of_cents b + a)) <$> x.

(** [INSERT INTO payments (...) VALUES (...)].  The foreign key to
    [customers] and the unique index on [payment_reference_id] are
    checked; a violation is an error and inserts nothing. *)
Definition insert_payment (row : PaymentRow.t) (d : Database)
  : string + Database :=
  match customers d !! PaymentRow.customer_id row with
  | None => inl "Cannot add or update a child row: a foreign key constraint fails"
  | Some _ =>
      if decide (PaymentRow.payment_reference_id row
                   ∈ (PaymentRow.payment_reference_id <$> payments d))
      then inl "Duplicate entry for key 'payment_reference_id'"
      else inr (mkDatabase (customers d) (payments d ++ [row])
                  (payment_schedule d))
  end.

(** [UPDATE customers SET outstanding_balance = outstanding_balance - ?
    WHERE id = ?]. *)
Definition decrement_balance (amount : Q) (c : CustomerRow.t) : CustomerRow.t :=
  CustomerRow.mk (CustomerRow.account_number c) (CustomerRow.customer_name c)
    (CustomerRow.emi_due c) (minus (CustomerRow.outstanding_balance c) amount)
    (CustomerRow.status c) (CustomerRow.created_at c).

Definition update_balance (amount : Q) (customer_id : Z) (d : Database)
  : Database :=
  mkDatabase (alter (decrement_balance amount) customer_id (customers d))
    (payments d) (payment_schedule d).

(** [UPDATE payment_schedule SET paid_amount = paid_amount + ?,
    status = 'PAID' WHERE customer_id = ? AND status = 'PENDING' LIMIT 1].
    The statement has no [ORDER BY]: the row is the first match in the
    order the table happens to be scanned, here the order of
    [map_to_list]. *)
Definition is_pending_of (customer_id : Z) (kr : Z * ScheduleRow.t) : Prop :=
  ScheduleRow.customer_id kr.2 = customer_id
  ∧ ScheduleRow.status kr.2 = SCHEDULE_PENDING.

Global Instance is_pending_of_dec cid kr : Decision (is_pending_of cid kr).
Proof. unfold is_pending_of. apply _. Defined.

Definition mark_paid (amount : Q) (r : ScheduleRow.t) : ScheduleRow.t :=
  ScheduleRow.mk (ScheduleRow.customer_id r) (ScheduleRow.due_date r)
    (ScheduleRow.due_amount r) (plus (ScheduleRow.paid_amount r) amount)
    SCHEDULE_PAID.

Definition update_schedule (amount : Q) (customer_id : Z) (d : Database)
  : Database :=
  match list_find (is_pending_of customer_id)
          (map_to_list (payment_schedule d)) with
  | Some (_, (k, r)) =>
      mkDatabase (customers d) (payments d)
        (<[k := mark_paid amount r]> (payment_schedule d))
  | None => d
  end.

(** *** Reading statements *)

(** [ORDER BY payment_date DESC]: a row comes before another when its
    date is not earlier. *)
Definition later_first {A} (date : A -> Z) (x y : A) : Prop := date y <= date x.

Global Instance later_first_dec {A} (date : A -> Z) x y :
  Decision (later_first date x y).
Proof. unfold later_first. apply _. Defined.

Definition order_by_date_desc {A} (date : A -> Z) (rows : list A) : list A :=
  merge_sort (later_first date) rows.

(** The argument of [LIMIT] or [OFFSET] as MySQL reads it: an unsigned
    integer literal, decimal digits only, of at most [2^64 - 1]. *)
Fixpoint digits_value (acc : Z) (s : string) : option Z :=
  match s with
  | EmptyString => Some acc
  | String c s' =>
      match Ascii.is_nat c with
      | Some d => digits_value (10 * acc + Z.of_nat d) s'
      | None => None
      end
  end.

Definition unsigned_literal (s : string) : option Z :=
  match s with
  | EmptyString => None
  | _ =>
      match digits_value 0 s with
      | Some n => if n <=? 18446744073709551615 then Some n else None
      | None => None
      end
  end.

(** [... LIMIT ${limit} OFFSET ${offset}] applied to the ordered rows.
    The two texts are what the template literal interpolates; a text that
    is not an unsigned integer literal (or that the model of
    [JS.NumberToString] does not produce) makes the statement a syntax
    error. *)
Definition paginate {A} (limit offset : option string) (rows : list A)
  : string + list A :=
  match limit ≫= unsigned_literal, offset ≫= unsigned_literal with
  | Some l, Some o => inr (take (Z.to_nat l) (drop (Z.to_nat o) rows))
  | _, _ => inl "You have an error in your SQL syntax"
  end.

(** [WHERE ... status IN ('SUCCESS', 'FAILED')] *)
Definition success_or_failed (p : PaymentRow.t) : Prop :=
  PaymentRow.status p = SUCCESS ∨ PaymentRow.status p = FAILED.

Global Instance success_or_failed_dec p : Decision (success_or_failed p).
Proof. unfold success_or_failed. apply _. Defined.

(** [SELECT p.* FROM payments p WHERE p.account_number = ? AND
    p.status IN ('SUCCESS', 'FAILED') ORDER BY p.payment_date DESC
    LIMIT ... OFFSET ...] *)
Definition payments_by_account_number (accountNumber : string)
    (limit offset : option string) (d : Database)
  : string + list PaymentRow.t :=
  paginate limit offset
    (order_by_date_desc PaymentRow.payment_date
       (filter (fun p => PaymentRow.account_number p = accountNumber
                         ∧ success_or_failed p) (payments d))).

(** [SELECT * FROM payments WHERE customer_id = ? AND
    status IN ('SUCCESS', 'FAILED') ORDER BY payment_date DESC
    LIMIT ... OFFSET ...] *)
Definition payments_by_customer_id (customerId : Z)
    (limit offset : option string) (d : Database)
  : string + list PaymentRow.t :=
  paginate limit offset
    (order_by_date_desc PaymentRow.payment_date
       (filter (fun p => PaymentRow.customer_id p = customerId
                         ∧ success_or_failed p) (payments d))).

(** [SELECT * FROM customers WHERE status = 'ACTIVE'
    ORDER BY created_at DESC LIMIT ... OFFSET ...] *)
Definition active_customers (limit offset : option string) (d : Database)
  : string + list (Z * CustomerRow.t) :=
  paginate limit offset
    (order_by_date_desc (fun c => CustomerRow.created_at c.2)
       (filter (fun c => CustomerRow.status c.2 = ACTIVE)
          (map_to_list (customers d)))).

(** [SELECT * FROM payments WHERE payment_reference_id = ?] *)
Definition payments_by_reference_id (referenceId : string) (d : Database)
  : list PaymentRow.t :=
  filter (fun p => PaymentRow.payment_reference_id p = referenceId) (payments d).

(** [SELECT p..., c.customer_name, c.outstanding_balance FROM payments p
    JOIN customers c ON p.customer_id = c.id WHERE p.account_number = ?
    ORDER BY p.payment_date DESC LIMIT 100] *)
Definition join_customer (d : Database) (p : PaymentRow.t)
  : option (PaymentRow.t * CustomerRow.t) :=
  pair p <$> customers d !! PaymentRow.customer_id p.

Definition payment_history (accountNumber : string) (d : Database)
  : list (PaymentRow.t * CustomerRow.t) :=
  take 100
    (order_by_date_desc (fun pc => PaymentRow.payment_date pc.1)
       (omap (join_customer d)
          (filter (fun p => PaymentRow.account_number p = accountNumber)
             (payments d)))).

(** *** Aggregates and counts *)

(** [SUM(...)] and [MAX(...)]: [NULL] over no row. *)
Definition sum (xs : list Z) : option Z :=
  match xs with
  | [] => None
  | _ => Some (foldr Z.add 0 xs)
  end.

Definition max_of (xs : list Z) : option Z :=
  match xs with
  | [] => None
  | x :: xs' => Some (foldr Z.max x xs')
  end.

(** [SELECT COUNT( * ) as total FROM payments WHERE account_number = ? AND
    status IN ('SUCCESS', 'FAILED')] *)
Definition count_by_account_number (accountNumber : string) (d : Database) : Z :=
  Z.of_nat (length (filter (fun p => PaymentRow.account_number p = accountNumber
                                     ∧ success_or_failed p) (payments d))).

(** [SELECT COUNT( * ) as total_payments,
    SUM(CASE WHEN status = 'SUCCESS' THEN payment_amount ELSE 0 END) as total_paid,
    SUM(CASE WHEN status = 'FAILED' THEN 1 ELSE 0 END) as failed_payments,
    MAX(payment_date) as last_payment_date, ...
    FROM payments WHERE customer_id = ?]: one row, whatever the table
    holds. *)
Definition paid_amount (p : PaymentRow.t) : Z :=
  if decide (PaymentRow.status p = SUCCESS) then PaymentRow.payment_amount p else 0.

Definition failed_one (p : PaymentRow.t) : Z :=
  if decide (PaymentRow.status p = FAILED) then 1 else 0.

Definition payment_stats (customerId : Z) (d : Database) : list PaymentStats.t :=
  let rows := filter (fun p => PaymentRow.customer_id p = customerId) (payments d) in
  [PaymentStats.mk (Z.of_nat (length rows)) (sum (paid_amount <$> rows))
     (sum (failed_one <$> rows)) (max_of (PaymentRow.payment_date <$> rows))].

(** [SELECT c.*,
    (SELECT COUNT( * ) FROM payments WHERE customer_id = c.id AND status = 'SUCCESS') as total_payments,
    (SELECT SUM(payment_amount) FROM payments WHERE customer_id = c.id AND status = 'SUCCESS') as total_paid,
    (SELECT payment_date FROM payments WHERE customer_id = c.id
     ORDER BY payment_date DESC LIMIT 1) as last_payment_date
    FROM customers c WHERE c.account_number = ?] *)
Definition successful_of (customerId : Z) (d : Database) : list PaymentRow.t :=
  filter (fun p => PaymentRow.customer_id p = customerId
                   ∧ PaymentRow.status p = SUCCESS) (payments d).

Definition with_payment_info (d : Database) (c : Z * CustomerRow.t)
  : CustomerPaymentInfo.t :=
  CustomerPaymentInfo.mk c
    (Z.of_nat (length (successful_of c.1 d)))
    (sum (PaymentRow.payment_amount <$> successful_of c.1 d))
    (max_of (PaymentRow.payment_date
               <$> filter (fun p => PaymentRow.customer_id p = c.1) (payments d))).

Definition customers_with_payment_info (accountNumber : string) (d : Database)
  : list CustomerPaymentInfo.t :=
  with_payment_info d
    <$> filter (fun c => CustomerRow.account_number c.2 = accountNumber)
          (map_to_list (customers d)).

(** *** The filtered listing

    The [WHERE] clause [Payment.findAll] and [Payment.countAll] build: a
    condition is added for each property of [filters] that is truthy, an
    empty string being falsy and a [Date] truthy.  A status or a method
    is compared with the name of the enumeration value; a [DATETIME] is
    compared with a [Date] to the millisecond. *)
Definition status_name (s : payment_status) : string :=
  match s with
  | PENDING => "PENDING"
  | SUCCESS => "SUCCESS"
  | FAILED => "FAILED"
  | REVERSED => "REVERSED"
  end.

Definition method_name (m : payment_method) : string :=
  match m with
  | UPI => "UPI"
  | CARD => "CARD"
  | NET_BANKING => "NET_BANKING"
  | CHEQUE => "CHEQUE"
  end.

Definition truthy (v : option string) : option string :=
  match v with
  | Some EmptyString => None
  | _ => v
  end.

Definition where_filters (filters : Filters.t) (p : PaymentRow.t) : bool :=
  match truthy (Filters.status filters) with
  | Some s => bool_decide (status_name (PaymentRow.status p) = s)
  | None => true
  end
  && match truthy (Filters.payment_method filters) with
     | Some m => bool_decide (method_name (PaymentRow.payment_method p) = m)
     | None => true
     end
  && match Filters.start_date filters with
     | Some ms => ms <=? 1000 * PaymentRow.payment_date p
     | None => true
     end
  && match Filters.end_date filters with
     | Some ms => 1000 * PaymentRow.payment_date p <=? ms
     | None => true
     end.

(** [SELECT p.*, c.customer_name, c.account_number FROM payments p
    LEFT JOIN customers c ON p.customer_id = c.id WHERE ...
    ORDER BY p.payment_date DESC LIMIT ... OFFSET ...] *)
Definition left_join_customer (d : Database) (p : PaymentRow.t)
  : PaymentRow.t * option CustomerRow.t :=
  (p, customers d !! PaymentRow.customer_id p).

Definition all_payments (filters : Filters.t) (limit offset : option string)
    (d : Database) : string + list (PaymentRow.t * option CustomerRow.t) :=
  paginate limit offset
    (order_by_date_desc (fun pc => PaymentRow.payment_date pc.1)
       (left_join_customer d <$> filter (fun p => where_filters filters p)
                                   (payments d))).

(** [SELECT COUNT( * ) as total FROM payments WHERE ...] *)
Definition count_all (filters : Filters.t) (d : Database) : Z :=
  Z.of_nat (length (filter (fun p => where_filters filters p) (payments d))).

End SQL.

(** ** The world the program runs in *)

(** Statements the models send to the driver, as recorded in the log. *)
Inductive Statement :=
| INSERT_payment
| UPDATE_customer_balance
| UPDATE_payment_schedule
| SELECT_customer_by_account_number
| SELECT_customer_by_id
| SELECT_customers
| SELECT_payment_by_reference_id
| SELECT_payments_by_account_number
| SELECT_payments_by_customer_id
| SELECT_payment_history
| SELECT_payment_stats
| SELECT_count_by_account_number
| SELECT_all_payments
| SELECT_count_all
| SELECT_customer_with_payment_info.

(** Calls into the [mysql2] driver. *)
Inductive DriverCall :=
| GetConnection
| BeginTransaction
| Execute (s : Statement)
| Commit
| Rollback
| Release
| PoolExecute (s : Statement)
| PoolQuery (s : Statement).

(** [committed] is what every connection of the pool reads; [txn] is the
    private state of the open transaction on the connection handed out by
    [pool.getConnection()], if one is open; [auto_increment] is the
    counter of [payments.id], which the engine does not roll back; [log]
    lists the driver calls made so far, most recent first. *)
Record World := mkWorld {
  committed : Database;
  txn : option Database;
  auto_increment : Z;
  log : list DriverCall
}.

(** What one invocation reads from its environment.  [fault n] tells
    whether the driver call made when [n] calls are already in the log
    fails, and with which message; it stands for every storage error other
    than the two constraint violations tracked by [SQL.insert_payment]. *)
Record Runtime := mkRuntime {
  Date_now : Z;
  new_Date : Z;
  random128 : Z;
  fault : nat -> option string
}.

(** ** Computations that may throw *)

Inductive Outcome (A : Type) :=
| Return (a : A)
| Throw (e : JS.Error).
Arguments Return {A} a.
Arguments Throw {A} e.

Definition M (A : Type) : Type := World -> Outcome A * World.

Definition ret {A} (a : A) : M A := fun w => (Return a, w).

Definition throw {A} (e : JS.Error) : M A := fun w => (Throw e, w).

Definition bind {A B} (m : M A) (k : A -> M B) : M B :=
  fun w =>
    match m w with
    | (Return a, w') => k a w'
    | (Throw e, w') => (Throw e, w')
    end.

Notation "'let*' x <- m ; k" := (bind m (fun x => k))
  (at level 10, x name, m at level 100, k at level 200).
Notation "'await' m ; k" := (bind m (fun _ => k))
  (at level 10, m at level 100, k at level 200).

(** [try { body } catch (error) { handler }]. *)
Definition try_catch {A} (body : M A) (handler : JS.Error -> M A) : M A :=
  fun w =>
    match body w with
    | (Return a, w') => (Return a, w')
    | (Throw e, w') => handler e w'
    end.

(** [try { body } finally { cleanup }]: the cleanup always runs; when it
    throws, its error replaces the outcome of the body. *)
Definition try_finally {A} (body : M A) (cleanup : M unit) : M A :=
  fun w =>
    match body w with
    | (o, w') =>
        match cleanup w' with
        | (Return _, w'') => (o, w'')
        | (Throw e, w'') => (Throw e, w'')
        end
    end.

(** ** The driver *)

Module Driver.

(** Every call is logged; the runtime decides whether it fails. *)
Definition call (rt : Runtime) (c : DriverCall) : M unit :=
  fun w =>
    let w' := mkWorld (committed w) (txn w) (auto_increment w) (c :: log w) in
    match fault rt (length (log w)) with
    | Some msg => (Throw (JS.new_Error msg), w')
    | None => (Return tt, w')
    end.

(** A call that is only logged. *)
Definition note (c : DriverCall) : M unit :=
  fun w => (Return tt,
            mkWorld (committed w) (txn w) (auto_increment w) (c :: log w)).

(** Run a writing statement on the connection: inside the open
    transaction if there is one, directly on the committed database
    otherwise (autocommit). *)
Definition write (stmt : Database -> string + Database) : M unit :=
  fun w =>
    match txn w with
    | Some d =>
        match stmt d with
        | inl msg => (Throw (JS.new_Error msg), w)
        | inr d' =>
            (Return tt, mkWorld (committed w) (Some d') (auto_increment w) (log w))
        end
    | None =>
        match stmt (committed w) with
        | inl msg => (Throw (JS.new_Error msg), w)
        | inr d' => (Return tt, mkWorld d' None (auto_increment w) (log w))
        end
    end.

(** The next value of the [AUTO_INCREMENT] counter of [payments]. *)
Definition next_insert_id : M Z :=
  fun w => (Return (auto_increment w),
            mkWorld (committed w) (txn w) (auto_increment w + 1) (log w)).

Definition pool_getConnection (rt : Runtime) : M unit :=
  call rt GetConnection.

Definition conn_beginTransaction (rt : Runtime) : M unit :=
  await call rt BeginTransaction;
  fun w => (Return tt,
            mkWorld (committed w) (Some (committed w)) (auto_increment w) (log w)).

Definition conn_execute (rt : Runtime) (s : Statement)
    (stmt : Database -> string + Database) : M unit :=
  await call rt (Execute s); write stmt.

(** [conn.commit()]: the transaction's state becomes the committed one.
    A commit that fails commits nothing. *)
Definition conn_commit (rt : Runtime) : M unit :=
  await call rt Commit;
  fun w => (Return tt,
            mkWorld (default (committed w) (txn w)) None (auto_increment w) (log w)).

(** [conn.rollback()]: the transaction's state is dropped.  The rollback
    and the release of the connection are taken not to fail: a rollback
    can only fail when the connection is lost, and the server then drops
    the transaction itself. *)
Definition conn_rollback : M unit :=
  await note Rollback;
  fun w => (Return tt, mkWorld (committed w) None (auto_increment w) (log w)).

Definition conn_release : M unit := note Release.

(** [pool.execute(query, params)] and [pool.query(query, params)] for a
    reading statement: evaluated on the committed database; a statement
    the server rejects throws. *)
Definition read {R} (query : Database -> string + R) : M R :=
  fun w =>
    match query (committed w) with
    | inl msg => (Throw (JS.new_Error msg), w)
    | inr r => (Return r, w)
    end.

Definition pool_execute {R} (rt : Runtime) (s : Statement)
    (query : Database -> string + R) : M R :=
  await call rt (PoolExecute s); read query.

Definition pool_query {R} (rt : Runtime) (s : Statement)
    (query : Database -> string + R) : M R :=
  await call rt (PoolQuery s); read query.

End Driver.

(** ** The [uuid] package: version-4 identifiers *)

Module Uuid.

Definition hex_digit (n : Z) : ascii :=
  nth (Z.to_nat n) (list_ascii_of_string "0123456789abcdef") "0"%char.

(** Two lowercase hexadecimal digits for one byte. *)
Definition byte_to_hex (b : Z) : string :=
  String (hex_digit (Z.shiftr b 4)) (String (hex_digit (Z.land b 15)) "").

Definition hex_of (bs : list Z) : string :=
  foldr (fun b s => byte_to_hex b +:+ s) "" bs.

(** The sixteen bytes of a 128-bit random value, most significant first. *)
Definition rnds (r : Z) : list Z :=
  (fun i => Z.land (Z.shiftr r (8 * (15 - i))) 255) <$> seqZ 0 16.

(** [8-4-4-4-12] hexadecimal digits. *)
Definition stringify (bs : list Z) : string :=
  hex_of (take 4 bs) +:+ "-" +:+ hex_of (take 2 (drop 4 bs)) +:+ "-"
  +:+ hex_of (take 2 (drop 6 bs)) +:+ "-" +:+ hex_of (take 2 (drop 8 bs))
  +:+ "-" +:+ hex_of (drop 10 bs).

(** [uuidv4()]: sixteen random bytes with the version and variant bits
    set, [rnds[6] = (rnds[6] & 0x0f) | 0x40] and
    [rnds[8] = (rnds[8] & 0x3f) | 0x80]. *)
Definition v4 (r : Z) : string :=
  stringify
    (alter (fun b => Z.lor (Z.land b 0x3f) 0x80) 8%nat
       (alter (fun b => Z.lor (Z.land b 0x0f) 0x40) 6%nat (rnds r))).

End Uuid.

(** ** [models/Customer.js] *)

Module Customer.

(** A customer object as the driver returns it: the primary key and the
    other columns. *)
Definition t : Type := Z * CustomerRow.t.

Definition id (c : t) : Z := c.1.

Definition has_account_number (accountNumber : string) (c : t) : Prop :=
  CustomerRow.account_number c.2 = accountNumber.

Global Instance has_account_number_dec a c : Decision (has_account_number a c).
Proof. unfold has_account_number. apply _. Defined.

(** [findByAccountNumber(accountNumber)]:
    [SELECT * FROM customers WHERE account_number = ?], then
    [rows[0] || null]. *)
Definition findByAccountNumber (rt : Runtime) (accountNumber : string)
    : M (option t) :=
  try_catch
    (let* rows <- Driver.pool_execute rt SELECT_customer_by_account_number
                    (fun d => inr (filter (has_account_number accountNumber)
                                     (map_to_list (customers d))));
     ret (head rows))
    (fun error =>
       throw (JS.new_Error ("Error fetching customer: " +:+ JS.message error))).

(** [findById(id)]: [SELECT * FROM customers WHERE id = ?], then
    [rows[0] || null]. *)
Definition findById (rt : Runtime) (id : Z) : M (option t) :=
  try_catch
    (let* rows <- Driver.pool_execute rt SELECT_customer_by_id
                    (fun d => inr (option_list (pair id <$> customers d !! id)));
     ret (head rows))
    (fun error =>
       throw (JS.new_Error ("Error fetching customer: " +:+ JS.message error))).

(** [findAll(limit = 50, offset = 0)] *)
Definition findAll (rt : Runtime) (limit offset : JS.Value) : M (list t) :=
  let limit := JS.default_param (JS.VNumber (JS.of_Z 50)) limit in
  let offset := JS.default_param (JS.VNumber (JS.of_Z 0)) offset in
  try_catch
    (let safeLimit := JS.sanitize 50 limit in
     let safeOffset := JS.sanitize 0 offset in
     let* customers <- Driver.pool_query rt SELECT_customers
                         (SQL.active_customers (JS.NumberToString safeLimit)
                            (JS.NumberToString safeOffset));
     ret customers)
    (fun error =>
       throw (JS.new_Error ("Error fetching customers: " +:+ JS.message error))).

(** [findWithPaymentInfo(accountNumber)]: [rows[0] || null]. *)
Definition findWithPaymentInfo (rt : Runtime) (accountNumber : string)
    : M (option CustomerPaymentInfo.t) :=
  try_catch
    (let* rows <- Driver.pool_execute rt SELECT_customer_with_payment_info
                    (fun d => inr (SQL.customers_with_payment_info
                                     accountNumber d));
     ret (head rows))
    (fun error =>
       throw (JS.new_Error ("Error fetching customer with payment info: "
                            +:+ JS.message error))).

End Customer.

(** ** [models/Payment.js] *)

(** The argument of [Payment.create].  An absent (undefined) property is
    [None]; [payment_amount] is a finite number, given by its exact
    value. *)
Module PaymentData.
Record t := mk {
  customer_id : Z;
  account_number : string;
  payment_amount : Q;
  payment_method : option payment_method;
  transaction_id : option string;
  remarks : option string
}.
End PaymentData.

(** The object [Payment.create] returns. *)
Module PaymentRecord.
Record t := mk {
  id : Z;
  payment_reference_id : string;
  payment_amount : Q;
  payment_method : payment_method;
  account_number : string;
  status : payment_status;
  payment_date : Z
}.
End PaymentRecord.

Module Payment.

(** [`PAY-${Date.now()}-${uuidv4().substring(0, 8)}`] *)
Definition payment_reference (rt : Runtime) : string :=
  "PAY-" +:+ pretty (Date_now rt) +:+ "-"
  +:+ String.substring 0 8 (Uuid.v4 (random128 rt)).

(** The [INSERT] of [create], with [result.insertId] as its result. *)
Definition insert (rt : Runtime) (row : Z -> PaymentRow.t) : M Z :=
  await Driver.call rt (Execute INSERT_payment);
  let* insertId <- Driver.next_insert_id;
  await Driver.write (SQL.insert_payment (row insertId));
  ret insertId.

Definition create (rt : Runtime) (paymentData : PaymentData.t)
    : M PaymentRecord.t :=
  await Driver.pool_getConnection rt;
  try_finally
    (try_catch
       (await Driver.conn_beginTransaction rt;
        let customer_id := PaymentData.customer_id paymentData in
        let account_number := PaymentData.account_number paymentData in
        let payment_amount := PaymentData.payment_amount paymentData in
        let payment_method := default UPI (PaymentData.payment_method paymentData) in
        let transaction_id := PaymentData.transaction_id paymentData in
        let remarks := PaymentData.remarks paymentData in
        let payment_reference_id := payment_reference rt in
        let payment_date := new_Date rt in
        (* Insert payment *)
        let* insertId <-
          insert rt (fun id =>
            PaymentRow.mk id payment_reference_id customer_id account_number
              (SQL.to_datetime payment_date) (SQL.to_cents payment_amount)
              SUCCESS payment_method
              transaction_id remarks);
        (* Update customer outstanding balance *)
        await Driver.conn_execute rt UPDATE_customer_balance
          (fun d => inr (SQL.update_balance payment_amount customer_id d));
        (* Update payment schedule if exists *)
        await Driver.conn_execute rt UPDATE_payment_schedule
          (fun d => inr (SQL.update_schedule payment_amount customer_id d));
        await Driver.conn_commit rt;
        ret (PaymentRecord.mk insertId payment_reference_id payment_amount
               payment_method account_number SUCCESS payment_date))
       (fun error =>
          await Driver.conn_rollback;
          throw (JS.new_Error ("Error creating payment: " +:+ JS.message error))))
    Driver.conn_release.

(** [findByAccountNumber(accountNumber, limit = 50, offset = 0)] *)
Definition findByAccountNumber (rt : Runtime) (accountNumber : string)
    (limit offset : JS.Value) : M (list PaymentRow.t) :=
  let limit := JS.default_param (JS.VNumber (JS.of_Z 50)) limit in
  let offset := JS.default_param (JS.VNumber (JS.of_Z 0)) offset in
  try_catch
    (let safeLimit := JS.sanitize 50 limit in
     let safeOffset := JS.sanitize 0 offset in
     let* payments <- Driver.pool_query rt SELECT_payments_by_account_number
                        (SQL.payments_by_account_number accountNumber
                           (JS.NumberToString safeLimit)
                           (JS.NumberToString safeOffset));
     ret payments)
    (fun error =>
       throw (JS.new_Error ("Error fetching payments: " +:+ JS.message error))).

(** [findByCustomerId(customerId, limit = 50, offset = 0)] *)
Definition findByCustomerId (rt : Runtime) (customerId : Z)
    (limit offset : JS.Value) : M (list PaymentRow.t) :=
  let limit := JS.default_param (JS.VNumber (JS.of_Z 50)) limit in
  let offset := JS.default_param (JS.VNumber (JS.of_Z 0)) offset in
  try_catch
    (let safeLimit := JS.sanitize 50 limit in
     let safeOffset := JS.sanitize 0 offset in
     let* payments <- Driver.pool_query rt SELECT_payments_by_customer_id
                        (SQL.payments_by_customer_id customerId
                           (JS.NumberToString safeLimit)
                           (JS.NumberToString safeOffset));
     ret payments)
    (fun error =>
       throw (JS.new_Error ("Error fetching payments: " +:+ JS.message error))).

(** [findByReferenceId(referenceId)]: [rows[0] || null]. *)
Definition findByReferenceId (rt : Runtime) (referenceId : string)
    : M (option PaymentRow.t) :=
  try_catch
    (let* rows <- Driver.pool_execute rt SELECT_payment_by_reference_id
                    (fun d => inr (SQL.payments_by_reference_id referenceId d));
     ret (head rows))
    (fun error =>
       throw (JS.new_Error ("Error fetching payment: " +:+ JS.message error))).

(** [getPaymentHistory(accountNumber)] *)
Definition getPaymentHistory (rt : Runtime) (accountNumber : string)
    : M (list (PaymentRow.t * CustomerRow.t)) :=
  try_catch
    (let* history <- Driver.pool_execute rt SELECT_payment_history
                       (fun d => inr (SQL.payment_history accountNumber d));
     ret history)
    (fun error =>
       throw (JS.new_Error
                ("Error fetching payment history: " +:+ JS.message error))).

(** [getPaymentStats(customerId)]: [stats[0] || null]. *)
Definition getPaymentStats (rt : Runtime) (customerId : Z)
    : M (option PaymentStats.t) :=
  try_catch
    (let* stats <- Driver.pool_execute rt SELECT_payment_stats
                     (fun d => inr (SQL.payment_stats customerId d));
     ret (head stats))
    (fun error =>
       throw (JS.new_Error
                ("Error fetching payment statistics: " +:+ JS.message error))).

(** [countByAccountNumber(accountNumber)]: [result[0].total]. *)
Definition countByAccountNumber (rt : Runtime) (accountNumber : string) : M Z :=
  try_catch
    (let* total <- Driver.pool_execute rt SELECT_count_by_account_number
                     (fun d => inr (SQL.count_by_account_number accountNumber d));
     ret total)
    (fun error =>
       throw (JS.new_Error ("Error counting payments: " +:+ JS.message error))).

(** [Number.isFinite(limit) ? Math.max(0, Math.min(limit, 100)) : 20], the
    limit of [findAll]: capped, and not floored. *)
Definition capped_limit (v : JS.Value) : JS.Number :=
  match JS.as_finite v with
  | Some q => JS.Math_max (JS.of_Z 0) (JS.Math_min (JS.Finite q) (JS.of_Z 100))
  | None => JS.of_Z 20
  end.

(** [findAll(filters = {}, limit = 20, offset = 0)] *)
Definition findAll (rt : Runtime) (filters : option Filters.t)
    (limit offset : JS.Value)
    : M (list (PaymentRow.t * option CustomerRow.t)) :=
  let filters := default (Filters.mk None None None None) filters in
  let limit := JS.default_param (JS.VNumber (JS.of_Z 20)) limit in
  let offset := JS.default_param (JS.VNumber (JS.of_Z 0)) offset in
  try_catch
    (let safeLimit := capped_limit limit in
     let safeOffset := JS.sanitize 0 offset in
     let* payments <- Driver.pool_query rt SELECT_all_payments
                        (SQL.all_payments filters
                           (JS.NumberToString safeLimit)
                           (JS.NumberToString safeOffset));
     ret payments)
    (fun error =>
       throw (JS.new_Error ("Error fetching payments: " +:+ JS.message error))).

(** [countAll(filters = {})]: [result[0].total]. *)
Definition countAll (rt : Runtime) (filters : option Filters.t) : M Z :=
  let filters := default (Filters.mk None None None None) filters in
  try_catch
    (let* total <- Driver.pool_execute rt SELECT_count_all
                     (fun d => inr (SQL.count_all filters d));
     ret total)
    (fun error =>
       throw (JS.new_Error ("Error counting payments: " +:+ JS.message error))).

End Payment.

(** ** [services/PaymentService.js] *)

(** The argument of [PaymentService.processPayment]. *)
Module PaymentRequest.
Record t := mk {
  account_number : string;
  payment_amount : Q;
  payment_method : option payment_method;
  transaction_id : option string;
  remarks : option string
}.
End PaymentRequest.

(** What [PaymentService.processPayment] returns. *)
Module CustomerSummary.
Record t := mk {
  account_number : string;
  customer_name : string;
  outstanding_balance : option Z;
  emi_due : Z
}.
End CustomerSummary.

Module ProcessedPayment.
Record t := mk {
  success : bool;
  payment : PaymentRecord.t;
  customer : CustomerSummary.t
}.
End ProcessedPayment.

(** What [PaymentService.getPaymentHistory] returns. *)
Module HistoryCustomer.
Record t := mk {
  account_number : string;
  customer_name : string;
  outstanding_balance : option Z
}.
End HistoryCustomer.

Module HistoryReport.
Record t := mk {
  customer : HistoryCustomer.t;
  statistics : option PaymentStats.t;
  transactions : list (PaymentRow.t * CustomerRow.t)
}.
End HistoryReport.

Module PaymentService.

(** [amount > customer.outstanding_balance], a comparison of two numbers.
    The driver returns a [DECIMAL] as a string, which the comparison
    converts to the nearest binary64 ([null] to zero); the amount is a
    number already, and the conversion gives a binary64 back as it is.
    Neither is [NaN], so the amount is greater exactly when it is not
    less than or equal. *)
Definition exceeds (amount : Q) (outstanding_balance : option Z) : bool :=
  negb (JS.le (JS.binary64 amount)
          (JS.binary64 (SQL.of_cents (default 0 outstanding_balance)))).

Definition processPayment (rt : Runtime) (paymentData : PaymentRequest.t)
    : M ProcessedPayment.t :=
  try_catch
    ((* Validate customer exists *)
     let* customer <-
       Customer.findByAccountNumber rt (PaymentRequest.account_number paymentData);
     match customer with
     | None => throw (JS.mkError "Customer not found" (Some 404))
     | Some customer =>
         (* Validate payment amount *)
         if Qle_bool (PaymentRequest.payment_amount paymentData) 0
         then throw (JS.mkError "Payment amount must be greater than 0" (Some 400))
         else if exceeds (PaymentRequest.payment_amount paymentData)
                   (CustomerRow.outstanding_balance customer.2)
         then throw (JS.mkError "Payment amount exceeds outstanding balance"
                       (Some 400))
         else
           (* Create payment record *)
           let* paymentRecord <-
             Payment.create rt
               (PaymentData.mk (Customer.id customer)
                  (PaymentRequest.account_number paymentData)
                  (PaymentRequest.payment_amount paymentData)
                  (Some (default UPI (PaymentRequest.payment_method paymentData)))
                  (PaymentRequest.transaction_id paymentData)
                  (PaymentRequest.remarks paymentData));
           (* Get updated customer info *)
           let* updatedCustomer <- Customer.findById rt (Customer.id customer);
           match updatedCustomer with
           | None =>
               throw (JS.new_Error
                        "Cannot read properties of null (reading 'account_number')")
           | Some updatedCustomer =>
               ret (ProcessedPayment.mk true paymentRecord
                      (CustomerSummary.mk
                         (CustomerRow.account_number updatedCustomer.2)
                         (CustomerRow.customer_name updatedCustomer.2)
                         (CustomerRow.outstanding_balance updatedCustomer.2)
                         (CustomerRow.emi_due updatedCustomer.2)))
           end
     end)
    (fun error => throw error).

(** [processPayment] on a payment amount of [Infinity], which is a number
    but no [Q]: the amount is not [<= 0] and is [>] every balance. *)
Definition processPayment_Infinity (rt : Runtime) (account_number : string)
    : M ProcessedPayment.t :=
  try_catch
    (let* customer <- Customer.findByAccountNumber rt account_number;
     match customer with
     | None => throw (JS.mkError "Customer not found" (Some 404))
     | Some customer =>
         throw (JS.mkError "Payment amount exceeds outstanding balance"
                  (Some 400))
     end)
    (fun error => throw error).

Definition getPaymentHistory (rt : Runtime) (accountNumber : string)
    : M HistoryReport.t :=
  try_catch
    (let* customer <- Customer.findByAccountNumber rt accountNumber;
     match customer with
     | None => throw (JS.mkError "Customer not found" (Some 404))
     | Some customer =>
         let* history <- Payment.getPaymentHistory rt accountNumber;
         let* stats <- Payment.getPaymentStats rt (Customer.id customer);
         ret (HistoryReport.mk
                (HistoryCustomer.mk
                   (CustomerRow.account_number customer.2)
                   (CustomerRow.customer_name customer.2)
                   (CustomerRow.outstanding_balance customer.2))
                stats history)
     end)
    (fun error => throw error).

End PaymentService.

(** ** [middleware/validation.js] *)

(** The validators and sanitizers of [express-validator] the chains use.
    A string is a sequence of code units below 256, the characters U+0000
    to U+00FF; strings with other characters are not modelled. *)
Module Validator.

(** [toString(value)]: the empty string for an absent value. *)
Definition toString (v : option string) : string := default EmptyString v.

(** The white space [ltrim] and [rtrim] strip, the class [\s] of regular
    expressions: among the characters below U+0100, the tab, the line
    feed, the vertical tab, the form feed, the carriage return, the space
    and the no-break space U+00A0. *)
Definition is_white_space (c : ascii) : bool :=
  Ascii.is_space c || Ascii.eqb c "160"%char.

Fixpoint ltrim (s : string) : string :=
  match s with
  | String c s' => if is_white_space c then ltrim s' else s
  | EmptyString => s
  end.

Definition rtrim (s : string) : string := String.rev (ltrim (String.rev s)).

(** [trim(str)]: white space removed at both ends. *)
Definition trim (s : string) : string := rtrim (ltrim s).

(** [isEmpty(str)] and its negation [notEmpty]. *)
Definition notEmpty (s : string) : bool :=
  negb (Nat.eqb (String.length s) 0).

(** [isLength(str, { min, max })] *)
Definition isLength (min : nat) (max : option nat) (s : string) : bool :=
  Nat.leb min (String.length s)
  && match max with
     | Some m => Nat.leb (String.length s) m
     | None => true
     end.

(** [isIn(str, values)] *)
Definition isIn (values : list string) (s : string) : bool :=
  bool_decide (s ∈ values).

(** *** [isFloat(str, { min })]

    The string has to match the pattern of [isFloat] (an optional sign,
    digits, optionally a point and digits, optionally an exponent: [e] or
    [E], an optional sign, at least one digit; every run of digits but the
    exponent's may be empty), must not be one of the five strings
    [isFloat] excludes up front, and [parseFloat(str) >= min] has to
    hold. *)
Definition is_digit (c : ascii) : bool := bool_decide (is_Some (Ascii.is_nat c)).

Fixpoint span_digits (s : string) : string * string :=
  match s with
  | String c s' =>
      if is_digit c
      then let '(ds, rest) := span_digits s' in (String c ds, rest)
      else (EmptyString, s)
  | EmptyString => (EmptyString, EmptyString)
  end.

(** An optional sign: whether it is a minus, and what follows it. *)
Definition span_sign (s : string) : bool * string :=
  match s with
  | String "-"%char s' => (true, s')
  | String "+"%char s' => (false, s')
  | _ => (false, s)
  end.

Definition digits_to_Z (s : string) : Z := default 0 (SQL.digits_value 0 s).

Record FloatSyntax := mkFloatSyntax {
  negative : bool;
  integer_digits : string;
  fraction_digits : string;
  exponent : Z
}.

(** The parts of a string that matches the regular expression. *)
Definition match_float (s : string) : option FloatSyntax :=
  let '(neg, s1) := span_sign s in
  let '(int, s2) := span_digits s1 in
  let '(frac, s3) :=
    match s2 with
    | String "."%char r => span_digits r
    | _ => (EmptyString, s2)
    end in
  match s3 with
  | EmptyString => Some (mkFloatSyntax neg int frac 0)
  | String c r =>
      if bool_decide (c = "e"%char ∨ c = "E"%char)
      then
        let '(eneg, r1) := span_sign r in
        let '(ds, r2) := span_digits r1 in
        match ds, r2 with
        | String _ _, EmptyString =>
            Some (mkFloatSyntax neg int frac
                    (if eneg then - digits_to_Z ds else digits_to_Z ds))
        | _, _ => None
        end
      else None
  end.

(** The decimal value of a string that matches and has a digit in its
    mantissa. *)
Definition decimal_value (f : FloatSyntax) : Q :=
  ((if negative f then -1 else 1)
   * inject_Z (digits_to_Z (integer_digits f +:+ fraction_digits f))
   * 10 ^ (exponent f - Z.of_nat (String.length (fraction_digits f))))%Q.

(** [parseFloat] on a string that matches: [NaN] when the mantissa has no
    digit, the binary64 nearest to the decimal value otherwise. *)
Definition float_value (f : FloatSyntax) : JS.Number :=
  match integer_digits f +:+ fraction_digits f with
  | EmptyString => JS.NaN
  | _ => JS.binary64 (decimal_value f)
  end.

Definition isFloat (min : JS.Number) (s : string) : bool :=
  if bool_decide (s ∈ [EmptyString; "."; ","; "-"; "+"]) then false
  else match match_float s with
       | None => false
       | Some f => JS.le min (float_value f)
       end.

End Validator.

Module Validation.

(** The fields of the request body the chains look at.  An absent field
    is [None]; a present one is given by its string form. *)
Record Body := mkBody {
  account_number : option string;
  payment_amount : option string;
  payment_method : option string;
  transaction_id : option string;
  remarks : option string
}.

(** An entry of [errors.array()], as [handleValidationErrors] reports it. *)
Record FieldError := mkFieldError {
  field : string;
  message : string;
  value : option string
}.

(** The 400 response of [handleValidationErrors]. *)
Record Rejection := mkRejection {
  status : Z;
  success : bool;
  rejection_message : string;
  errors : list FieldError
}.

Definition failing (ok : bool) (e : FieldError) : list FieldError :=
  if ok then [] else [e].

(** [body('account_number').trim().notEmpty().isLength({ min: 3 })] *)
Definition check_account_number (v : option string)
  : option string * list FieldError :=
  let value := Validator.trim (Validator.toString v) in
  (Some value,
   failing (Validator.notEmpty value)
     (mkFieldError "account_number" "Account number is required" (Some value))
   ++ failing (Validator.isLength 3 None value)
        (mkFieldError "account_number"
           "Account number must be at least 3 characters" (Some value))).

(** [body('payment_amount').isFloat({ min: 0.01 })] *)
Definition check_payment_amount (v : option string)
  : option string * list FieldError :=
  (v,
   failing (Validator.isFloat (JS.binary64 (1 # 100)) (Validator.toString v))
     (mkFieldError "payment_amount"
        "Payment amount must be a valid number greater than 0" v)).

(** [body('payment_method').optional().isIn([...])] *)
Definition check_payment_method (v : option string)
  : option string * list FieldError :=
  match v with
  | None => (None, [])
  | Some s =>
      (v,
       failing (Validator.isIn ["UPI"; "CARD"; "NET_BANKING"; "CHEQUE"] s)
         (mkFieldError "payment_method" "Invalid payment method" v))
  end.

(** [body('transaction_id').optional().trim()] *)
Definition check_transaction_id (v : option string)
  : option string * list FieldError :=
  match v with
  | None => (None, [])
  | Some s => (Some (Validator.trim s), [])
  end.

(** [body('remarks').optional().trim().isLength({ max: 500 })] *)
Definition check_remarks (v : option string)
  : option string * list FieldError :=
  match v with
  | None => (None, [])
  | Some s =>
      let value := Validator.trim s in
      (Some value,
       failing (Validator.isLength 0 (Some 500%nat) value)
         (mkFieldError "remarks" "Remarks must not exceed 500 characters"
            (Some value)))
  end.

(** [handleValidationErrors]: answer 400 without calling [next] when there
    are errors, call [next] otherwise. *)
Definition handleValidationErrors {R} (errs : list FieldError) (next : R)
  : Rejection + R :=
  match errs with
  | [] => inr next
  | _ => inl (mkRejection 400 false "Validation Error" errs)
  end.

(** The chains of [validatePayment] in order, each sanitizing its field
    and adding its errors, then [handleValidationErrors].  [next] is the
    route handler that follows, given the sanitized body. *)
Definition validatePayment {R} (body : Body) (next : Body -> R)
  : Rejection + R :=
  let '(account_number, e1) := check_account_number (account_number body) in
  let '(payment_amount, e2) := check_payment_amount (payment_amount body) in
  let '(payment_method, e3) := check_payment_method (payment_method body) in
  let '(transaction_id, e4) := check_transaction_id (transaction_id body) in
  let '(remarks, e5) := check_remarks (remarks body) in
  handleValidationErrors (e1 ++ e2 ++ e3 ++ e4 ++ e5)
    (next (mkBody account_number payment_amount payment_method
             transaction_id remarks)).

(** [validateAccountNumber]: the same chain on the route parameter, then
    [handleValidationErrors].  [next] is given the trimmed parameter. *)
Definition validateAccountNumber {R} (account_number : string)
    (next : string -> R) : Rejection + R :=
  let checked := check_account_number (Some account_number) in
  handleValidationErrors checked.2 (next (Validator.toString checked.1)).

End Validation.

(** ** [routes/paymentRoutes.js] and [routes/customerRoutes.js]

    A handler answers with a status and a JSON body; it catches every
    error of the services. *)
Module Routes.

Inductive Response (A : Type) :=
| Ok (status : Z) (data : A)
| Failure (status : Z) (message : string)
| Invalid (rejection : Validation.Rejection).
Arguments Ok {A} status data.
Arguments Failure {A} status message.
Arguments Invalid {A} rejection.

Definition status_of {A} (r : Response A) : Z :=
  match r with
  | Ok status _ => status
  | Failure status _ => status
  | Invalid rejection => Validation.status rejection
  end.

(** [const status = error.status || 500] and the body
    [{ success: false, message: error.message }]. *)
Definition failure_of {A} (error : JS.Error) : Response A :=
  Failure (match JS.status error with
           | Some 0 | None => 500
           | Some status => status
           end) (JS.message error).

(** The payment method of a validated body: absent, or one of the four
    names. *)
Definition method_of (v : option string) : option (option payment_method) :=
  match v with
  | None => Some None
  | Some s =>
      Some <$> head (filter (fun m => SQL.method_name m = s)
                       [UPI; CARD; NET_BANKING; CHEQUE])
  end.

(** The call [PaymentService.processPayment({ account_number,
    payment_amount: parseFloat(payment_amount), payment_method,
    transaction_id, remarks })] for a body.  It is [None] for a body the
    model of the service does not cover: no account number, an amount
    whose text is not that of a number or reads as [NaN] or [-Infinity],
    or a method that is none of the four.  [validatePayment] lets no such
    body through. *)
Definition process (rt : Runtime) (body : Validation.Body)
    : option (M ProcessedPayment.t) :=
  account_number ← Validation.account_number body;
  syntax ← Validator.match_float
             (Validator.toString (Validation.payment_amount body));
  method ← method_of (Validation.payment_method body);
  match Validator.float_value syntax with
  | JS.Finite q =>
      Some (PaymentService.processPayment rt
              (PaymentRequest.mk account_number q method
                 (Validation.transaction_id body) (Validation.remarks body)))
  | JS.PosInfinity => Some (PaymentService.processPayment_Infinity rt account_number)
  | _ => None
  end.

(** [router.post('/', validatePayment, async (req, res) => ...)] *)
Definition post_payment_handler (rt : Runtime) (body : Validation.Body)
    : option (M (Response (PaymentRecord.t * CustomerSummary.t))) :=
  posting ← process rt body;
  Some (try_catch
          (let* result <- posting;
           ret (Ok 201 (ProcessedPayment.payment result,
                        ProcessedPayment.customer result)))
          (fun error => ret (failure_of error))).

Definition post_payment (rt : Runtime) (body : Validation.Body)
    : option (M (Response (PaymentRecord.t * CustomerSummary.t))) :=
  match Validation.validatePayment body (post_payment_handler rt) with
  | inl rejection => Some (ret (Invalid rejection))
  | inr answer => answer
  end.



End Routes.

(** * Specification vocabulary *)

(** What a posting writes when every step goes through: the row it
    inserts, the record it returns, the database it commits and the driver
    calls it makes. *)
Section Posting.
Variables (rt : Runtime) (paymentData : PaymentData.t) (w : World).

Definition posted_row : PaymentRow.t :=
  PaymentRow.mk (auto_increment w) (Payment.payment_reference rt)
    (PaymentData.customer_id paymentData)
    (PaymentData.account_number paymentData)
    (SQL.to_datetime (new_Date rt))
    (SQL.to_cents (PaymentData.payment_amount paymentData)) SUCCESS
    (default UPI (PaymentData.payment_method paymentData))
    (PaymentData.transaction_id paymentData) (PaymentData.remarks paymentData).

Definition posted_record : PaymentRecord.t :=
  PaymentRecord.mk (auto_increment w) (Payment.payment_reference rt)
    (PaymentData.payment_amount paymentData)
    (default UPI (PaymentData.payment_method paymentData))
    (PaymentData.account_number paymentData) SUCCESS (new_Date rt).

Definition posted_database : Database :=
  SQL.update_schedule (PaymentData.payment_amount paymentData)
    (PaymentData.customer_id paymentData)
    (SQL.update_balance (PaymentData.payment_amount paymentData)
       (PaymentData.customer_id paymentData)
       (mkDatabase (customers (committed w))
          (payments (committed w) ++ [posted_row])
          (payment_schedule (committed w)))).

Definition posted_world : World :=
  mkWorld posted_database None (auto_increment w + 1)
    (Release :: Commit :: Execute UPDATE_payment_schedule
     :: Execute UPDATE_customer_balance :: Execute INSERT_payment
     :: BeginTransaction :: GetConnection :: log w).

(** The [k]-th driver call of the invocation fails. *)
Definition faulty (k : nat) : Prop := is_Some (fault rt (k + length (log w))).

(** The insert violates the foreign key or the unique index. *)
Definition insert_rejected : Prop :=
  customers (committed w) !! PaymentData.customer_id paymentData = None
  ∨ Payment.payment_reference rt
      ∈ (PaymentRow.payment_reference_id <$> payments (committed w)).

(** Calls 1 to 5 are [beginTransaction], the insert, the two updates and
    [commit]; call 0 is [pool.getConnection()]. *)
Definition step_fails : Prop :=
  faulty 1 ∨ faulty 2 ∨ insert_rejected ∨ faulty 3 ∨ faulty 4 ∨ faulty 5.

Definition steps_succeed : Prop :=
  (∀ k, (k < 6)%nat → fault rt (k + length (log w)) = None)
  ∧ is_Some (customers (committed w) !! PaymentData.customer_id paymentData)
  ∧ Payment.payment_reference rt
      ∉ (PaymentRow.payment_reference_id <$> payments (committed w)).

End Posting.

(** Successful postings made one after the other, each in the world the
    one before it left. *)
Inductive posted_in_sequence
  : World → list (Runtime * PaymentData.t) → World → Prop :=
| posted_none w : posted_in_sequence w [] w
| posted_next w rt paymentData r w1 l w2 :
    Payment.create rt paymentData w = (Return r, w1) →
    posted_in_sequence w1 l w2 →
    posted_in_sequence w ((rt, paymentData) :: l) w2.

(** A rational that is the value of a JavaScript number: rounding it to
    binary64 gives it back. *)
Definition is_binary64 (q : Q) : Prop :=
  match JS.binary64 q with
  | JS.Finite v => (q == v)%Q
  | _ => False
  end.

(** The multiple of [2^e] that [JS.binary64] rounds a positive rational
    to. *)
Definition rounded (q : Q) : Q :=
  let e := Z.max (JS.binary_exponent q - 52) (-1074) in
  (inject_Z (JS.round_half_even (q / 2 ^ e)) * 2 ^ e)%Q.

(** An amount of [cents] cents as a JavaScript number: the binary64
    nearest to [cents / 100], which is what a literal such as [1234.99]
    and [parseFloat("1234.99")] give.  The range is that of a
    [DECIMAL(15,2)] column. *)
Definition in_cents (amount : Q) (cents : Z) : Prop :=
  -999999999999999 <= cents <= 999999999999999
  ∧ match JS.binary64 (SQL.of_cents cents) with
    | JS.Finite v => (amount == v)%Q
    | _ => False
    end.

(** An amount with at most two decimals: the number nearest to the cents
    it is stored as. *)
Definition two_decimals (amount : Q) : Prop :=
  in_cents amount (SQL.to_cents amount).

(** The number a decimal denotes, for the decimals that denote a finite
    one. *)
Definition number (q : Q) : Q :=
  match JS.binary64 q with
  | JS.Finite v => v
  | _ => 0%Q
  end.

(** What a list of postings takes off the balance of a customer: the sum
    of the amounts posted against that customer, in cents. *)
Definition posted_against (customer_id : Z)
    (l : list (Runtime * PaymentData.t)) : Z :=
  foldr Z.add 0
    ((λ p, SQL.to_cents (PaymentData.payment_amount p.2))
     <$> filter (λ p, PaymentData.customer_id p.2 = customer_id) l).

(** The world after a driver call that changes nothing: only the log
    grows. *)
Definition logged (c : DriverCall) (w : World) : World :=
  mkWorld (committed w) (txn w) (auto_increment w) (c :: log w).

(** The customer [Customer.findByAccountNumber] finds, and the posting
    [PaymentService.processPayment] hands to [Payment.create] for a request
    and that customer. *)
Definition lookup_account (accountNumber : string) (d : Database)
  : option Customer.t :=
  head (filter (Customer.has_account_number accountNumber)
          (map_to_list (customers d))).

Definition posting_of (paymentData : PaymentRequest.t) (customer : Customer.t)
  : PaymentData.t :=
  PaymentData.mk (Customer.id customer)
    (PaymentRequest.account_number paymentData)
    (PaymentRequest.payment_amount paymentData)
    (Some (default UPI (PaymentRequest.payment_method paymentData)))
    (PaymentRequest.transaction_id paymentData)
    (PaymentRequest.remarks paymentData).

(** Whether a computation returned or threw. *)
Definition is_Return {A} (o : Outcome A) : bool :=
  match o with
  | Return _ => true
  | Throw _ => false
  end.

(** The driver calls of the transaction, in the order [Payment.create]
    makes them. *)
Definition transaction_calls : list DriverCall :=
  [BeginTransaction; Execute INSERT_payment; Execute UPDATE_customer_balance;
   Execute UPDATE_payment_schedule; Commit].

(** The constraints of the schema on [payments]: the references are
    pairwise distinct (the unique index), the keys are pairwise distinct
    and below the counter (the [AUTO_INCREMENT] primary key), and every
    row names a customer of the table (the foreign key). *)
Definition constraints_hold (w : World) : Prop :=
  NoDup (PaymentRow.payment_reference_id <$> payments (committed w))
  ∧ NoDup (PaymentRow.id <$> payments (committed w))
  ∧ Forall (λ p, PaymentRow.id p < auto_increment w
                 ∧ is_Some (customers (committed w)
                              !! PaymentRow.customer_id p))
      (payments (committed w)).

(** The unique index on [customers.account_number]. *)
Definition unique_account_numbers (d : Database) : Prop :=
  ∀ k1 k2 c1 c2,
    customers d !! k1 = Some c1 → customers d !! k2 = Some c2 →
    CustomerRow.account_number c1 = CustomerRow.account_number c2 → k1 = k2.

(** The world with another [payment_schedule] table. *)
Definition with_schedule (s : gmap Z ScheduleRow.t) (w : World) : World :=
  mkWorld (mkDatabase (customers (committed w)) (payments (committed w)) s)
    (txn w) (auto_increment w) (log w).

(** A lowercase hexadecimal digit. *)
Definition is_hex_digit (c : ascii) : Prop :=
  c ∈ list_ascii_of_string "0123456789abcdef".

(** The first four of the sixteen random bytes, in hexadecimal: the top 32
    bits of the 128-bit identifier. *)
Definition random_suffix (rt : Runtime) : string :=
  Uuid.hex_of (take 4 (Uuid.rnds (random128 rt))).

(** The error [PaymentService.processPayment] raises for a request it
    rejects before posting, given what the customer lookup found. *)
Definition rejection (found : option Customer.t) (amount : Q) : JS.Error :=
  match found with
  | None => JS.mkError "Customer not found" (Some 404)
  | Some _ =>
      if Qle_bool amount 0
      then JS.mkError "Payment amount must be greater than 0" (Some 400)
      else JS.mkError "Payment amount exceeds outstanding balance" (Some 400)
  end.

(** The sanitized value is an integer MySQL accepts after [LIMIT] or
    [OFFSET]: between 0 and [2^64 - 1]. *)
Definition fits_unsigned (x : JS.Number) : Prop :=
  ∃ n, x = JS.of_Z n ∧ 0 <= n <= 18446744073709551615.

(** [safeLimit] and [safeOffset] as the three functions compute them from
    their arguments. *)
Definition safeLimit (limit : JS.Value) : JS.Number :=
  JS.sanitize 50 (JS.default_param (JS.VNumber (JS.of_Z 50)) limit).
Definition safeOffset (offset : JS.Value) : JS.Number :=
  JS.sanitize 0 (JS.default_param (JS.VNumber (JS.of_Z 0)) offset).

(** The amount [isFloat({ min: 0.01 })] refuses: a text that is not a
    number, or one that reads as [NaN] or as a number below 0.01, the
    binary64 nearest to one hundredth. *)
Definition amount_refused (payment_amount : option string) : Prop :=
  match Validator.match_float (Validator.toString payment_amount) with
  | None => True
  | Some f => JS.le (JS.binary64 (1 # 100)) (Validator.float_value f) = false
  end.

(** Remarks that are still longer than 500 characters once trimmed. *)
Definition remarks_refused (remarks : option string) : Prop :=
  ∃ s, remarks = Some s ∧ (500 < String.length (Validator.trim s))%nat.

(** ** Sample data

    The rows of [schema.sql], a schedule entry, and the invocations the
    examples below run. *)
Module Sample.

Definition rahul : CustomerRow.t :=
  CustomerRow.mk "ACC001" "Rahul Kumar" 500000 (Some 15000000) ACTIVE 0.
Definition priya : CustomerRow.t :=
  CustomerRow.mk "ACC002" "Priya Singh" 450000 (Some 19500000) ACTIVE 0.

Definition database : Database :=
  mkDatabase {[ 1 := rahul; 2 := priya ]} []
    {[ 1 := ScheduleRow.mk 1 20240115 500000 (Some 0) SCHEDULE_PENDING;
       2 := ScheduleRow.mk 2 20240120 450000 (Some 0) SCHEDULE_PENDING ]}.

Definition world : World := mkWorld database None 1 [].

(** A world in which ACC001 owes 1234.99. *)
Definition last_instalment : World :=
  mkWorld
    (mkDatabase
       {[ 1 := CustomerRow.mk "ACC001" "Rahul Kumar" 500000 (Some 123499)
                 ACTIVE 0 ]} [] ∅)
    None 1 [].

(** A runtime without storage errors. *)
Definition runtime (now : Z) (random : Z) : Runtime :=
  mkRuntime now now random (fun _ => None).

Definition first_runtime : Runtime :=
  runtime 1700000000000 0xdeadbeef0123456789abcdef01234567.
Definition second_runtime : Runtime :=
  runtime 1700000002000 0x0badcafe0123456789abcdef01234567.

(** A runtime whose [k]-th driver call fails. *)
Definition failing_runtime (k : nat) (message : string) : Runtime :=
  mkRuntime 1700000000000 1700000000000 0xdeadbeef0123456789abcdef01234567
    (fun n => if decide (n = k) then Some message else None).

(** A posting of 5000.00 on ACC001, one for a customer that does not
    exist, one of 0.125 on ACC001 (an eighth is a binary64), and one of
    1234.99 on ACC001. *)
Definition posting : PaymentData.t :=
  PaymentData.mk 1 "ACC001" 5000 (Some UPI) None None.
Definition orphan_posting : PaymentData.t :=
  PaymentData.mk 99999 "INVALID" 5000 (Some UPI) None None.
Definition subcent_posting : PaymentData.t :=
  PaymentData.mk 1 "ACC001" (1 # 8) (Some UPI) None None.
Definition precise_posting : PaymentData.t :=
  PaymentData.mk 1 "ACC001" (number (123499 # 100)) (Some UPI) None None.

(** Remarks of 504 characters: four letters and 500 spaces. *)
Definition padded_remarks : string :=
  "Paid" +:+ string_of_list_ascii (replicate 500 " "%char).

End Sample.

(** * Properties *)

(** ** Rounding to binary64 *)

Lemma Qpow2_pos (e : Z) : (0 < 2 ^ e)%Q.
Proof. by apply Qpower_0_lt. Qed.

Lemma Qpow2_add (a b : Z) : (2 ^ (a + b) == 2 ^ a * 2 ^ b)%Q.
Proof. by apply Qpower_plus. Qed.

Lemma Qpow2_le (a b : Z) : a <= b → (2 ^ a <= 2 ^ b)%Q.
Proof. intros H. by apply Qpower_le_compat_l. Qed.

Lemma Qpow2_Z (k : Z) : 0 <= k → (2 ^ k == inject_Z (2 ^ k))%Q.
Proof. intros H. symmetry. by apply (Zpower_Qpower 2). Qed.

Lemma Qfloor_unique (q : Q) (k : Z) :
  (inject_Z k <= q)%Q → (q < inject_Z (k + 1))%Q → Qfloor q = k.
Proof.
  intros Hle Hlt.
  pose proof (Qfloor_le q) as H1. pose proof (Qlt_floor q) as H2.
  assert (inject_Z k < inject_Z (Qfloor q + 1))%Q as H3
    by (eapply Qle_lt_trans; eassumption).
  assert (inject_Z (Qfloor q) < inject_Z (k + 1))%Q as H4
    by (eapply Qle_lt_trans; eassumption).
  rewrite <- Zlt_Qlt in H3, H4. lia.
Qed.

Lemma round_half_even_near (q : Q) :
  (Qabs (inject_Z (JS.round_half_even q) - q) <= 1 # 2)%Q.
Proof.
  unfold JS.round_half_even.
  pose proof (Qfloor_le q) as H1. pose proof (Qlt_floor q) as H2.
  rewrite inject_Z_plus in H2. change (inject_Z 1) with 1%Q in H2.
  apply Qabs_Qle_condition.
  destruct (q - inject_Z (Qfloor q) ?= 1 # 2)%Q eqn:E.
  - apply (proj2 (Qeq_alt _ _)) in E.
    destruct (Z.even _);
      [|rewrite inject_Z_plus; change (inject_Z 1) with 1%Q]; lra.
  - apply (proj2 (Qlt_alt _ _)) in E. lra.
  - apply (proj2 (Qgt_alt _ _)) in E. rewrite inject_Z_plus.
    change (inject_Z 1) with 1%Q. lra.
Qed.

Lemma round_half_even_Z (k : Z) : JS.round_half_even (inject_Z k) = k.
Proof.
  unfold JS.round_half_even. rewrite Qfloor_Z.
  assert ((inject_Z k - inject_Z k ?= 1 # 2)%Q = Lt) as ->; [|done].
  apply (proj1 (Qlt_alt _ _)). lra.
Qed.

Lemma round_half_even_mono (p q : Q) :
  (p <= q)%Q → JS.round_half_even p <= JS.round_half_even q.
Proof.
  intros Hle.
  pose proof (Qfloor_resp_le _ _ Hle) as Hf.
  pose proof (Qfloor_le p) as Hp1. pose proof (Qlt_floor p) as Hp2.
  pose proof (Qfloor_le q) as Hq1. pose proof (Qlt_floor q) as Hq2.
  rewrite inject_Z_plus in Hp2, Hq2. change (inject_Z 1) with 1%Q in Hp2, Hq2.
  unfold JS.round_half_even.
  destruct (decide (Qfloor p = Qfloor q)) as [Heq|Hne].
  - rewrite Heq in *.
    destruct (p - inject_Z (Qfloor q) ?= 1 # 2)%Q eqn:Ep;
      destruct (q - inject_Z (Qfloor q) ?= 1 # 2)%Q eqn:Eq;
      first [apply (proj2 (Qeq_alt _ _)) in Ep
            |apply (proj2 (Qlt_alt _ _)) in Ep
            |apply (proj2 (Qgt_alt _ _)) in Ep];
      first [apply (proj2 (Qeq_alt _ _)) in Eq
            |apply (proj2 (Qlt_alt _ _)) in Eq
            |apply (proj2 (Qgt_alt _ _)) in Eq];
      try (destruct (Z.even (Qfloor q))); try lia; exfalso; lra.
  - assert (Qfloor p + 1 <= Qfloor q) as Hlt by lia.
    destruct (p - inject_Z (Qfloor p) ?= 1 # 2)%Q;
      destruct (q - inject_Z (Qfloor q) ?= 1 # 2)%Q;
      try (destruct (Z.even (Qfloor p))); try (destruct (Z.even (Qfloor q)));
      lia.
Qed.

(** The exponent of a positive rational. *)
Lemma binary_exponent_spec (q : Q) :
  (0 < q)%Q →
  (2 ^ JS.binary_exponent q <= q)%Q ∧ (q < 2 ^ (JS.binary_exponent q + 1))%Q.
Proof.
  intros Hpos. unfold JS.binary_exponent.
  destruct q as [n d]. cbn [Qnum Qden].
  assert (0 < n) as Hn.
  { unfold Qlt in Hpos. cbn in Hpos. lia. }
  set (ln := Z.log2 n). set (ld := Z.log2 (Z.pos d)).
  destruct (Z.log2_spec n Hn) as [Hn1 Hn2]. fold ln in Hn1, Hn2.
  destruct (Z.log2_spec (Z.pos d) ltac:(lia)) as [Hd1 Hd2]. fold ld in Hd1, Hd2.
  assert (0 <= ln) as Hln by apply Z.log2_nonneg.
  assert (0 <= ld) as Hld by apply Z.log2_nonneg.
  assert (n # d == inject_Z n / inject_Z (Z.pos d))%Q as Hq
    by apply Qmake_Qdiv.
  assert (0 < inject_Z (Z.pos d))%Q as HD by (rewrite <- (Zlt_Qlt 0); lia).
  assert ((n # d) * inject_Z (Z.pos d) == inject_Z n)%Q as Hmul.
  { rewrite Hq. field. lra. }
  rewrite Zle_Qle, <- Qpow2_Z in Hn1, Hd1 by lia.
  rewrite Zlt_Qlt, <- Qpow2_Z in Hn2, Hd2 by lia.
  set (x := (n # d)%Q) in *. set (D := inject_Z (Z.pos d)) in *.
  set (N := inject_Z n) in *.
  destruct (Qle_bool (2 ^ (ln - ld)) x) eqn:E.
  - apply Qle_bool_iff in E. split; [done|].
    pose proof (Qpow2_add (ln - ld + 1) ld) as Hadd.
    replace (ln - ld + 1 + ld) with (Z.succ ln) in Hadd by lia.
    pose proof (Qpow2_pos (ln - ld + 1)) as Hp. pose proof (Qpow2_pos ld) as Hp'.
    apply Qnot_le_lt. intros Hge. nra.
  - assert (x < 2 ^ (ln - ld))%Q as Hlt.
    { apply Qnot_le_lt. intros Hle. apply Qle_bool_iff in Hle. congruence. }
    replace (ln - ld - 1 + 1) with (ln - ld) by lia. split; [|done].
    pose proof (Qpow2_add (ln - ld - 1) (Z.succ ld)) as Hadd.
    replace (ln - ld - 1 + Z.succ ld) with ln in Hadd by lia.
    pose proof (Qpow2_pos (ln - ld - 1)) as Hp.
    apply Qnot_lt_le. intros Hgt. nra.
Qed.

Lemma binary64_positive (q : Q) :
  (0 < q)%Q →
  JS.binary64 q
  = if Qle_bool (2 ^ 1024) (rounded q) then JS.PosInfinity
    else JS.Finite (Qred (rounded q)).
Proof.
  intros Hpos. destruct q as [[|p|p] d]; [done| |done].
  unfold JS.binary64.
  change ((Z.pos p # d ?= 0)%Q) with Gt. cbv iota.
  change (Qabs (Z.pos p # d)) with (Z.pos p # d). reflexivity.
Qed.

Lemma Qdiv_le_pos (p q x : Q) : (0 < x)%Q → (p <= q)%Q → (p / x <= q / x)%Q.
Proof.
  intros Hx Hle. unfold Qdiv. apply Qmult_le_compat_r; [done|].
  apply Qlt_le_weak. by apply Qinv_lt_0_compat.
Qed.

Lemma Qdiv_pow2 (a b : Z) : (2 ^ a / 2 ^ b == 2 ^ (a - b))%Q.
Proof. symmetry. by apply Qpower_minus. Qed.

(** A bound that is a multiple of the grid is kept by the rounding. *)
Lemma round_half_even_le_pow2 (q : Q) (e k : Z) :
  e <= k → (q <= 2 ^ k)%Q →
  (inject_Z (JS.round_half_even (q / 2 ^ e)) * 2 ^ e <= 2 ^ k)%Q.
Proof.
  intros Hk Hq. pose proof (Qpow2_pos e) as He.
  assert (q / 2 ^ e <= inject_Z (2 ^ (k - e)))%Q as Hle.
  { rewrite <- Qpow2_Z by lia. rewrite <- Qdiv_pow2. by apply Qdiv_le_pos. }
  apply round_half_even_mono in Hle. rewrite round_half_even_Z in Hle.
  rewrite Zle_Qle, <- Qpow2_Z in Hle by lia.
  pose proof (Qpow2_add (k - e) e) as Hadd.
  replace (k - e + e) with k in Hadd by lia. rewrite Hadd.
  apply Qmult_le_compat_r; [done|]. by apply Qlt_le_weak.
Qed.

Lemma round_half_even_ge_pow2 (q : Q) (e k : Z) :
  e <= k → (2 ^ k <= q)%Q →
  (2 ^ k <= inject_Z (JS.round_half_even (q / 2 ^ e)) * 2 ^ e)%Q.
Proof.
  intros Hk Hq. pose proof (Qpow2_pos e) as He.
  assert (inject_Z (2 ^ (k - e)) <= q / 2 ^ e)%Q as Hle.
  { rewrite <- Qpow2_Z by lia. rewrite <- Qdiv_pow2. by apply Qdiv_le_pos. }
  apply round_half_even_mono in Hle. rewrite round_half_even_Z in Hle.
  rewrite Zle_Qle, <- Qpow2_Z in Hle by lia.
  pose proof (Qpow2_add (k - e) e) as Hadd.
  replace (k - e + e) with k in Hadd by lia. rewrite Hadd.
  apply Qmult_le_compat_r; [done|]. by apply Qlt_le_weak.
Qed.

Lemma binary_exponent_mono (x y : Q) :
  (0 < x)%Q → (x <= y)%Q → JS.binary_exponent x <= JS.binary_exponent y.
Proof.
  intros Hx Hle.
  destruct (binary_exponent_spec x Hx) as [Hx1 _].
  destruct (binary_exponent_spec y) as [_ Hy2]; [lra|].
  assert (2 ^ JS.binary_exponent x < 2 ^ (JS.binary_exponent y + 1))%Q as H
    by lra.
  apply Qpower_lt_compat_l_inv in H; [lia|done].
Qed.

Lemma rounded_mono (x y : Q) :
  (0 < x)%Q → (x <= y)%Q → (rounded x <= rounded y)%Q.
Proof.
  intros Hx Hle. assert (0 < y)%Q as Hy by lra.
  pose proof (binary_exponent_mono x y Hx Hle) as HE.
  destruct (binary_exponent_spec x Hx) as [Hx1 Hx2].
  destruct (binary_exponent_spec y Hy) as [Hy1 Hy2].
  unfold rounded. cbv zeta.
  set (Ex := JS.binary_exponent x) in *. set (Ey := JS.binary_exponent y) in *.
  set (ex := Z.max (Ex - 52) (-1074)). set (ey := Z.max (Ey - 52) (-1074)).
  destruct (decide (ex = ey)) as [Heq|Hne].
  - rewrite Heq. apply Qmult_le_compat_r; [|apply Qlt_le_weak, Qpow2_pos].
    rewrite <- Zle_Qle. apply round_half_even_mono.
    apply Qdiv_le_pos; [apply Qpow2_pos|done].
  - assert (ex < ey) as Hlt by lia.
    assert (ey = Ey - 52) as Hey by lia.
    assert (Ex + 1 <= Ey) as HExy by lia.
    apply Qle_trans with (2 ^ Z.max (Ex + 1) ex)%Q.
    + apply round_half_even_le_pow2; [lia|].
      apply Qle_trans with (2 ^ (Ex + 1))%Q; [lra|]. apply Qpow2_le. lia.
    + apply Qle_trans with (2 ^ Ey)%Q; [apply Qpow2_le; lia|].
      apply round_half_even_ge_pow2; [lia|done].
Qed.

Lemma rounded_nonneg (q : Q) : (0 < q)%Q → (0 <= rounded q)%Q.
Proof.
  intros Hq. unfold rounded. cbv zeta.
  apply Qmult_le_0_compat; [|apply Qlt_le_weak, Qpow2_pos].
  rewrite <- (Zle_Qle 0).
  assert (JS.round_half_even (inject_Z 0)
          <= JS.round_half_even (q / 2 ^ Z.max (JS.binary_exponent q - 52) (-1074)))
    as H; [|by rewrite round_half_even_Z in H].
  apply round_half_even_mono. apply Qlt_le_weak.
  apply Qlt_shift_div_l; [apply Qpow2_pos|].
  change (inject_Z 0) with 0%Q. by rewrite Qmult_0_l.
Qed.

(** Rounding is within half a unit in the last place: below [2^44] that
    is less than a thousandth. *)
Lemma rounded_near (q : Q) :
  (0 < q)%Q → (q < 2 ^ 44)%Q → (Qabs (rounded q - q) <= 1 # 1024)%Q.
Proof.
  intros Hq Hlt. destruct (binary_exponent_spec q Hq) as [H1 H2].
  assert (JS.binary_exponent q < 44) as HE.
  { apply (Qpower_lt_compat_l_inv 2); [lra|done]. }
  unfold rounded. cbv zeta.
  set (e := Z.max (JS.binary_exponent q - 52) (-1074)).
  assert (e <= -9) as He by lia.
  pose proof (Qpow2_pos e) as Hpos.
  pose proof (Qpow2_le e (-9) He) as Hsmall.
  change (2 ^ (-9))%Q with (1 # 512)%Q in Hsmall.
  pose proof (round_half_even_near (q / 2 ^ e)) as Hnear.
  apply Qabs_Qle_condition in Hnear. apply Qabs_Qle_condition.
  assert (q / 2 ^ e * 2 ^ e == q)%Q as Hmul by (field; lra).
  set (y := (q / 2 ^ e)%Q) in *. set (x := (2 ^ e)%Q) in *.
  set (m := inject_Z (JS.round_half_even y)) in *.
  split; nra.
Qed.

(** Rounding to binary64 is monotone on positive numbers. *)
Lemma binary64_mono (x y : Q) :
  (0 < x)%Q → (x <= y)%Q → JS.le (JS.binary64 x) (JS.binary64 y) = true.
Proof.
  intros Hx Hle. rewrite !binary64_positive by lra.
  pose proof (rounded_mono x y Hx Hle) as Hmono.
  destruct (Qle_bool (2 ^ 1024) (rounded y)) eqn:Ey.
  { by destruct (Qle_bool (2 ^ 1024) (rounded x)). }
  destruct (Qle_bool (2 ^ 1024) (rounded x)) eqn:Ex.
  { apply Qle_bool_iff in Ex.
    assert (Qle_bool (2 ^ 1024) (rounded y) = true); [|congruence].
    apply Qle_bool_iff. lra. }
  cbn. apply Qle_bool_iff. by rewrite !Qred_correct.
Qed.

Lemma binary64_negative (q : Q) :
  (q < 0)%Q →
  JS.binary64 q
  = if Qle_bool (2 ^ 1024) (rounded (- q)) then JS.NegInfinity
    else JS.Finite (Qred (- rounded (- q))).
Proof.
  intros Hneg. destruct q as [[|p|p] d]; [done|done|].
  unfold JS.binary64.
  change ((Z.neg p # d ?= 0)%Q) with Lt. cbv iota.
  change (Qabs (Z.neg p # d)) with (Z.pos p # d).
  change (- (Z.neg p # d))%Q with (Z.pos p # d). reflexivity.
Qed.

Lemma binary64_zero (q : Q) : (q == 0)%Q → JS.binary64 q = JS.Finite 0.
Proof.
  intros Hq. unfold JS.binary64.
  by rewrite (proj1 (Qeq_alt _ _) Hq).
Qed.

Lemma rounded_finite (q : Q) :
  (0 < q)%Q → (q < 2 ^ 44)%Q → Qle_bool (2 ^ 1024) (rounded q) = false.
Proof.
  intros Hq Hlt. pose proof (rounded_near q Hq Hlt) as Hnear.
  apply Qabs_Qle_condition in Hnear.
  destruct (Qle_bool (2 ^ 1024) (rounded q)) eqn:E; [|done].
  apply Qle_bool_iff in E.
  pose proof (Qpow2_le 45 1024 ltac:(lia)) as H45.
  pose proof (Qpow2_add 44 1) as Hadd. change (44 + 1) with 45 in Hadd.
  change (2 ^ 1)%Q with 2%Q in Hadd.
  pose proof (Qpow2_le 0 44 ltac:(lia)) as H0. change (2 ^ 0)%Q with 1%Q in H0.
  set (a := (2 ^ 44)%Q) in *. set (b := (2 ^ 45)%Q) in *.
  set (c := (2 ^ 1024)%Q) in *. exfalso. lra.
Qed.

(** Below [2^44] in absolute value, the binary64 nearest to a rational is
    finite and less than a thousandth away. *)
Lemma binary64_near (q : Q) :
  (Qabs q < 2 ^ 44)%Q →
  ∃ v, JS.binary64 q = JS.Finite v ∧ (Qabs (v - q) <= 1 # 1024)%Q.
Proof.
  intros Hlt. destruct (Q_dec q 0) as [[Hneg|Hpos]|Hzero].
  - rewrite binary64_negative by done.
    assert (0 < - q)%Q as Hq by lra.
    assert (- q < 2 ^ 44)%Q as Hlt'.
    { rewrite Qabs_neg in Hlt by lra. done. }
    rewrite rounded_finite by done. eexists. split; [done|].
    rewrite Qred_correct.
    pose proof (rounded_near (- q) Hq Hlt') as Hnear.
    apply Qabs_Qle_condition in Hnear. apply Qabs_Qle_condition. lra.
  - rewrite binary64_positive by done.
    rewrite Qabs_pos in Hlt by lra.
    rewrite rounded_finite by done. eexists. split; [done|].
    rewrite Qred_correct. by apply rounded_near.
  - rewrite binary64_zero by done. eexists. split; [done|].
    apply Qabs_Qle_condition. lra.
Qed.

Lemma of_cents_hundredths (c : Z) :
  (SQL.of_cents c == inject_Z c * (1 # 100))%Q.
Proof. reflexivity. Qed.

Lemma of_cents_small (c : Z) :
  -999999999999999 <= c <= 999999999999999 →
  (Qabs (SQL.of_cents c) < 2 ^ 44)%Q.
Proof.
  intros Hc. rewrite of_cents_hundredths.
  rewrite Qpow2_Z by lia.
  apply Qabs_Qlt_condition.
  assert (inject_Z (-999999999999999) <= inject_Z c)%Q as H1
    by (rewrite <- Zle_Qle; lia).
  assert (inject_Z c <= inject_Z 999999999999999)%Q as H2
    by (rewrite <- Zle_Qle; lia).
  set (x := inject_Z c) in *.
  change (inject_Z (-999999999999999)) with (-999999999999999)%Q in H1.
  change (inject_Z 999999999999999) with 999999999999999%Q in H2.
  change (inject_Z (2 ^ 44)) with 17592186044416%Q.
  split; lra.
Qed.

Lemma in_cents_near (amount : Q) (cents : Z) :
  in_cents amount cents → (Qabs (amount - SQL.of_cents cents) <= 1 # 1024)%Q.
Proof.
  intros [Hc H].
  destruct (binary64_near (SQL.of_cents cents) (of_cents_small _ Hc))
    as (v & Hv & Hnear).
  rewrite Hv in H. by rewrite H.
Qed.

(** An amount within a thousandth of a number of cents is stored as that
    number of cents. *)
Lemma to_cents_near (a : Q) (c : Z) :
  (Qabs (a - SQL.of_cents c) <= 1 # 1024)%Q → SQL.to_cents a = c.
Proof.
  intros H. apply Qabs_Qle_condition in H. rewrite of_cents_hundredths in H.
  unfold SQL.to_cents, SQL.round_half_away.
  assert (a * 100 - inject_Z c <= 1 # 4)%Q as H1 by lra.
  assert (- (1 # 4) <= a * 100 - inject_Z c)%Q as H2 by lra.
  destruct (Qle_bool 0 (a * 100)).
  - apply Qfloor_unique; [lra|]. rewrite inject_Z_plus.
    change (inject_Z 1) with 1%Q. lra.
  - assert (Qfloor (- (a * 100) + (1 # 2)) = - c) as ->; [|lia].
    apply Qfloor_unique.
    + rewrite inject_Z_opp. lra.
    + rewrite inject_Z_plus, inject_Z_opp. change (inject_Z 1) with 1%Q. lra.
Qed.

Lemma minus_in_cents (x : option Z) (a : Q) (cents : Z) :
  in_cents a cents → SQL.minus x a = (λ b, b - cents) <$> x.
Proof.
  intros H%in_cents_near. unfold SQL.minus. destruct x as [b|]; [|done].
  cbn. f_equal. apply to_cents_near.
  apply Qabs_Qle_condition in H. apply Qabs_Qle_condition.
  rewrite !of_cents_hundredths in *. unfold Z.sub.
  rewrite inject_Z_plus, inject_Z_opp. split; lra.
Qed.

Lemma to_cents_in_cents (a : Q) (cents : Z) :
  in_cents a cents → SQL.to_cents a = cents.
Proof. intros H%in_cents_near. by apply to_cents_near. Qed.

Lemma binary_exponent_unique (q : Q) (E : Z) :
  (0 < q)%Q → (2 ^ E <= q)%Q → (q < 2 ^ (E + 1))%Q → JS.binary_exponent q = E.
Proof.
  intros Hq H1 H2. destruct (binary_exponent_spec q Hq) as [H3 H4].
  assert (2 ^ E < 2 ^ (JS.binary_exponent q + 1))%Q as Ha by lra.
  assert (2 ^ JS.binary_exponent q < 2 ^ (E + 1))%Q as Hb by lra.
  apply Qpower_lt_compat_l_inv in Ha; [|done].
  apply Qpower_lt_compat_l_inv in Hb; [|done]. lia.
Qed.

Lemma binary_exponent_proper (p q : Q) :
  (0 < p)%Q → (p == q)%Q → JS.binary_exponent p = JS.binary_exponent q.
Proof.
  intros Hp Heq. destruct (binary_exponent_spec p Hp) as [H1 H2].
  symmetry. apply binary_exponent_unique; lra.
Qed.

Lemma round_half_even_proper (p q : Q) :
  (p == q)%Q → JS.round_half_even p = JS.round_half_even q.
Proof.
  intros Heq. unfold JS.round_half_even.
  rewrite (Qfloor_comp _ _ Heq).
  assert ((p - inject_Z (Qfloor q) ?= 1 # 2)%Q
          = (q - inject_Z (Qfloor q) ?= 1 # 2)%Q) as ->; [|done].
  apply Qcompare_comp; [|done]. by rewrite Heq.
Qed.

Lemma rounded_proper (p q : Q) :
  (0 < p)%Q → (p == q)%Q → (rounded p == rounded q)%Q.
Proof.
  intros Hp Heq. unfold rounded. cbv zeta.
  rewrite (binary_exponent_proper p q Hp Heq).
  set (e := Z.max (JS.binary_exponent q - 52) (-1074)).
  rewrite (round_half_even_proper (p / 2 ^ e) (q / 2 ^ e)); [done|].
  by rewrite Heq.
Qed.

(** A multiple of [2^e] with at most 53 significant bits is kept. *)
Lemma rounded_fixed (m e : Z) :
  0 < m <= 2 ^ 53 → -1074 <= e →
  (rounded (inject_Z m * 2 ^ e) == inject_Z m * 2 ^ e)%Q.
Proof.
  intros Hm He.
  pose proof (Qpow2_pos e) as Hpe.
  assert (0 < inject_Z m)%Q as Hm0 by (rewrite <- (Zlt_Qlt 0); lia).
  assert (inject_Z m <= 2 ^ 53)%Q as Hm53.
  { rewrite Qpow2_Z by lia. rewrite <- Zle_Qle. lia. }
  set (v := (inject_Z m * 2 ^ e)%Q).
  assert (0 < v)%Q as Hv by (subst v; nra).
  destruct (binary_exponent_spec v Hv) as [H1 H2].
  unfold rounded. cbv zeta.
  set (E := JS.binary_exponent v) in *.
  set (ev := Z.max (E - 52) (-1074)).
  pose proof (Qpow2_pos ev) as Hpev.
  assert (v <= 2 ^ (e + 53))%Q as Hvle.
  { rewrite Qpow2_add. subst v. set (x := (2 ^ e)%Q) in *.
    set (y := (2 ^ 53)%Q) in *. nra. }
  assert (E <= e + 53) as HE.
  { assert (2 ^ E < 2 ^ (e + 53 + 1))%Q as H.
    { eapply Qle_lt_trans; [exact H1|]. eapply Qle_lt_trans; [exact Hvle|].
      apply Qpower_lt_compat_l; [lia|done]. }
    apply Qpower_lt_compat_l_inv in H; [lia|done]. }
  assert (∃ k, (v / 2 ^ ev == inject_Z k)%Q) as [k Hk].
  { destruct (decide (ev <= e)) as [Hle|Hgt].
    - exists (m * 2 ^ (e - ev)).
      rewrite inject_Z_mult, <- Qpow2_Z by lia.
      rewrite <- Qdiv_pow2. subst v. field. lra.
    - assert (E = e + 53) as HEeq by lia.
      assert (ev = e + 1) as Hev by lia.
      exists (2 ^ 52).
      assert (2 ^ (e + 53) <= v)%Q as Hge by (rewrite <- HEeq; exact H1).
      assert (v == 2 ^ (e + 53))%Q as Hveq by lra.
      rewrite Hveq, Hev, Qdiv_pow2, <- Qpow2_Z by lia.
      by replace (e + 53 - (e + 1)) with 52 by lia. }
  rewrite (round_half_even_proper _ _ Hk), round_half_even_Z.
  rewrite <- Hk. field. lra.
Qed.

Lemma rounded_idempotent (q : Q) :
  (0 < q)%Q → (0 < rounded q)%Q → (rounded (rounded q) == rounded q)%Q.
Proof.
  intros Hq Hpos. unfold rounded at 2 3. cbv zeta.
  destruct (binary_exponent_spec q Hq) as [H1 H2].
  set (E := JS.binary_exponent q) in *.
  set (e := Z.max (E - 52) (-1074)).
  set (m := JS.round_half_even (q / 2 ^ e)).
  pose proof (Qpow2_pos e) as Hpe.
  assert (inject_Z m * 2 ^ e <= 2 ^ (e + 53))%Q as Hle.
  { apply round_half_even_le_pow2; [lia|].
    apply Qle_trans with (2 ^ (E + 1))%Q; [lra|]. apply Qpow2_le. lia. }
  assert (0 < m) as Hm.
  { unfold rounded in Hpos. cbv zeta in Hpos. fold E e m in Hpos.
    destruct (decide (0 < m)) as [|Hn]; [done|]. exfalso.
    assert (inject_Z m <= inject_Z 0)%Q as H by (rewrite <- Zle_Qle; lia).
    change (inject_Z 0) with 0%Q in H. nra. }
  assert (m <= 2 ^ 53) as Hm53.
  { rewrite Qpow2_add in Hle.
    assert (inject_Z m <= 2 ^ 53)%Q as H.
    { set (x := (2 ^ e)%Q) in *. set (y := (2 ^ 53)%Q) in *.
      set (z := inject_Z m) in *. apply Qnot_lt_le. intros Hgt. nra. }
    rewrite Qpow2_Z in H by lia. rewrite <- Zle_Qle in H. done. }
  apply rounded_fixed; [lia|lia].
Qed.

Lemma binary64_proper (p q : Q) : (p == q)%Q → JS.binary64 p = JS.binary64 q.
Proof.
  intros Heq. destruct (Q_dec p 0) as [[Hneg|Hpos]|Hzero].
  - rewrite !binary64_negative by lra.
    assert (rounded (- p) == rounded (- q))%Q as Hr
      by (apply rounded_proper; lra).
    assert (Qle_bool (2 ^ 1024) (rounded (- p))
            = Qle_bool (2 ^ 1024) (rounded (- q))) as ->.
    { destruct (Qle_bool _ (rounded (- q))) eqn:E.
      - apply Qle_bool_iff. apply Qle_bool_iff in E. lra.
      - destruct (Qle_bool _ (rounded (- p))) eqn:E'; [|done].
        apply Qle_bool_iff in E'. rewrite Hr in E'.
        apply Qle_bool_iff in E'. congruence. }
    destruct (Qle_bool _ _); [done|]. f_equal.
    apply Qred_complete. by rewrite Hr.
  - rewrite !binary64_positive by lra.
    assert (rounded p == rounded q)%Q as Hr by (apply rounded_proper; lra).
    assert (Qle_bool (2 ^ 1024) (rounded p)
            = Qle_bool (2 ^ 1024) (rounded q)) as ->.
    { destruct (Qle_bool _ (rounded q)) eqn:E.
      - apply Qle_bool_iff. apply Qle_bool_iff in E. lra.
      - destruct (Qle_bool _ (rounded p)) eqn:E'; [|done].
        apply Qle_bool_iff in E'. rewrite Hr in E'.
        apply Qle_bool_iff in E'. congruence. }
    destruct (Qle_bool _ _); [done|]. f_equal.
    by apply Qred_complete.
  - rewrite !binary64_zero; [done|lra|done].
Qed.

(** A binary64 is rounded to itself. *)
Lemma binary64_idempotent (q v : Q) :
  JS.binary64 q = JS.Finite v → JS.binary64 v = JS.Finite v.
Proof.
  intros H. destruct (Q_dec q 0) as [[Hneg|Hpos]|Hzero].
  - rewrite binary64_negative in H by done.
    destruct (Qle_bool _ _) eqn:Hfin; [done|]. injection H as <-.
    assert (0 < - q)%Q as Hq by lra.
    pose proof (rounded_nonneg (- q) Hq) as Hnn.
    destruct (Qlt_le_dec 0 (rounded (- q))) as [Hr|Hr].
    + rewrite (binary64_proper _ (- rounded (- q))) by apply Qred_correct.
      rewrite binary64_negative by lra.
      assert (rounded (- - rounded (- q)) == rounded (- q))%Q as Heq.
      { rewrite (rounded_proper _ (rounded (- q))); [|lra|ring].
        by apply rounded_idempotent. }
      assert (Qle_bool (2 ^ 1024) (rounded (- - rounded (- q))) = false) as ->.
      { destruct (Qle_bool _ (rounded (- - _))) eqn:E; [|done].
        apply Qle_bool_iff in E. rewrite Heq in E.
        apply Qle_bool_iff in E. congruence. }
      f_equal. apply Qred_complete. by rewrite Heq.
    + assert (rounded (- q) == 0)%Q as Hz by lra.
      rewrite binary64_zero by (rewrite Qred_correct; lra).
      f_equal. symmetry. apply (Qred_complete _ 0). lra.
  - rewrite binary64_positive in H by done.
    destruct (Qle_bool _ _) eqn:Hfin; [done|]. injection H as <-.
    pose proof (rounded_nonneg q Hpos) as Hnn.
    destruct (Qlt_le_dec 0 (rounded q)) as [Hr|Hr].
    + rewrite (binary64_proper _ (rounded q)) by apply Qred_correct.
      rewrite binary64_positive by done.
      pose proof (rounded_idempotent q Hpos Hr) as Heq.
      assert (Qle_bool (2 ^ 1024) (rounded (rounded q)) = false) as ->.
      { destruct (Qle_bool _ (rounded (rounded _))) eqn:E; [|done].
        apply Qle_bool_iff in E. rewrite Heq in E.
        apply Qle_bool_iff in E. congruence. }
      f_equal. by apply Qred_complete.
    + assert (rounded q == 0)%Q as Hz by lra.
      rewrite binary64_zero by (rewrite Qred_correct; lra).
      f_equal. symmetry. by apply (Qred_complete _ 0).
  - rewrite binary64_zero in H by done. injection H as <-.
    by apply binary64_zero.
Qed.


Ltac unfold_driver :=
  unfold Payment.create, Payment.insert, Driver.pool_getConnection,
    Driver.conn_beginTransaction, Driver.conn_execute, Driver.conn_commit,
    Driver.conn_rollback, Driver.conn_release, Driver.pool_execute,
    Driver.pool_query, Driver.read, Driver.call, Driver.note, Driver.write,
    Driver.next_insert_id, try_finally, try_catch, bind, ret, throw in *.

Ltac case_fault H k w rt :=
  let F := fresh "F" in
  destruct (fault rt (k + length (log w))) eqn:F; cbn in F; rewrite ?F in H;
  cbn in H.

(** ** The insert *)

Lemma insert_payment_inr row d d' :
  SQL.insert_payment row d = inr d' ↔
  is_Some (customers d !! PaymentRow.customer_id row)
  ∧ (PaymentRow.payment_reference_id row
       ∉ (PaymentRow.payment_reference_id <$> payments d))
  ∧ d' = mkDatabase (customers d) (payments d ++ [row]) (payment_schedule d).
Proof.
  unfold SQL.insert_payment. split.
  - destruct (customers d !! _) eqn:E; [|discriminate].
    case_decide; [discriminate|]. intros [= <-]. eauto.
  - intros ([c Hc] & Hn & ->). rewrite Hc. by rewrite decide_False.
Qed.

Lemma insert_payment_inl row d :
  (∃ m, SQL.insert_payment row d = inl m) ↔
  customers d !! PaymentRow.customer_id row = None
  ∨ PaymentRow.payment_reference_id row
      ∈ (PaymentRow.payment_reference_id <$> payments d).
Proof.
  unfold SQL.insert_payment. split.
  - intros [m H]. destruct (customers d !! _); [|by left].
    case_decide; [by right|discriminate].
  - intros [H|H].
    + rewrite H. eauto.
    + destruct (customers d !! _); [|eauto]. rewrite decide_True by done. eauto.
Qed.

(** ** [Payment.create]: the two outcomes *)

Lemma create_Return rt paymentData w r w' :
  Payment.create rt paymentData w = (Return r, w') →
  steps_succeed rt paymentData w
  ∧ r = posted_record rt paymentData w
  ∧ w' = posted_world rt paymentData w.
Proof.
  intros H. unfold_driver. cbn in H.
  case_fault H 0%nat w rt; [discriminate|].
  case_fault H 1%nat w rt; [discriminate|].
  case_fault H 2%nat w rt; [discriminate|].
  destruct (SQL.insert_payment _ (committed w)) as [m|d] eqn:HI; cbn in H;
    [discriminate|].
  case_fault H 3%nat w rt; [discriminate|].
  case_fault H 4%nat w rt; [discriminate|].
  case_fault H 5%nat w rt; [discriminate|].
  apply insert_payment_inr in HI as (Hc & Hr & ->).
  injection H as <- <-. split; [|done].
  split; [|done].
  intros k Hk. do 6 (destruct k as [|k]; [done|]). lia.
Qed.

Lemma create_ok rt paymentData w :
  steps_succeed rt paymentData w →
  Payment.create rt paymentData w
  = (Return (posted_record rt paymentData w), posted_world rt paymentData w).
Proof.
  intros (Hf & Hc & Hr).
  assert (SQL.insert_payment (posted_row rt paymentData w) (committed w)
          = inr (mkDatabase (customers (committed w))
                   (payments (committed w) ++ [posted_row rt paymentData w])
                   (payment_schedule (committed w)))) as HI
    by (by apply insert_payment_inr).
  unfold posted_row in HI.
  pose proof (Hf 0%nat ltac:(lia)) as F0.
  pose proof (Hf 1%nat ltac:(lia)) as F1.
  pose proof (Hf 2%nat ltac:(lia)) as F2.
  pose proof (Hf 3%nat ltac:(lia)) as F3.
  pose proof (Hf 4%nat ltac:(lia)) as F4.
  pose proof (Hf 5%nat ltac:(lia)) as F5.
  cbn in F0, F1, F2, F3, F4, F5.
  unfold_driver. cbn.
  rewrite F0. cbn. rewrite F1. cbn. rewrite F2. cbn. rewrite HI. cbn.
  rewrite F3. cbn. rewrite F4. cbn. rewrite F5. done.
Qed.

Lemma steps_succeed_not_fails rt paymentData w :
  steps_succeed rt paymentData w → ¬ step_fails rt paymentData w.
Proof.
  intros (Hf & Hc & Hr). unfold step_fails, faulty, insert_rejected.
  pose proof (Hf 1%nat ltac:(lia)). pose proof (Hf 2%nat ltac:(lia)).
  pose proof (Hf 3%nat ltac:(lia)). pose proof (Hf 4%nat ltac:(lia)).
  pose proof (Hf 5%nat ltac:(lia)).
  cbn in *. destruct Hc as [? Hc].
  intros [[]|[[]|[[|]|[[]|[[]|[]]]]]]; congruence.
Qed.

(** An invocation that throws either failed to obtain a connection, and
    then did nothing else, or had a failing step, rolled back and released
    the connection.  In both cases the committed database is the one it
    started from. *)
Lemma create_Throw rt paymentData w e w' :
  Payment.create rt paymentData w = (Throw e, w') →
  committed w' = committed w
  ∧ ((fault rt (length (log w)) = Some (JS.message e)
      ∧ txn w' = txn w ∧ log w' = GetConnection :: log w)
     ∨ (fault rt (length (log w)) = None
        ∧ step_fails rt paymentData w
        ∧ txn w' = None
        ∧ (∃ m, e = JS.new_Error ("Error creating payment: " +:+ m))
        ∧ ∃ l, log w' = Release :: Rollback :: l)).
Proof.
  intros H. unfold_driver. cbn in H.
  unfold step_fails, faulty, insert_rejected. cbn.
  case_fault H 0%nat w rt.
  { injection H as <- <-. cbn. split; [done|]. left. eauto. }
  case_fault H 1%nat w rt.
  { injection H as <- <-. cbn. split; [done|]. right. rewrite F0.
    split_and!; eauto. }
  case_fault H 2%nat w rt.
  { injection H as <- <-. cbn. split; [done|]. right. rewrite F1.
    split_and!; eauto 10. }
  destruct (SQL.insert_payment _ (committed w)) as [m|d] eqn:HI; cbn in H.
  { injection H as <- <-. cbn. split; [done|]. right.
    assert (∃ m, SQL.insert_payment
                   (posted_row rt paymentData w) (committed w) = inl m) as HI'
      by eauto.
    apply insert_payment_inl in HI'. cbn in HI'.
    split_and!; eauto 10. }
  case_fault H 3%nat w rt.
  { injection H as <- <-. cbn. split; [done|]. right. rewrite F2.
    split_and!; eauto 10. }
  case_fault H 4%nat w rt.
  { injection H as <- <-. cbn. split; [done|]. right. rewrite F3.
    split_and!; eauto 10. }
  case_fault H 5%nat w rt; [|discriminate].
  injection H as <- <-. cbn. split; [done|]. right. rewrite F4.
  split_and!; eauto 10.
Qed.

(** ** Atomicity *)

(** C1.  Atomicity of posting.  Once the connection is obtained, if any
    step of [Payment.create] fails (a storage error when the transaction
    begins, at the insert, at the balance update, at the schedule update
    or at the commit, or a constraint the insert violates), the
    invocation throws an error that carries the message of the failure,
    the committed database (payments, customers, payment_schedule) is
    exactly what it was, the transaction is closed, and the last two
    driver calls are the rollback and the release of the connection. *)
Theorem create_atomic rt paymentData w :
  fault rt (length (log w)) = None →
  step_fails rt paymentData w →
  ∃ e w',
    Payment.create rt paymentData w = (Throw e, w')
    ∧ committed w' = committed w
    ∧ txn w' = None
    ∧ (∃ m, e = JS.new_Error ("Error creating payment: " +:+ m))
    ∧ ∃ l, log w' = Release :: Rollback :: l.
Proof.
  intros Hconn Hfail.
  destruct (Payment.create rt paymentData w) as [[r|e] w'] eqn:H.
  - apply create_Return in H as (Hok & _).
    by apply steps_succeed_not_fails in Hok.
  - exists e, w'. split; [done|].
    apply create_Throw in H as (Hc & [(Hf & _)|(_ & _ & Ht & Hm & Hl)]).
    + congruence.
    + done.
Qed.

Lemma create_atomic_witness :
  ∃ e w',
    Payment.create Sample.first_runtime Sample.orphan_posting Sample.world
    = (Throw e, w')
    ∧ committed w' = committed Sample.world
    ∧ txn w' = None
    ∧ (∃ m, e = JS.new_Error ("Error creating payment: " +:+ m))
    ∧ ∃ l, log w' = Release :: Rollback :: l.
Proof.
  apply create_atomic.
  - reflexivity.
  - right. right. left. left. reflexivity.
Defined.

(** Every invocation commits the whole posting or nothing. *)
Lemma create_all_or_nothing rt paymentData w :
  let w' := (Payment.create rt paymentData w).2 in
  committed w' = committed w
  ∨ committed w' = posted_database rt paymentData w.
Proof.
  destruct (Payment.create rt paymentData w) as [[r|e] w'] eqn:H; cbn.
  - apply create_Return in H as (_ & _ & ->). by right.
  - apply create_Throw in H as (Hc & _). by left.
Qed.

(** ** The three statements of the transaction *)

Lemma update_schedule_customers a cid d :
  customers (SQL.update_schedule a cid d) = customers d.
Proof. unfold SQL.update_schedule. by repeat case_match. Qed.

Lemma update_schedule_payments a cid d :
  payments (SQL.update_schedule a cid d) = payments d.
Proof. unfold SQL.update_schedule. by repeat case_match. Qed.

Lemma posted_customers rt paymentData w :
  customers (posted_database rt paymentData w)
  = alter (SQL.decrement_balance (PaymentData.payment_amount paymentData))
      (PaymentData.customer_id paymentData) (customers (committed w)).
Proof. unfold posted_database. by rewrite update_schedule_customers. Qed.


Lemma posted_payments rt paymentData w :
  payments (posted_database rt paymentData w)
  = payments (committed w) ++ [posted_row rt paymentData w].
Proof. unfold posted_database. by rewrite update_schedule_payments. Qed.

(** The schedule update touches the first pending entry of the customer in
    scan order, or nothing when there is none. *)
Lemma update_schedule_spec a cid d :
  (∃ k r,
      payment_schedule d !! k = Some r
      ∧ ScheduleRow.customer_id r = cid
      ∧ ScheduleRow.status r = SCHEDULE_PENDING
      ∧ payment_schedule (SQL.update_schedule a cid d)
        = <[k := SQL.mark_paid a r]> (payment_schedule d))
  ∨ ((∀ k r, payment_schedule d !! k = Some r →
             ¬ (ScheduleRow.customer_id r = cid
                ∧ ScheduleRow.status r = SCHEDULE_PENDING))
     ∧ SQL.update_schedule a cid d = d).
Proof.
  unfold SQL.update_schedule.
  destruct (list_find _ _) as [[i [k r]]|] eqn:E.
  - left. apply list_find_Some in E as (Hi & [Hc Hs] & _).
    apply list_elem_of_lookup_2, elem_of_map_to_list in Hi.
    exists k, r. by split_and!.
  - right. split; [|done]. intros k r Hk HP.
    apply list_find_None in E. rewrite Forall_forall in E.
    apply (E (k, r)); [by apply elem_of_map_to_list|done].
Qed.

(** ** Fixed-point arithmetic *)

Lemma Qfloor_plus_half (c : Z) : Qfloor (inject_Z c + (1 # 2)) = c.
Proof.
  unfold Qfloor, Qplus, inject_Z. cbn.
  symmetry. apply (Z.div_unique_pos _ _ _ 1); lia.
Qed.

Global Instance round_half_away_proper : Proper (Qeq ==> eq) SQL.round_half_away.
Proof.
  intros p q Hpq. unfold SQL.round_half_away.
  assert (Qle_bool 0 p = Qle_bool 0 q) as ->.
  { apply eq_true_iff_eq. rewrite !Qle_bool_iff. by rewrite Hpq. }
  destruct (Qle_bool 0 q).
  - apply Qfloor_comp. by rewrite Hpq.
  - f_equal. apply Qfloor_comp. by rewrite Hpq.
Qed.

Global Instance to_cents_proper : Proper (Qeq ==> eq) SQL.to_cents.
Proof. intros p q Hpq. unfold SQL.to_cents. by rewrite Hpq. Qed.

Lemma round_half_away_Z (c : Z) : SQL.round_half_away (inject_Z c) = c.
Proof.
  unfold SQL.round_half_away.
  destruct (Qle_bool 0 (inject_Z c)) eqn:E.
  - apply Qfloor_plus_half.
  - change (- inject_Z c)%Q with (inject_Z (- c)).
    rewrite Qfloor_plus_half. lia.
Qed.

Lemma to_cents_of_cents (c : Z) : SQL.to_cents (SQL.of_cents c) = c.
Proof.
  unfold SQL.to_cents, SQL.of_cents.
  assert (inject_Z c / 100 * 100 == inject_Z c)%Q as -> by field.
  apply round_half_away_Z.
Qed.

(** An amount that is a whole number of cents is subtracted and added
    exactly. *)
Lemma minus_whole_cents x a cents :
  (a == SQL.of_cents cents)%Q → SQL.minus x a = (λ b, b - cents) <$> x.
Proof.
  intros Ha. unfold SQL.minus. destruct x as [b|]; [|done]. cbn. f_equal.
  rewrite <- (to_cents_of_cents (b - cents)). apply to_cents_proper.
  rewrite Ha. unfold SQL.of_cents, Z.sub.
  rewrite inject_Z_plus, inject_Z_opp. field.
Qed.


(** ** Balance conservation *)

(** The balance a posting leaves, for any amount: the old one minus the
    amount, stored back with two decimals. *)
Lemma create_balance rt paymentData w r w' c :
  Payment.create rt paymentData w = (Return r, w') →
  customers (committed w) !! PaymentData.customer_id paymentData = Some c →
  customers (committed w') !! PaymentData.customer_id paymentData
  = Some (SQL.decrement_balance (PaymentData.payment_amount paymentData) c).
Proof.
  intros H Hc. apply create_Return in H as (_ & _ & ->).
  cbn [committed posted_world]. rewrite posted_customers.
  by rewrite lookup_alter_eq, Hc.
Qed.

(** C2 (as amended).  Balance conservation.  After a successful posting
    of an amount of at most two decimals, the number written
    [cents / 100], against the customer [customer_id] whose outstanding
    balance was [b] cents, the customers table is the old one with the
    single row of key [customer_id] changed by
    [outstanding_balance - amount]: the customer's balance is exactly
    [b - cents], its other columns are unchanged, every other customer's
    row is unchanged, the balance update ran once, inside the
    transaction, and the payment row records the same [cents]. *)
Theorem create_decrements_balance rt paymentData w r w' c b cents :
  Payment.create rt paymentData w = (Return r, w') →
  customers (committed w) !! PaymentData.customer_id paymentData = Some c →
  CustomerRow.outstanding_balance c = Some b →
  in_cents (PaymentData.payment_amount paymentData) cents →
  customers (committed w')
  = alter (SQL.decrement_balance (PaymentData.payment_amount paymentData))
      (PaymentData.customer_id paymentData) (customers (committed w))
  ∧ customers (committed w') !! PaymentData.customer_id paymentData
    = Some (CustomerRow.mk (CustomerRow.account_number c)
              (CustomerRow.customer_name c) (CustomerRow.emi_due c)
              (Some (b - cents))
              (CustomerRow.status c) (CustomerRow.created_at c))
  ∧ (∀ k, k ≠ PaymentData.customer_id paymentData →
          customers (committed w') !! k = customers (committed w) !! k)
  ∧ log w'
    = Release :: Commit :: Execute UPDATE_payment_schedule
      :: Execute UPDATE_customer_balance :: Execute INSERT_payment
      :: BeginTransaction :: GetConnection :: log w
  ∧ PaymentRow.payment_amount <$> payments (committed w')
    = (PaymentRow.payment_amount <$> payments (committed w)) ++ [cents].
Proof.
  intros H Hc Hb Hcents. apply create_Return in H as (_ & _ & ->).
  cbn [committed posted_world log]. rewrite posted_customers, posted_payments.
  split_and!; [done| | |done|].
  - rewrite lookup_alter_eq, Hc. cbn. unfold SQL.decrement_balance.
    by rewrite (minus_in_cents _ _ cents Hcents), Hb.
  - intros k Hk. by rewrite lookup_alter_ne.
  - rewrite fmap_app. cbn. by rewrite (to_cents_in_cents _ cents Hcents).
Qed.

Lemma create_decrements_balance_witness :
  let w' := posted_world Sample.first_runtime Sample.precise_posting
              Sample.world in
  in_cents (PaymentData.payment_amount Sample.precise_posting) 123499
  ∧ customers (committed w')
    = alter (SQL.decrement_balance (number (123499 # 100))) 1
        (customers (committed Sample.world))
  ∧ customers (committed w') !! 1
    = Some (CustomerRow.mk "ACC001" "Rahul Kumar" 500000
              (Some (15000000 - 123499)) ACTIVE 0)
  ∧ (∀ k, k ≠ 1 →
          customers (committed w') !! k = customers (committed Sample.world) !! k)
  ∧ log w'
    = Release :: Commit :: Execute UPDATE_payment_schedule
      :: Execute UPDATE_customer_balance :: Execute INSERT_payment
      :: BeginTransaction :: GetConnection :: log Sample.world
  ∧ PaymentRow.payment_amount <$> payments (committed w') = [] ++ [123499].
Proof.
  assert (in_cents (PaymentData.payment_amount Sample.precise_posting) 123499)
    as Hcents.
  { split; [lia|]. vm_compute. reflexivity. }
  split; [exact Hcents|].
  apply (create_decrements_balance Sample.first_runtime Sample.precise_posting
           Sample.world
           (posted_record Sample.first_runtime Sample.precise_posting
              Sample.world)
           (posted_world Sample.first_runtime Sample.precise_posting
              Sample.world)
           Sample.rahul 15000000 123499).
  - vm_compute. reflexivity.
  - reflexivity.
  - reflexivity.
  - exact Hcents.
Defined.

(** Postings in sequence: [n] successful postings of the same amount, a
    whole number of cents, against one customer take [n] times the amount
    off the balance and add [n] rows to [payments]. *)
Lemma successive_postings_balance w l w' customer_id cents :
  posted_in_sequence w l w' →
  Forall (λ p, PaymentData.customer_id p.2 = customer_id
               ∧ (PaymentData.payment_amount p.2 == SQL.of_cents cents)%Q) l →
  ∀ c b,
    customers (committed w) !! customer_id = Some c →
    CustomerRow.outstanding_balance c = Some b →
    CustomerRow.outstanding_balance <$> customers (committed w') !! customer_id
    = Some (Some (b - Z.of_nat (length l) * cents))
    ∧ length (payments (committed w'))
      = (length (payments (committed w)) + length l)%nat.
Proof.
  induction 1 as [w|w rt paymentData r w1 l w2 H _ IH]; intros Hl c b Hc Hb.
  - rewrite Hc. cbn. rewrite Hb, Nat.add_0_r. split; [|done].
    do 2 f_equal. lia.
  - apply Forall_cons in Hl as [[Hid Hcents] Hl]. cbn in Hid, Hcents.
    rewrite <- Hid in Hc.
    pose proof (create_balance _ _ _ _ _ _ H Hc) as Hc1.
    rewrite Hid in Hc1.
    apply create_Return in H as (_ & _ & ->).
    destruct (IH Hl _ (b - cents) Hc1) as [Hb2 Hn].
    { cbn. by rewrite (minus_whole_cents _ _ cents Hcents), Hb. }
    rewrite Hb2, Hn. cbn [committed posted_world].
    rewrite posted_payments, length_app. cbn [length]. split; [|lia].
    do 2 f_equal. lia.
Qed.

(** C2, counterexample.  The number 0.125, an eighth, is a binary64 and
    passes the checks of the validation and of
    [PaymentService.processPayment].  A posting of it against a balance of
    150000.00 succeeds; it stores a payment of 0.13 and leaves a balance
    of 149999.88, which is not 150000.00 - 0.125 and is 0.12, not 0.13,
    below the old balance. *)
Lemma subcent_posting_drifts :
  let w' := posted_world Sample.first_runtime Sample.subcent_posting Sample.world in
  JS.binary64 (1 # 8) = JS.Finite (1 # 8)
  ∧ Validator.isFloat (JS.binary64 (1 # 100)) "0.125" = true
  ∧ Payment.create Sample.first_runtime Sample.subcent_posting Sample.world
    = (Return (posted_record Sample.first_runtime Sample.subcent_posting
                 Sample.world), w')
  ∧ CustomerRow.outstanding_balance <$> customers (committed w') !! 1
    = Some (Some 14999988)
  ∧ Qeq_bool (SQL.of_cents 14999988) (SQL.of_cents 15000000 - (1 # 8)) = false
  ∧ PaymentRow.payment_amount <$> payments (committed w') = [13]
  ∧ ∃ result w'',
      PaymentService.processPayment Sample.first_runtime
        (PaymentRequest.mk "ACC001" (1 # 8) None None None) Sample.world
      = (Return result, w'')
      ∧ CustomerSummary.outstanding_balance (ProcessedPayment.customer result)
        = Some 14999988.
Proof.
  split_and!; try (vm_compute; reflexivity).
  eexists _, _. split; vm_compute; reflexivity.
Qed.

(** ** Reading a payment back *)

Lemma filter_none {A} (P : A → Prop) `{∀ x, Decision (P x)} (l : list A) :
  Forall (λ x, ¬ P x) l → filter P l = [].
Proof.
  induction 1 as [|x l Hx _ IH]; [done|]. by rewrite filter_cons_False.
Qed.

Lemma payments_by_reference_id_posted rt paymentData w :
  Payment.payment_reference rt
    ∉ (PaymentRow.payment_reference_id <$> payments (committed w)) →
  SQL.payments_by_reference_id (Payment.payment_reference rt)
    (posted_database rt paymentData w)
  = [posted_row rt paymentData w].
Proof.
  intros Hfresh. unfold SQL.payments_by_reference_id.
  rewrite posted_payments, filter_app.
  rewrite (filter_none _ (payments (committed w))).
  - rewrite app_nil_l. by rewrite filter_cons_True.
  - apply Forall_forall. intros p Hp Heq. apply Hfresh.
    rewrite <- Heq. apply list_elem_of_fmap. eauto.
Qed.

(** C6 (as amended).  Read-after-write round trip.  A successful posting
    returns a record with status SUCCESS, and [findByReferenceId] on the
    returned reference, run right after it (and not hit by a storage
    error), gives back one row: the row the posting inserted.  Its method
    is the one submitted and returned, its status is SUCCESS, and its
    amount is the amount submitted and returned, stored with two
    decimals: for an amount of at most two decimals, the number written
    [cents / 100], the row holds [cents], which read back as a number is
    the amount submitted and returned. *)
Theorem create_then_findByReferenceId rt paymentData w r w' rt' :
  Payment.create rt paymentData w = (Return r, w') →
  fault rt' (length (log w')) = None →
  PaymentRecord.status r = SUCCESS
  ∧ ∃ row w'',
      Payment.findByReferenceId rt' (PaymentRecord.payment_reference_id r) w'
      = (Return (Some row), w'')
      ∧ committed w'' = committed w'
      ∧ row = posted_row rt paymentData w
      ∧ PaymentRecord.payment_amount r = PaymentData.payment_amount paymentData
      ∧ PaymentRow.payment_amount row
        = SQL.to_cents (PaymentData.payment_amount paymentData)
      ∧ (∀ cents,
            in_cents (PaymentData.payment_amount paymentData) cents →
            PaymentRow.payment_amount row = cents
            ∧ in_cents (PaymentRecord.payment_amount r)
                (PaymentRow.payment_amount row))
      ∧ PaymentRow.payment_method row
        = default UPI (PaymentData.payment_method paymentData)
      ∧ PaymentRow.payment_method row = PaymentRecord.payment_method r
      ∧ PaymentRow.status row = SUCCESS
      ∧ PaymentRow.status row = PaymentRecord.status r.
Proof.
  intros H Hf. apply create_Return in H as ((_ & _ & Hfresh) & -> & ->).
  split; [done|]. cbn in Hf.
  exists (posted_row rt paymentData w).
  unfold Payment.findByReferenceId. unfold_driver. cbn. rewrite Hf. cbn.
  rewrite payments_by_reference_id_posted by done. cbn.
  eexists. split_and!; try done.
  intros cents Hcents. cbn.
  by rewrite (to_cents_in_cents _ cents Hcents).
Qed.

Lemma create_then_findByReferenceId_witness :
  in_cents (PaymentData.payment_amount Sample.precise_posting) 123499
  ∧ PaymentRecord.status
      (posted_record Sample.first_runtime Sample.precise_posting Sample.world)
    = SUCCESS
  ∧ ∃ row w'',
      Payment.findByReferenceId Sample.second_runtime
        "PAY-1700000000000-deadbeef"
        (posted_world Sample.first_runtime Sample.precise_posting Sample.world)
      = (Return (Some row), w'')
      ∧ PaymentRow.payment_amount row = 123499
      ∧ PaymentRow.payment_method row = UPI
      ∧ PaymentRow.status row = SUCCESS.
Proof.
  assert (in_cents (PaymentData.payment_amount Sample.precise_posting) 123499)
    as Hcents.
  { split; [lia|]. vm_compute. reflexivity. }
  split; [exact Hcents|].
  destruct (create_then_findByReferenceId Sample.first_runtime
              Sample.precise_posting Sample.world
              (posted_record Sample.first_runtime Sample.precise_posting
                 Sample.world)
              (posted_world Sample.first_runtime Sample.precise_posting
                 Sample.world)
              Sample.second_runtime)
    as (Hs & row & w'' & Hfind & _ & _ & _ & _ & Ha & Hm & _ & Hst & _).
  - vm_compute. reflexivity.
  - reflexivity.
  - split; [exact Hs|]. exists row, w''.
    split; [exact Hfind|]. split; [|split; [exact Hm|exact Hst]].
    exact (proj1 (Ha 123499 Hcents)).
Defined.

(** C6, counterexample.  A posting of 0.125, an eighth, returns a record
    with amount 0.125; the row read back by its reference has amount
    0.13. *)
Lemma subcent_posting_read_back :
  let r := posted_record Sample.first_runtime Sample.subcent_posting Sample.world in
  let w' := posted_world Sample.first_runtime Sample.subcent_posting Sample.world in
  JS.binary64 (1 # 8) = JS.Finite (1 # 8)
  ∧ Payment.create Sample.first_runtime Sample.subcent_posting Sample.world
    = (Return r, w')
  ∧ PaymentRecord.payment_amount r = (1 # 8)%Q
  ∧ (∃ row w'',
        Payment.findByReferenceId Sample.second_runtime
          (PaymentRecord.payment_reference_id r) w' = (Return (Some row), w'')
        ∧ PaymentRow.payment_amount row = 13)
  ∧ Qeq_bool (SQL.of_cents 13) (1 # 8) = false.
Proof.
  split_and!; try (vm_compute; reflexivity).
  eexists _, _. split; vm_compute; reflexivity.
Qed.

(** ** The schedule side effect *)

Lemma steps_succeed_with_schedule rt paymentData w s :
  steps_succeed rt paymentData w →
  steps_succeed rt paymentData (with_schedule s w).
Proof. done. Qed.



(** ** Payment references *)

Lemma v4_prefix r :
  String.substring 0 8 (Uuid.v4 r) = Uuid.hex_of (take 4 (Uuid.rnds r)).
Proof.
  unfold Uuid.v4, Uuid.stringify, Uuid.rnds.
  change (seqZ 0 16) with [0;1;2;3;4;5;6;7;8;9;10;11;12;13;14;15].
  cbn [fmap list_fmap alter list_alter take drop Uuid.hex_of foldr].
  unfold Uuid.byte_to_hex. cbv [String.append]. reflexivity.
Qed.

Lemma hex_digit_is_hex n : is_hex_digit (Uuid.hex_digit n).
Proof.
  unfold is_hex_digit, Uuid.hex_digit. apply list_elem_of_In.
  destruct (nth_in_or_default (Z.to_nat n)
              (list_ascii_of_string "0123456789abcdef") "0"%char) as [H| ->].
  - exact H.
  - cbn. tauto.
Qed.

Lemma random_suffix_hex rt :
  String.length (random_suffix rt) = 8%nat
  ∧ Forall is_hex_digit (list_ascii_of_string (random_suffix rt)).
Proof.
  unfold random_suffix, Uuid.rnds.
  change (seqZ 0 16) with [0;1;2;3;4;5;6;7;8;9;10;11;12;13;14;15].
  cbn [fmap list_fmap take Uuid.hex_of foldr].
  unfold Uuid.byte_to_hex. cbv [String.append].
  split; [reflexivity|].
  cbn [list_ascii_of_string].
  repeat (apply Forall_cons_2; [apply hex_digit_is_hex|]). apply Forall_nil_2.
Qed.

Lemma payment_reference_format rt :
  Payment.payment_reference rt
  = "PAY-" +:+ pretty (Date_now rt) +:+ "-" +:+ random_suffix rt.
Proof. unfold Payment.payment_reference, random_suffix. by rewrite v4_prefix. Qed.

(** C4.  Payment reference generation.  The reference a posting returns
    is [PAY-], the decimal digits of the millisecond clock reading, a
    dash, and eight lowercase hexadecimal digits, which are the first
    eight characters of the version-4 UUID built from the 128 random bits
    (their top 32 bits).  Two successive successful postings, for any
    customers, return distinct references. *)
Theorem successive_references_distinct rt1 paymentData1 w r1 w1
    rt2 paymentData2 r2 w2 :
  Payment.create rt1 paymentData1 w = (Return r1, w1) →
  Payment.create rt2 paymentData2 w1 = (Return r2, w2) →
  PaymentRecord.payment_reference_id r1
  = "PAY-" +:+ pretty (Date_now rt1) +:+ "-" +:+ random_suffix rt1
  ∧ PaymentRecord.payment_reference_id r2
    = "PAY-" +:+ pretty (Date_now rt2) +:+ "-" +:+ random_suffix rt2
  ∧ (∀ rt, random_suffix rt = String.substring 0 8 (Uuid.v4 (random128 rt))
           ∧ String.length (random_suffix rt) = 8%nat
           ∧ Forall is_hex_digit (list_ascii_of_string (random_suffix rt)))
  ∧ PaymentRecord.payment_reference_id r1 ≠ PaymentRecord.payment_reference_id r2.
Proof.
  intros H1 H2.
  apply create_Return in H1 as (_ & -> & ->).
  apply create_Return in H2 as ((_ & _ & Hfresh) & -> & _).
  cbn [PaymentRecord.payment_reference_id posted_record].
  rewrite <- !payment_reference_format. split_and!; [done..| |].
  - intros rt. unfold random_suffix at 1. rewrite v4_prefix.
    split; [done|]. apply random_suffix_hex.
  - intros Heq. apply Hfresh.
    cbn [committed posted_world]. rewrite posted_payments, fmap_app.
    cbn. rewrite Heq. set_solver.
Qed.

Lemma successive_references_distinct_witness :
  let w1 := posted_world Sample.first_runtime Sample.posting Sample.world in
  PaymentRecord.payment_reference_id
    (posted_record Sample.first_runtime Sample.posting Sample.world)
  = "PAY-1700000000000-deadbeef"
  ∧ PaymentRecord.payment_reference_id
      (posted_record Sample.second_runtime Sample.posting w1)
    = "PAY-1700000002000-0badcafe"
  ∧ PaymentRecord.payment_reference_id
      (posted_record Sample.first_runtime Sample.posting Sample.world)
    ≠ PaymentRecord.payment_reference_id
        (posted_record Sample.second_runtime Sample.posting w1).
Proof.
  intros w1.
  destruct (successive_references_distinct
              Sample.first_runtime Sample.posting Sample.world
              (posted_record Sample.first_runtime Sample.posting Sample.world)
              w1
              Sample.second_runtime Sample.posting
              (posted_record Sample.second_runtime Sample.posting w1)
              (posted_world Sample.second_runtime Sample.posting w1))
    as (_ & _ & _ & Hne).
  - vm_compute. reflexivity.
  - vm_compute. reflexivity.
  - split; [vm_compute; reflexivity|]. split; [vm_compute; reflexivity|].
    exact Hne.
Defined.

(** A posting that collides with a stored reference is refused by the
    unique index: it throws and commits nothing. *)
Lemma colliding_reference_rejected rt paymentData w :
  fault rt (length (log w)) = None →
  Payment.payment_reference rt
    ∈ (PaymentRow.payment_reference_id <$> payments (committed w)) →
  ∃ e w', Payment.create rt paymentData w = (Throw e, w')
          ∧ committed w' = committed w.
Proof.
  intros Hconn Hdup.
  destruct (Payment.create rt paymentData w) as [[r|e] w'] eqn:H.
  - by apply create_Return in H as ((_ & _ & Hfresh) & _).
  - apply create_Throw in H as (Hc & _). eauto.
Qed.

(** ** Validation by the caller *)

Lemma Customer_findByAccountNumber_Return rt accountNumber w found w1 :
  Customer.findByAccountNumber rt accountNumber w = (Return found, w1) →
  w1 = mkWorld (committed w) (txn w) (auto_increment w)
         (PoolExecute SELECT_customer_by_account_number :: log w)
  ∧ found = head (filter (Customer.has_account_number accountNumber)
                    (map_to_list (customers (committed w)))).
Proof.
  unfold Customer.findByAccountNumber. unfold_driver. cbn.
  destruct (fault rt (length (log w))); cbn; [discriminate|].
  by intros [= <- <-].
Qed.

(** C5.  Caller-side validation before the atomic core.  When the lookup
    of the account number returns no customer, [processPayment] throws
    "Customer not found" with status 404; when it returns a customer and
    the amount is not positive, or is greater than the customer's
    outstanding balance (the two compared as numbers: the balance, a
    decimal, is the binary64 nearest to it), it throws with status 400.
    In the three cases the only driver call made is the lookup:
    [Payment.create] is not invoked (it would ask the pool for a
    connection), and the database, the connection and the insert counter
    are what they were. *)
Theorem processPayment_rejects rt paymentData w found w1 :
  Customer.findByAccountNumber rt
    (PaymentRequest.account_number paymentData) w = (Return found, w1) →
  (found = None
   ∨ (PaymentRequest.payment_amount paymentData <= 0)%Q
   ∨ ∃ customer, found = Some customer
       ∧ JS.le (JS.binary64 (PaymentRequest.payment_amount paymentData))
           (JS.binary64
              (SQL.of_cents
                 (default 0%Z (CustomerRow.outstanding_balance customer.2))))
         = false) →
  PaymentService.processPayment rt paymentData w
  = (Throw (rejection found (PaymentRequest.payment_amount paymentData)), w1)
  ∧ JS.status (rejection found (PaymentRequest.payment_amount paymentData))
    = Some (match found with None => 404 | Some _ => 400 end)
  ∧ committed w1 = committed w
  ∧ txn w1 = txn w
  ∧ auto_increment w1 = auto_increment w
  ∧ log w1 = PoolExecute SELECT_customer_by_account_number :: log w.
Proof.
  intros H Hrej.
  pose proof (Customer_findByAccountNumber_Return _ _ _ _ _ H) as [Hw _].
  split_and!; try (by rewrite Hw).
  - unfold PaymentService.processPayment.
    unfold try_catch at 1. unfold bind at 1. rewrite H.
    unfold rejection, PaymentService.exceeds.
    destruct found as [customer|]; [|done].
    destruct Hrej as [?|[Hle|(c & [= <-] & Hlt)]]; [done| |].
    + apply Qle_bool_iff in Hle. by rewrite Hle.
    + destruct (Qle_bool _ 0) eqn:E; [done|]. by rewrite Hlt.
  - unfold rejection. destruct found; [|done]. by case_match.
Qed.

Lemma processPayment_rejects_witness :
  (∃ w1, PaymentService.processPayment Sample.first_runtime
           (PaymentRequest.mk "NONEXISTENT" 5000 (Some UPI) None None)
           Sample.world
         = (Throw (JS.mkError "Customer not found" (Some 404)), w1)
         ∧ committed w1 = committed Sample.world)
  ∧ (∃ w1, PaymentService.processPayment Sample.first_runtime
             (PaymentRequest.mk "ACC001" (-100) (Some UPI) None None)
             Sample.world
           = (Throw (JS.mkError "Payment amount must be greater than 0"
                       (Some 400)), w1)
           ∧ committed w1 = committed Sample.world)
  ∧ (∃ w1, PaymentService.processPayment Sample.first_runtime
             (PaymentRequest.mk "ACC001" (15000001 # 100) (Some UPI) None None)
             Sample.world
           = (Throw (JS.mkError "Payment amount exceeds outstanding balance"
                       (Some 400)), w1)
           ∧ committed w1 = committed Sample.world).
Proof.
  pose (w1 := mkWorld (committed Sample.world) None 1
                [PoolExecute SELECT_customer_by_account_number]).
  split_and!.
  - destruct (processPayment_rejects Sample.first_runtime
                (PaymentRequest.mk "NONEXISTENT" 5000 (Some UPI) None None)
                Sample.world None w1) as (H & _ & Hc & _).
    + vm_compute. reflexivity.
    + left. reflexivity.
    + exists w1. split; [exact H|exact Hc].
  - destruct (processPayment_rejects Sample.first_runtime
                (PaymentRequest.mk "ACC001" (-100) (Some UPI) None None)
                Sample.world (Some (1, Sample.rahul)) w1) as (H & _ & Hc & _).
    + vm_compute. reflexivity.
    + right. left. vm_compute. discriminate.
    + exists w1. split; [exact H|exact Hc].
  - destruct (processPayment_rejects Sample.first_runtime
                (PaymentRequest.mk "ACC001" (15000001 # 100) (Some UPI) None None)
                Sample.world (Some (1, Sample.rahul)) w1) as (H & _ & Hc & _).
    + vm_compute. reflexivity.
    + right. right. exists (1, Sample.rahul). split; [reflexivity|].
      vm_compute. reflexivity.
    + exists w1. split; [exact H|exact Hc].
Defined.

(** ** History ordering *)

Section OrderByDate.
Context {A : Type} (date : A → Z).

Global Instance later_first_transitive : Transitive (SQL.later_first date).
Proof. unfold SQL.later_first. intros x y z ??. lia. Qed.

Global Instance later_first_total : Total (SQL.later_first date).
Proof. unfold SQL.later_first. intros x y. lia. Qed.

Lemma order_by_date_desc_sorted (rows : list A) :
  StronglySorted (SQL.later_first date) (SQL.order_by_date_desc date rows).
Proof. apply StronglySorted_merge_sort; apply _. Qed.


Lemma sorted_take n (rows : list A) :
  StronglySorted (SQL.later_first date) rows →
  StronglySorted (SQL.later_first date) (take n rows).
Proof.
  intros H. rewrite <- (take_drop n rows) in H.
  by apply StronglySorted_app_1_l in H.
Qed.

Lemma sorted_drop n (rows : list A) :
  StronglySorted (SQL.later_first date) rows →
  StronglySorted (SQL.later_first date) (drop n rows).
Proof.
  intros H. rewrite <- (take_drop n rows) in H.
  by apply StronglySorted_app_1_r in H.
Qed.



End OrderByDate.



Lemma getPaymentHistory_Return rt accountNumber w rows w' :
  Payment.getPaymentHistory rt accountNumber w = (Return rows, w') →
  rows = SQL.payment_history accountNumber (committed w).
Proof.
  unfold Payment.getPaymentHistory. unfold_driver. cbn.
  destruct (fault rt (length (log w))); cbn; [discriminate|].
  by intros [= <- <-].
Qed.











(** ** Sanitized pagination *)

(** The decimal digits [pretty] prints read back as the number. *)
Lemma digits_value_pretty_go (x : N) :
  ∀ s acc, ∃ k : nat,
    SQL.digits_value acc (pretty_N_go x s)
    = SQL.digits_value (acc * 10 ^ Z.of_nat k + Z.of_N x) s.
Proof.
  induction (N.lt_wf_0 x) as [x _ IH]. intros s acc.
  destruct (decide (0 < x)%N) as [Hpos|Hzero].
  - rewrite pretty_N_go_step by done.
    destruct (IH (x `div` 10)%N ltac:(apply N.div_lt; lia)
                (String (pretty_N_char (x `mod` 10)) s) acc) as [k ->].
    exists (S k). cbn [SQL.digits_value].
    assert (x `mod` 10 < 10)%N as Hlt by (apply N.mod_lt; lia).
    assert (Ascii.is_nat (pretty_N_char (x `mod` 10))
            = Some (N.to_nat (x `mod` 10))) as ->.
    { destruct (x `mod` 10)%N as [|p] eqn:E; [done|].
      do 9 (destruct p as [p|p|]; try done; try lia). }
    f_equal. rewrite Nat2Z.inj_succ, Z.pow_succ_r by lia.
    rewrite N_nat_Z.
    rewrite (N.div_mod x 10) at 3 by lia.
    rewrite N2Z.inj_add, N2Z.inj_mul. cbn. lia.
  - assert (x = 0%N) as -> by lia. exists 0%nat.
    rewrite pretty_N_go_0. f_equal. cbn. lia.
Qed.

Lemma pretty_go_nonempty (x : N) :
  ∀ s, pretty_N_go x s = EmptyString → s = EmptyString.
Proof.
  induction (N.lt_wf_0 x) as [x _ IH]. intros s.
  destruct (decide (0 < x)%N) as [Hpos|Hzero].
  - rewrite pretty_N_go_step by done. intros H.
    apply IH in H; [discriminate|]. apply N.div_lt; lia.
  - assert (x = 0%N) as -> by lia. by rewrite pretty_N_go_0.
Qed.

Lemma digits_value_pretty (n : Z) :
  0 <= n → pretty n ≠ EmptyString ∧ SQL.digits_value 0 (pretty n) = Some n.
Proof.
  intros Hn. destruct n as [|p|p]; [done| |lia].
  change (pretty (Z.pos p)) with (pretty_N_go (N.pos p) "").
  split.
  - intros H. rewrite pretty_N_go_step in H by lia.
    by apply pretty_go_nonempty in H.
  - destruct (digits_value_pretty_go (N.pos p) "" 0) as [k ->].
    cbn. done.
Qed.

Lemma unsigned_literal_pretty (n : Z) :
  0 <= n <= 18446744073709551615 →
  SQL.unsigned_literal (pretty n) = Some n.
Proof.
  intros Hn. destruct (digits_value_pretty n) as [Hne Hv]; [lia|].
  unfold SQL.unsigned_literal. rewrite Hv.
  destruct (pretty n); [done|].
  by rewrite (proj2 (Z.leb_le _ _)) by lia.
Qed.

Lemma Math_max_of_Z (a b : Z) :
  JS.Math_max (JS.of_Z a) (JS.of_Z b) = JS.of_Z (Z.max a b).
Proof.
  unfold JS.Math_max, JS.of_Z.
  destruct (Qle_bool (inject_Z a) (inject_Z b)) eqn:E.
  - apply Qle_bool_iff in E. rewrite <- Zle_Qle in E. by rewrite Z.max_r.
  - assert (¬ a <= b) as Hlt.
    { rewrite Zle_Qle, <- Qle_bool_iff. congruence. }
    by rewrite Z.max_l by lia.
Qed.

(** The sanitized value is the default for anything but a finite number,
    and the floor of a finite number, raised to zero. *)
Lemma sanitize_value d v :
  JS.sanitize d v
  = JS.of_Z (match JS.as_finite v with
             | Some q => Z.max 0 (Qfloor q)
             | None => d
             end).
Proof.
  unfold JS.sanitize. destruct (JS.as_finite v) as [q|]; [|done].
  cbn [JS.Math_floor]. apply Math_max_of_Z.
Qed.

Lemma NumberToString_natural (n : Z) :
  0 <= n → JS.NumberToString (JS.of_Z n) = Some (JS.natural_to_string n).
Proof.
  intros Hn. unfold JS.NumberToString, JS.of_Z, JS.is_integer.
  rewrite Qfloor_Z, Qeq_bool_refl.
  by rewrite (proj2 (Z.ltb_ge _ _)) by lia.
Qed.

(** The text interpolated for a value that fits is its decimal literal. *)
Lemma fits_unsigned_text (x : JS.Number) :
  fits_unsigned x →
  ∃ n s, x = JS.of_Z n ∧ JS.NumberToString x = Some s
         ∧ SQL.unsigned_literal s = Some n.
Proof.
  intros (n & -> & Hn). exists n, (pretty n). split; [done|].
  rewrite NumberToString_natural by lia. unfold JS.natural_to_string.
  rewrite (proj2 (Z.ltb_lt _ _)) by lia.
  split; [done|]. by apply unsigned_literal_pretty.
Qed.

Lemma paginate_fits {A} (limit offset : JS.Number) (rows : list A) :
  fits_unsigned limit → fits_unsigned offset →
  ∃ page, SQL.paginate (JS.NumberToString limit) (JS.NumberToString offset) rows
          = inr page.
Proof.
  intros (l & sl & _ & -> & Hl)%fits_unsigned_text
         (o & so & _ & -> & Ho)%fits_unsigned_text.
  unfold SQL.paginate. cbn [mbind option_bind]. rewrite Hl, Ho. eauto.
Qed.

Lemma sanitize_cases d v :
  0 <= d →
  ∃ n, JS.sanitize d v = JS.of_Z n
       ∧ 0 <= n
       ∧ (JS.as_finite v = None → n = d)
       ∧ (∀ q, JS.as_finite v = Some q → (q < 0)%Q → n = 0)
       ∧ (∀ q, JS.as_finite v = Some q → (0 <= q)%Q →
               n = Qfloor q ∧ (inject_Z n <= q < inject_Z (n + 1))%Q)
       ∧ (n <= 18446744073709551615 →
          ∃ s, JS.NumberToString (JS.sanitize d v) = Some s
               ∧ SQL.unsigned_literal s = Some n).
Proof.
  intros Hd. rewrite sanitize_value. eexists. split; [reflexivity|].
  destruct (JS.as_finite v) as [q|] eqn:E.
  - split_and!.
    + lia.
    + done.
    + intros q' [= <-] Hq.
      assert (Qfloor q < 0); [|lia].
      rewrite Zlt_Qlt. eapply Qle_lt_trans; [apply Qfloor_le|done].
    + intros q' [= <-] Hq.
      assert (0 <= Qfloor q) as Hf.
      { change 0 with (Qfloor (inject_Z 0)). by apply Qfloor_resp_le. }
      rewrite Z.max_r by lia. split; [done|]. split.
      * apply Qfloor_le.
      * apply Qlt_floor.
    + intros Hn.
      destruct (fits_unsigned_text (JS.of_Z (0 `max` Qfloor q)))
        as (n & s & Hn' & Hs & Hl).
      { eexists. split; [done|]. lia. }
      injection Hn' as <-. eauto.
  - split_and!; [done|done|done|done|].
    intros Hn.
    destruct (fits_unsigned_text (JS.of_Z d)) as (n & s & Hn' & Hs & Hl).
    { eexists. split; [done|]. lia. }
    injection Hn' as <-. eauto.
Qed.

Lemma Payment_findByAccountNumber_fits rt accountNumber limit offset w :
  fault rt (length (log w)) = None →
  fits_unsigned (safeLimit limit) → fits_unsigned (safeOffset offset) →
  ∃ rows w',
    Payment.findByAccountNumber rt accountNumber limit offset w
    = (Return rows, w').
Proof.
  intros Hf Hl Ho. unfold Payment.findByAccountNumber.
  unfold SQL.payments_by_account_number. unfold_driver.
  cbn -[SQL.paginate]. rewrite Hf. cbn -[SQL.paginate].
  match goal with
  | |- context [SQL.paginate _ _ ?rows] =>
      destruct (paginate_fits _ _ rows Hl Ho) as [page Hp]
  end.
  unfold safeLimit, safeOffset in Hp. rewrite Hp. eauto.
Qed.

Lemma Payment_findByCustomerId_fits rt customerId limit offset w :
  fault rt (length (log w)) = None →
  fits_unsigned (safeLimit limit) → fits_unsigned (safeOffset offset) →
  ∃ rows w',
    Payment.findByCustomerId rt customerId limit offset w = (Return rows, w').
Proof.
  intros Hf Hl Ho. unfold Payment.findByCustomerId.
  unfold SQL.payments_by_customer_id. unfold_driver.
  cbn -[SQL.paginate]. rewrite Hf. cbn -[SQL.paginate].
  match goal with
  | |- context [SQL.paginate _ _ ?rows] =>
      destruct (paginate_fits _ _ rows Hl Ho) as [page Hp]
  end.
  unfold safeLimit, safeOffset in Hp. rewrite Hp. eauto.
Qed.

Lemma Customer_findAll_fits rt limit offset w :
  fault rt (length (log w)) = None →
  fits_unsigned (safeLimit limit) → fits_unsigned (safeOffset offset) →
  ∃ rows w', Customer.findAll rt limit offset w = (Return rows, w').
Proof.
  intros Hf Hl Ho. unfold Customer.findAll.
  unfold SQL.active_customers. unfold_driver.
  cbn -[SQL.paginate]. rewrite Hf. cbn -[SQL.paginate].
  match goal with
  | |- context [SQL.paginate _ _ ?rows] =>
      destruct (paginate_fits _ _ rows Hl Ho) as [page Hp]
  end.
  unfold safeLimit, safeOffset in Hp. rewrite Hp. eauto.
Qed.

(** C9 (as amended).  Pagination-input sanitization.  The value the three
    functions interpolate for a limit or an offset is always a finite
    integer [n >= 0]: the default (50 for the limit, 0 for the offset) for
    anything that is not a finite number, 0 for a negative number, the
    floor for a non-negative one.  When [n] is at most [2^53] the text
    interpolated is the decimal literal of [n], which MySQL reads back as
    [n]; when [n] is at most [2^64 - 1] the text is an unsigned integer
    literal, and with such values and no storage error
    [findByAccountNumber], [findByCustomerId] and [findAll] return rows.
    Nothing bounds [n] from above. *)
Theorem pagination_sanitized :
  (∀ d v,
      0 <= d →
      ∃ n, JS.sanitize d v = JS.of_Z n
           ∧ 0 <= n
           ∧ (JS.as_finite v = None → n = d)
           ∧ (∀ q, JS.as_finite v = Some q → (q < 0)%Q → n = 0)
           ∧ (∀ q, JS.as_finite v = Some q → (0 <= q)%Q →
                   n = Qfloor q ∧ (inject_Z n <= q < inject_Z (n + 1))%Q)
           ∧ (n <= 9007199254740992 →
              ∃ s, JS.NumberToString (JS.sanitize d v) = Some s
                   ∧ SQL.unsigned_literal s = Some n)
           ∧ (n <= 18446744073709551615 →
              ∃ s m, JS.NumberToString (JS.sanitize d v) = Some s
                     ∧ SQL.unsigned_literal s = Some m))
  ∧ (∀ rt accountNumber limit offset w,
        fault rt (length (log w)) = None →
        fits_unsigned (safeLimit limit) → fits_unsigned (safeOffset offset) →
        ∃ rows w',
          Payment.findByAccountNumber rt accountNumber limit offset w
          = (Return rows, w'))
  ∧ (∀ rt customerId limit offset w,
        fault rt (length (log w)) = None →
        fits_unsigned (safeLimit limit) → fits_unsigned (safeOffset offset) →
        ∃ rows w',
          Payment.findByCustomerId rt customerId limit offset w
          = (Return rows, w'))
  ∧ (∀ rt limit offset w,
        fault rt (length (log w)) = None →
        fits_unsigned (safeLimit limit) → fits_unsigned (safeOffset offset) →
        ∃ rows w', Customer.findAll rt limit offset w = (Return rows, w')).
Proof.
  split_and!.
  - intros d v Hd.
    destruct (sanitize_cases d v Hd) as (n & Hn & H0 & Hdef & Hneg & Hpos & Hs).
    exists n. split_and!; try done.
    + intros Hle. apply Hs. lia.
    + intros Hle. destruct (Hs Hle) as (s & Hs1 & Hs2). eauto.
  - apply Payment_findByAccountNumber_fits.
  - apply Payment_findByCustomerId_fits.
  - apply Customer_findAll_fits.
Qed.

Lemma pagination_sanitized_witness :
  (∃ n, JS.sanitize 50 (JS.VNumber (JS.Finite (-7 # 2))) = JS.of_Z n ∧ n = 0)
  ∧ (∃ n, JS.sanitize 50 (JS.VNumber (JS.Finite (7 # 2))) = JS.of_Z n ∧ n = 3)
  ∧ (∃ n, JS.sanitize 50 (JS.VNumber JS.PosInfinity) = JS.of_Z n ∧ n = 50)
  ∧ (∃ n, JS.sanitize 0 (JS.VString "1; DROP TABLE payments") = JS.of_Z n
          ∧ n = 0).
Proof.
  split_and!.
  - destruct (proj1 pagination_sanitized 50 (JS.VNumber (JS.Finite (-7 # 2))))
      as (n & Hn & _ & _ & Hneg & _); [lia|].
    exists n. split; [exact Hn|]. by apply (Hneg (-7 # 2)%Q).
  - destruct (proj1 pagination_sanitized 50 (JS.VNumber (JS.Finite (7 # 2))))
      as (n & Hn & _ & _ & _ & Hpos & _); [lia|].
    exists n. split; [exact Hn|]. by apply (Hpos (7 # 2)%Q).
  - destruct (proj1 pagination_sanitized 50 (JS.VNumber JS.PosInfinity))
      as (n & Hn & _ & Hdef & _); [lia|].
    exists n. split; [exact Hn|]. by apply Hdef.
  - destruct (proj1 pagination_sanitized 0
                (JS.VString "1; DROP TABLE payments"))
      as (n & Hn & _ & Hdef & _); [lia|].
    exists n. split; [exact Hn|]. by apply Hdef.
Defined.

(** C9, counterexample.  A limit of [1e21], a finite number, stays
    [10^21] after sanitizing, is interpolated as [1e+21], which is no
    integer literal, and [findByAccountNumber] throws the server's syntax
    error. *)
Lemma pagination_unbounded :
  JS.sanitize 50 (JS.VNumber (JS.of_Z (10 ^ 21))) = JS.of_Z (10 ^ 21)
  ∧ JS.NumberToString (JS.of_Z (10 ^ 21)) = Some "1e+21"
  ∧ SQL.unsigned_literal "1e+21" = None
  ∧ ∃ w',
      Payment.findByAccountNumber Sample.first_runtime "ACC001"
        (JS.VNumber (JS.of_Z (10 ^ 21))) JS.VUndefined Sample.world
      = (Throw (JS.new_Error
                  "Error fetching payments: You have an error in your SQL syntax"),
         w').
Proof.
  split_and!; [vm_compute; reflexivity..|].
  eexists. vm_compute. reflexivity.
Qed.

(** ** Request validation *)


(** The boundary of [isFloat({ min: 0.01 })]: 0.01 and 0.015 pass, 0.005
    does not, and a text with more digits passes when the binary64 it
    reads as is the one 0.01 reads as. *)
Lemma isFloat_boundary :
  let min := JS.binary64 (1 # 100) in
  Validator.isFloat min "0.01" = true
  ∧ Validator.isFloat min "0.015" = true
  ∧ Validator.isFloat min "0.005" = false
  ∧ Validator.isFloat min "0.009999999999999999" = false
  ∧ Validator.isFloat min "0.0099999999999999999999" = true
  ∧ Validator.isFloat min "1e-2" = true
  ∧ Validator.isFloat min ".5" = true
  ∧ Validator.isFloat min "five" = false
  ∧ Validator.isFloat min "5,00" = false
  ∧ Validator.isFloat min "" = false.
Proof. split_and!; vm_compute; reflexivity. Qed.

Lemma amount_refused_isFloat payment_amount :
  amount_refused payment_amount →
  Validator.isFloat (JS.binary64 (1 # 100)) (Validator.toString payment_amount)
  = false.
Proof.
  unfold amount_refused, Validator.isFloat. intros H.
  case_bool_decide; [done|].
  by destruct (Validator.match_float _).
Qed.

Lemma remarks_refused_isLength s :
  (500 < String.length (Validator.trim s))%nat →
  Validator.isLength 0 (Some 500%nat) (Validator.trim s) = false.
Proof.
  intros H. unfold Validator.isLength. cbn [Nat.leb andb].
  apply Nat.leb_gt. lia.
Qed.

Lemma handleValidationErrors_rejects {R} errs (next : R) :
  errs ≠ [] →
  Validation.handleValidationErrors errs next
  = inl (Validation.mkRejection 400 false "Validation Error" errs).
Proof. by destruct errs. Qed.

(** C10 (as amended).  Minimum-amount edge at the public interface.  A
    body whose [payment_amount] is not a number or is below 0.01 (0.005,
    for one), or whose [remarks] are longer than 500 characters after
    trimming, is answered by [handleValidationErrors] with status 400 and
    the list of errors, which names the field; the handler that follows
    ([next], which calls [PaymentService.processPayment]) is not run,
    whatever it is. *)
Theorem validatePayment_rejects {R} (body : Validation.Body)
    (next : Validation.Body → R) :
  amount_refused (Validation.payment_amount body)
  ∨ remarks_refused (Validation.remarks body) →
  ∃ errs,
    Validation.validatePayment body next
    = inl (Validation.mkRejection 400 false "Validation Error" errs)
    ∧ (amount_refused (Validation.payment_amount body) →
       Validation.mkFieldError "payment_amount"
         "Payment amount must be a valid number greater than 0"
         (Validation.payment_amount body) ∈ errs)
    ∧ (remarks_refused (Validation.remarks body) →
       ∃ v, Validation.mkFieldError "remarks"
              "Remarks must not exceed 500 characters" v ∈ errs).
Proof.
  intros Hrefused. unfold Validation.validatePayment.
  destruct (Validation.check_account_number _) as [a e1].
  destruct (Validation.check_payment_amount _) as [b e2] eqn:E2.
  destruct (Validation.check_payment_method _) as [c e3].
  destruct (Validation.check_transaction_id _) as [d e4].
  destruct (Validation.check_remarks _) as [e e5] eqn:E5.
  unfold Validation.check_payment_amount in E2. injection E2 as <- <-.
  assert (amount_refused (Validation.payment_amount body) →
          Validation.mkFieldError "payment_amount"
            "Payment amount must be a valid number greater than 0"
            (Validation.payment_amount body)
          ∈ e1 ++ Validation.failing
                    (Validator.isFloat (JS.binary64 (1 # 100))
                       (Validator.toString (Validation.payment_amount body)))
                    (Validation.mkFieldError "payment_amount"
                       "Payment amount must be a valid number greater than 0"
                       (Validation.payment_amount body))
               ++ e3 ++ e4 ++ e5) as Hamount.
  { intros H. rewrite (amount_refused_isFloat _ H). cbn [Validation.failing].
    rewrite !elem_of_app, list_elem_of_singleton. tauto. }
  assert (remarks_refused (Validation.remarks body) →
          ∃ v, Validation.mkFieldError "remarks"
                 "Remarks must not exceed 500 characters" v
               ∈ e1 ++ Validation.failing
                         (Validator.isFloat (JS.binary64 (1 # 100))
                            (Validator.toString (Validation.payment_amount body)))
                         (Validation.mkFieldError "payment_amount"
                            "Payment amount must be a valid number greater than 0"
                            (Validation.payment_amount body))
                    ++ e3 ++ e4 ++ e5) as Hremarks.
  { intros (s & Hs & Hlen). unfold Validation.check_remarks in E5.
    rewrite Hs in E5. injection E5 as <- <-.
    rewrite (remarks_refused_isLength _ Hlen).
    exists (Some (Validator.trim s)). cbn [Validation.failing].
    rewrite !elem_of_app, list_elem_of_singleton. tauto. }
  eexists. split; [|split; [exact Hamount|exact Hremarks]].
  apply handleValidationErrors_rejects.
  destruct Hrefused as [H|H].
  - apply Hamount in H. intros Hnil. rewrite Hnil in H. by apply elem_of_nil in H.
  - apply Hremarks in H as [v H]. intros Hnil. rewrite Hnil in H.
    by apply elem_of_nil in H.
Qed.

Lemma validatePayment_rejects_witness :
  ∃ errs,
    Validation.validatePayment
      (Validation.mkBody (Some "ACC001") (Some "0.005") (Some "UPI") None None)
      (λ body, body)
    = inl (Validation.mkRejection 400 false "Validation Error" errs)
    ∧ Validation.mkFieldError "payment_amount"
        "Payment amount must be a valid number greater than 0" (Some "0.005")
      ∈ errs.
Proof.
  assert (amount_refused (Some "0.005")) as Hrefused
    by (vm_compute; reflexivity).
  destruct (validatePayment_rejects
              (Validation.mkBody (Some "ACC001") (Some "0.005") (Some "UPI")
                 None None)
              (λ body, body) (or_introl Hrefused))
    as (errs & Hres & Hamount & _).
  exists errs. split; [exact Hres|]. exact (Hamount Hrefused).
Defined.

(** C10, counterexample.  Remarks of 504 characters, of which the last 500
    are spaces, pass: they are trimmed to four characters before their
    length is checked, and the handler is run on the trimmed body. *)
Lemma padded_remarks_accepted :
  String.length Sample.padded_remarks = 504%nat
  ∧ Validation.validatePayment
      (Validation.mkBody (Some "ACC001") (Some "5000") (Some "UPI") None
         (Some Sample.padded_remarks))
      (λ body, body)
    = inr (Validation.mkBody (Some "ACC001") (Some "5000") (Some "UPI") None
             (Some "Paid")).
Proof. split; vm_compute; reflexivity. Qed.

(** * Further properties of the models, the service and the routes *)

(** ** [Payment.create]: the calls it makes and what it keeps *)

Ltac failed_at n :=
  exists n; eexists _, _; split; [done|]; split; [lia|];
  split; [|reflexivity]; cbn; lia.

(** Every invocation ends in one of three ways: no connection, a failed
    transaction that is rolled back, or the posting. *)
Lemma create_cases rt paymentData w :
  (∃ m, fault rt (length (log w)) = Some m
        ∧ Payment.create rt paymentData w
          = (Throw (JS.new_Error m),
             mkWorld (committed w) (txn w) (auto_increment w)
               (GetConnection :: log w)))
  ∨ (∃ n e a,
        fault rt (length (log w)) = None
        ∧ (1 <= n <= 5)%nat
        ∧ auto_increment w <= a <= auto_increment w + 1
        ∧ Payment.create rt paymentData w
          = (Throw e,
             mkWorld (committed w) None a
               (Release :: Rollback :: rev (take n transaction_calls)
                ++ GetConnection :: log w)))
  ∨ (fault rt (length (log w)) = None
     ∧ Payment.create rt paymentData w
       = (Return (posted_record rt paymentData w), posted_world rt paymentData w)).
Proof.
  destruct (Payment.create rt paymentData w) as [[r|e] w'] eqn:H.
  - right. right. pose proof (create_Return _ _ _ _ _ H) as ((Hf & _) & -> & ->).
    split; [|done]. apply (Hf 0%nat). lia.
  - revert H. unfold_driver. cbn.
    destruct (fault rt (length (log w))) as [m|] eqn:F0; cbn.
    { intros [= <- <-]. left. eauto. }
    intros H. right. left.
    destruct (fault rt (S (length (log w)))) eqn:F1; cbn in H.
    { injection H as <- <-. failed_at 1%nat. }
    destruct (fault rt (S (S (length (log w))))) eqn:F2; cbn in H.
    { injection H as <- <-. failed_at 2%nat. }
    destruct (SQL.insert_payment _ (committed w)) as [m|d] eqn:HI; cbn in H.
    { injection H as <- <-. failed_at 2%nat. }
    destruct (fault rt (S (S (S (length (log w)))))) eqn:F3; cbn in H.
    { injection H as <- <-. failed_at 3%nat. }
    destruct (fault rt (S (S (S (S (length (log w))))))) eqn:F4; cbn in H.
    { injection H as <- <-. failed_at 4%nat. }
    destruct (fault rt (S (S (S (S (S (length (log w)))))))) eqn:F5; cbn in H;
      [|discriminate].
    injection H as <- <-. failed_at 5%nat.
Qed.

(** X1.  Without a connection nothing is attempted.  When
    [pool.getConnection()] fails, [Payment.create] throws the driver's
    error as it is, without the prefix it gives to the errors of the
    transaction, and makes no other driver call: no rollback and no
    release.  The database, the connection and the insert counter are
    unchanged. *)
Theorem create_without_connection rt paymentData w m :
  fault rt (length (log w)) = Some m →
  Payment.create rt paymentData w
  = (Throw (JS.new_Error m),
     mkWorld (committed w) (txn w) (auto_increment w) (GetConnection :: log w)).
Proof.
  intros Hf. destruct (create_cases rt paymentData w)
    as [(m' & Hm & ->)|[(n & e & a & Hn & _)|[Hn _]]]; congruence.
Qed.

Lemma create_without_connection_witness :
  Payment.create (Sample.failing_runtime 0 "Too many connections")
    Sample.posting Sample.world
  = (Throw (JS.new_Error "Too many connections"),
     mkWorld Sample.database None 1 [GetConnection]).
Proof.
  apply (create_without_connection
           (Sample.failing_runtime 0 "Too many connections")
           Sample.posting Sample.world).
  reflexivity.
Defined.

(** X2.  The protocol of the connection.  An invocation that gets a
    connection begins a transaction, makes the first [n] of the five calls
    of the transaction in order (all five when it returns), rolls back
    exactly when it throws, and releases the connection as its last call:
    the connection goes back to the pool once, with no transaction
    open. *)
Theorem create_protocol rt paymentData w :
  fault rt (length (log w)) = None →
  let outcome := Payment.create rt paymentData w in
  ∃ n, (1 <= n <= 5)%nat
       ∧ (is_Return outcome.1 = true → n = 5%nat)
       ∧ log outcome.2
         = Release :: (if is_Return outcome.1 then [] else [Rollback])
           ++ rev (take n transaction_calls) ++ GetConnection :: log w
       ∧ txn outcome.2 = None.
Proof.
  intros Hf outcome. subst outcome.
  destruct (create_cases rt paymentData w)
    as [(m' & Hm & _)|[(n & e & a & _ & Hn & _ & ->)|[_ ->]]].
  - congruence.
  - exists n. cbn. split_and!; [lia|lia|discriminate|done|done].
  - exists 5%nat. cbn. split_and!; [lia|lia|done|done|done].
Qed.

Lemma create_protocol_witness :
  let outcome :=
    Payment.create (Sample.failing_runtime 3 "Lock wait timeout exceeded")
      Sample.posting Sample.world in
  ∃ n, (1 <= n <= 5)%nat
       ∧ (is_Return outcome.1 = true → n = 5%nat)
       ∧ log outcome.2
         = Release :: (if is_Return outcome.1 then [] else [Rollback])
           ++ rev (take n transaction_calls) ++ [GetConnection]
       ∧ txn outcome.2 = None.
Proof.
  apply (create_protocol
           (Sample.failing_runtime 3 "Lock wait timeout exceeded")
           Sample.posting Sample.world).
  reflexivity.
Defined.

(** X3.  What no invocation does.  Whether it returns or throws,
    [Payment.create] keeps every payment row it found, in place (rows are
    only appended), adds or removes no customer and no schedule entry,
    changes no column of a customer other than the outstanding balance,
    and never moves the insert counter back. *)
Theorem create_keeps_rows rt paymentData w :
  let w' := (Payment.create rt paymentData w).2 in
  payments (committed w) `prefix_of` payments (committed w')
  ∧ dom (customers (committed w')) = dom (customers (committed w))
  ∧ dom (payment_schedule (committed w')) = dom (payment_schedule (committed w))
  ∧ (∀ k c, customers (committed w) !! k = Some c →
            ∃ balance,
              customers (committed w') !! k
              = Some (CustomerRow.mk (CustomerRow.account_number c)
                        (CustomerRow.customer_name c) (CustomerRow.emi_due c)
                        balance (CustomerRow.status c) (CustomerRow.created_at c)))
  ∧ auto_increment w <= auto_increment w'.
Proof.
  destruct (create_cases rt paymentData w)
    as [(m' & Hm & ->)|[(n & e & a & _ & Hn & Ha & ->)|[_ ->]]]; cbn.
  - split_and!; [done..| |lia]. intros k [] ?. eauto.
  - split_and!; [done..| |lia]. intros k [] ?. eauto.
  - rewrite posted_payments, posted_customers. split_and!.
    + by apply prefix_app_r.
    + apply dom_alter_L.
    + unfold posted_database.
      match goal with
      | |- context [SQL.update_schedule ?a ?c ?d] =>
          destruct (update_schedule_spec a c d)
            as [(k & r & Hk & _ & _ & Heq)|[_ Heq]]
      end; cbn in *.
      * rewrite Heq. apply dom_insert_lookup_L. eauto.
      * by rewrite Heq.
    + intros k c Hk.
      destruct (decide (k = PaymentData.customer_id paymentData)) as [->|Hne].
      * rewrite lookup_alter_eq, Hk. cbn. eauto.
      * rewrite lookup_alter_ne by done. destruct c. eauto.
    + lia.
Qed.

(** X4.  The constraints of the schema are an invariant of posting.  If
    the payment references are pairwise distinct, the payment keys are
    pairwise distinct and below the insert counter, and every payment row
    names a customer of the table, then the same holds after any
    invocation of [Payment.create], whether it returns or throws. *)
Theorem create_keeps_constraints rt paymentData w :
  constraints_hold w →
  constraints_hold (Payment.create rt paymentData w).2.
Proof.
  intros (Hrefs & Hids & Hrows).
  destruct (Payment.create rt paymentData w) as [[r|e] w'] eqn:H.
  - apply create_Return in H as ((_ & Hc & Hfresh) & _ & ->).
    unfold constraints_hold. cbn [snd committed posted_world auto_increment].
    rewrite posted_payments, posted_customers, !fmap_app. cbn [fmap list_fmap].
    split_and!.
    + apply NoDup_app. split_and!; [done| |apply NoDup_singleton].
      intros x Hx ->%list_elem_of_singleton. done.
    + apply NoDup_app. split_and!; [done| |apply NoDup_singleton].
      intros x Hx ->%list_elem_of_singleton. cbn in Hx.
      apply list_elem_of_fmap in Hx as (p & Hp & Hin).
      rewrite Forall_forall in Hrows. apply Hrows in Hin as [Hlt _]. lia.
    + apply Forall_app. split.
      * eapply Forall_impl; [exact Hrows|]. intros p [Hlt Hp]. split; [lia|].
        by apply lookup_alter_is_Some.
      * apply Forall_singleton. cbn. split; [lia|].
        by apply lookup_alter_is_Some.
  - destruct (create_cases rt paymentData w)
      as [(m' & Hm & Heq)|[(n & e' & a & _ & Hn & Ha & Heq)|[_ Heq]]];
      rewrite H in Heq; [| |discriminate].
    + injection Heq as _ ->. done.
    + injection Heq as _ ->. unfold constraints_hold. cbn.
      split_and!; [done|done|].
      eapply Forall_impl; [exact Hrows|]. intros p [Hlt Hp]. split; [lia|done].
Qed.

Lemma create_keeps_constraints_witness :
  constraints_hold
    (Payment.create Sample.second_runtime Sample.posting
       (Payment.create Sample.first_runtime Sample.posting Sample.world).2).2.
Proof.
  apply create_keeps_constraints, create_keeps_constraints.
  split_and!; [apply NoDup_nil_2..|apply Forall_nil_2].
Defined.

(** ** Postings one after the other *)

(** X5.  Postings compose.  After any number of successful postings made
    one after the other, for any customers and of any amounts with at most
    two decimals (each the number nearest to a number of cents), the
    outstanding balance of a customer is what it was minus the sum of the
    amounts posted against that customer, a customer nothing was posted
    against keeps the balance, and [payments] has one row more for each
    posting. *)
Theorem postings_in_sequence w l w' customer_id c b :
  posted_in_sequence w l w' →
  Forall (λ p, two_decimals (PaymentData.payment_amount p.2)) l →
  customers (committed w) !! customer_id = Some c →
  CustomerRow.outstanding_balance c = Some b →
  CustomerRow.outstanding_balance <$> customers (committed w') !! customer_id
  = Some (Some (b - posted_against customer_id l))
  ∧ length (payments (committed w'))
    = (length (payments (committed w)) + length l)%nat.
Proof.
  intros H. revert c b.
  induction H as [w|w rt paymentData r w1 l w2 H _ IH]; intros c b Hl Hc Hb.
  - rewrite Hc. cbn. rewrite Hb, Nat.add_0_r. split; [|done].
    do 2 f_equal. unfold posted_against. cbn. lia.
  - apply Forall_cons in Hl as [Hcents Hl]. cbn in Hcents.
    pose proof H as H'. apply create_Return in H' as (_ & _ & ->).
    assert (length (payments (committed (posted_world rt paymentData w)))
            = S (length (payments (committed w)))) as Hn.
    { cbn [committed posted_world]. rewrite posted_payments, length_app.
      cbn [length]. lia. }
    unfold posted_against.
    destruct (decide (PaymentData.customer_id paymentData = customer_id))
      as [Hid|Hid].
    + rewrite (filter_cons_True _ (rt, paymentData)) by done.
      rewrite <- Hid in Hc.
      pose proof (create_balance _ _ _ _ _ _ H Hc) as Hc1.
      rewrite Hid in Hc1.
      destruct (IH _ (b - SQL.to_cents (PaymentData.payment_amount paymentData))
                  Hl Hc1) as [Hb2 Hn2].
      { cbn. by rewrite (minus_in_cents _ _ _ Hcents), Hb. }
      rewrite Hb2, Hn2, Hn. cbn [length]. split; [|lia].
      do 2 f_equal. unfold posted_against. cbn. lia.
    + rewrite (filter_cons_False _ (rt, paymentData)) by done.
      destruct (IH c b Hl) as [Hb2 Hn2]; [|done|].
      { cbn [committed posted_world]. rewrite posted_customers.
        by rewrite lookup_alter_ne. }
      rewrite Hb2, Hn2, Hn. cbn [length]. split; [|lia]. done.
Qed.

Lemma postings_in_sequence_witness :
  let l := [(Sample.first_runtime, Sample.precise_posting);
            (Sample.second_runtime, Sample.posting)] in
  ∃ w2,
    posted_in_sequence Sample.world l w2
    ∧ Forall (λ p, two_decimals (PaymentData.payment_amount p.2)) l
    ∧ customers (committed Sample.world) !! 1 = Some Sample.rahul
    ∧ CustomerRow.outstanding_balance Sample.rahul = Some 15000000
    ∧ CustomerRow.outstanding_balance <$> customers (committed w2) !! 1
      = Some (Some (15000000 - posted_against 1 l))
    ∧ posted_against 1 l = 623499
    ∧ length (payments (committed w2))
      = (length (payments (committed Sample.world)) + 2)%nat.
Proof.
  intros l.
  pose (w1 := posted_world Sample.first_runtime Sample.precise_posting
                Sample.world).
  pose (w2 := posted_world Sample.second_runtime Sample.posting w1).
  assert (posted_in_sequence Sample.world l w2) as Hseq.
  { eapply posted_next; [vm_compute; reflexivity|].
    eapply posted_next; [vm_compute; reflexivity|]. apply posted_none. }
  assert (Forall (λ p, two_decimals (PaymentData.payment_amount p.2)) l) as Hl.
  { repeat apply Forall_cons_2; [..|apply Forall_nil_2];
      (split; [split; vm_compute; discriminate|vm_compute; reflexivity]). }
  exists w2. split; [exact Hseq|]. split; [exact Hl|].
  split; [reflexivity|]. split; [reflexivity|].
  destruct (postings_in_sequence Sample.world l w2 1 Sample.rahul 15000000
              Hseq Hl eq_refl eq_refl) as [Hb Hn].
  split; [exact Hb|]. split; [vm_compute; reflexivity|exact Hn].
Defined.

(** ** Reading through the pool *)

Lemma pool_execute_run {R} rt s (query : Database → string + R) w :
  Driver.pool_execute rt s query w
  = let w1 := mkWorld (committed w) (txn w) (auto_increment w)
                (PoolExecute s :: log w) in
    match fault rt (length (log w)) with
    | Some m => (Throw (JS.new_Error m), w1)
    | None =>
        match query (committed w) with
        | inl m => (Throw (JS.new_Error m), w1)
        | inr r => (Return r, w1)
        end
    end.
Proof.
  unfold_driver. cbn. destruct (fault rt (length (log w))); [done|]. cbn.
  by destruct (query (committed w)).
Qed.

Lemma pool_query_run {R} rt s (query : Database → string + R) w :
  Driver.pool_query rt s query w
  = let w1 := mkWorld (committed w) (txn w) (auto_increment w)
                (PoolQuery s :: log w) in
    match fault rt (length (log w)) with
    | Some m => (Throw (JS.new_Error m), w1)
    | None =>
        match query (committed w) with
        | inl m => (Throw (JS.new_Error m), w1)
        | inr r => (Return r, w1)
        end
    end.
Proof.
  unfold_driver. cbn. destruct (fault rt (length (log w))); [done|]. cbn.
  by destruct (query (committed w)).
Qed.

Lemma Customer_findByAccountNumber_run rt accountNumber w :
  Customer.findByAccountNumber rt accountNumber w
  = (match fault rt (length (log w)) with
     | Some m => Throw (JS.new_Error ("Error fetching customer: " +:+ m))
     | None => Return (head (filter (Customer.has_account_number accountNumber)
                               (map_to_list (customers (committed w)))))
     end, logged (PoolExecute SELECT_customer_by_account_number) w).
Proof.
  unfold Customer.findByAccountNumber, try_catch, bind.
  rewrite pool_execute_run. cbn. by destruct (fault rt (length (log w))).
Qed.

Lemma Customer_findById_run rt id w :
  Customer.findById rt id w
  = (match fault rt (length (log w)) with
     | Some m => Throw (JS.new_Error ("Error fetching customer: " +:+ m))
     | None => Return (pair id <$> customers (committed w) !! id)
     end, logged (PoolExecute SELECT_customer_by_id) w).
Proof.
  unfold Customer.findById, try_catch, bind.
  rewrite pool_execute_run. cbn. destruct (fault rt (length (log w))); [done|].
  by destruct (customers (committed w) !! id).
Qed.

(** ** [PaymentService.processPayment] *)

Lemma to_cents_bounds x b :
  (0 <= x)%Q → (x <= SQL.of_cents b)%Q → 0 <= SQL.to_cents x <= b.
Proof.
  intros H0 Hb. unfold SQL.to_cents, SQL.round_half_away.
  assert (0 <= x * 100)%Q as H0'.
  { apply Qmult_le_0_compat; [done|]. by compute. }
  apply Qle_bool_iff in H0' as Htest. rewrite Htest.
  assert (x * 100 <= inject_Z b)%Q as Hb'.
  { unfold SQL.of_cents in Hb.
    assert (inject_Z b == inject_Z b / 100 * 100)%Q as -> by field.
    apply Qmult_le_compat_r; [done|]. by compute. }
  split.
  - change 0 with (Qfloor (inject_Z 0)). apply Qfloor_resp_le.
    apply Qle_trans with (x * 100)%Q; [done|].
    rewrite <- (Qplus_0_r (x * 100)) at 1. apply Qplus_le_r. by compute.
  - rewrite <- (Qfloor_plus_half b). apply Qfloor_resp_le.
    by apply Qplus_le_l.
Qed.

Lemma lookup_account_Some accountNumber d customer :
  lookup_account accountNumber d = Some customer →
  customers d !! Customer.id customer = Some customer.2
  ∧ CustomerRow.account_number customer.2 = accountNumber.
Proof.
  unfold lookup_account. intros H.
  apply head_Some_elem_of, list_elem_of_filter in H as [Ha H].
  destruct customer as [id c]. by apply elem_of_map_to_list in H.
Qed.

(** What [processPayment] does once the customer is found. *)
Lemma processPayment_run rt paymentData w :
  PaymentService.processPayment rt paymentData w
  = let w1 := logged (PoolExecute SELECT_customer_by_account_number) w in
    match fault rt (length (log w)) with
    | Some m => (Throw (JS.new_Error ("Error fetching customer: " +:+ m)), w1)
    | None =>
        match lookup_account (PaymentRequest.account_number paymentData)
                (committed w) with
        | None => (Throw (JS.mkError "Customer not found" (Some 404)), w1)
        | Some customer =>
            if Qle_bool (PaymentRequest.payment_amount paymentData) 0
            then (Throw (JS.mkError "Payment amount must be greater than 0"
                           (Some 400)), w1)
            else if PaymentService.exceeds
                      (PaymentRequest.payment_amount paymentData)
                      (CustomerRow.outstanding_balance customer.2)
            then (Throw (JS.mkError "Payment amount exceeds outstanding balance"
                           (Some 400)), w1)
            else
              match Payment.create rt (posting_of paymentData customer) w1 with
              | (Throw e, w2) => (Throw e, w2)
              | (Return paymentRecord, w2) =>
                  let w3 := logged (PoolExecute SELECT_customer_by_id) w2 in
                  match fault rt (length (log w2)) with
                  | Some m =>
                      (Throw (JS.new_Error ("Error fetching customer: " +:+ m)),
                       w3)
                  | None =>
                      match customers (committed w2) !! Customer.id customer with
                      | None =>
                          (Throw (JS.new_Error
                                    "Cannot read properties of null (reading 'account_number')"),
                           w3)
                      | Some c =>
                          (Return (ProcessedPayment.mk true paymentRecord
                                     (CustomerSummary.mk
                                        (CustomerRow.account_number c)
                                        (CustomerRow.customer_name c)
                                        (CustomerRow.outstanding_balance c)
                                        (CustomerRow.emi_due c))), w3)
                      end
                  end
              end
        end
    end.
Proof.
  unfold PaymentService.processPayment. unfold try_catch at 1. unfold bind at 1.
  rewrite Customer_findByAccountNumber_run. cbn zeta.
  destruct (fault rt (length (log w))) as [m|]; [done|].
  fold (lookup_account (PaymentRequest.account_number paymentData) (committed w)).
  destruct (lookup_account _ _) as [customer|]; [|done].
  destruct (Qle_bool _ 0); [done|].
  destruct (PaymentService.exceeds _ _); [done|].
  unfold bind at 1. fold (posting_of paymentData customer).
  destruct (Payment.create _ _ _) as [[r|e] w2]; [|done].
  unfold bind at 1. rewrite Customer_findById_run.
  destruct (fault rt (length (log w2))); [done|].
  by destruct (customers (committed w2) !! Customer.id customer).
Qed.

Lemma to_cents_le (x : Q) (b : Z) :
  (x <= SQL.of_cents b)%Q → SQL.to_cents x <= b.
Proof.
  intros Hle. rewrite of_cents_hundredths in Hle.
  unfold SQL.to_cents, SQL.round_half_away.
  destruct (Qle_bool 0 (x * 100)).
  - pose proof (Qfloor_le (x * 100 + (1 # 2))) as H.
    assert (inject_Z (Qfloor (x * 100 + (1 # 2))) < inject_Z (b + 1))%Q as Hlt.
    { rewrite inject_Z_plus. change (inject_Z 1) with 1%Q. lra. }
    rewrite <- Zlt_Qlt in Hlt. lia.
  - pose proof (Qlt_floor (- (x * 100) + (1 # 2))) as H.
    rewrite inject_Z_plus in H. change (inject_Z 1) with 1%Q in H.
    assert (inject_Z (- b - 1) < inject_Z (Qfloor (- (x * 100) + (1 # 2))))%Q
      as Hlt.
    { unfold Z.sub. rewrite inject_Z_plus, !inject_Z_opp.
      change (inject_Z 1) with 1%Q. lra. }
    rewrite <- Zlt_Qlt in Hlt. lia.
Qed.

Lemma to_cents_nonneg (x : Q) : (- (1 # 200) < x)%Q → 0 <= SQL.to_cents x.
Proof.
  intros Hlt. unfold SQL.to_cents, SQL.round_half_away.
  destruct (Qle_bool 0 (x * 100)) eqn:E.
  - apply Qle_bool_iff in E.
    change 0 with (Qfloor (inject_Z 0)). apply Qfloor_resp_le.
    change (inject_Z 0) with 0%Q. lra.
  - pose proof (Qfloor_le (- (x * 100) + (1 # 2))) as H.
    assert (inject_Z (Qfloor (- (x * 100) + (1 # 2))) < inject_Z 1)%Q as Hlt'.
    { change (inject_Z 1) with 1%Q. lra. }
    rewrite <- Zlt_Qlt in Hlt'. lia.
Qed.

(** A balance that is not positive is not above a positive number. *)
Lemma binary64_nonpositive (q : Q) (v : Q) :
  (q <= 0)%Q → (0 < v)%Q → JS.le (JS.Finite v) (JS.binary64 q) = false.
Proof.
  intros Hq Hv. destruct (Q_dec q 0) as [[Hneg|Hpos]|Hzero]; [|lra|].
  - rewrite binary64_negative by done.
    destruct (Qle_bool _ _); [done|]. cbn.
    destruct (Qle_bool v _) eqn:E; [|done].
    apply Qle_bool_iff in E. rewrite Qred_correct in E.
    pose proof (rounded_nonneg (- q) ltac:(lra)). lra.
  - rewrite binary64_zero by done. cbn.
    destruct (Qle_bool v 0) eqn:E; [|done].
    apply Qle_bool_iff in E. lra.
Qed.

Lemma le_Finite_proper (p q : Q) (x : JS.Number) :
  (p == q)%Q → JS.le (JS.Finite p) x = JS.le (JS.Finite q) x.
Proof.
  intros Heq. destruct x as [u| | |]; try done. cbn.
  destruct (Qle_bool q u) eqn:E.
  - apply Qle_bool_iff. apply Qle_bool_iff in E. by rewrite Heq.
  - destruct (Qle_bool p u) eqn:E'; [|done].
    apply Qle_bool_iff in E'. rewrite Heq in E'.
    apply Qle_bool_iff in E'. congruence.
Qed.

(** X6.  What a processed payment guarantees.  When
    [PaymentService.processPayment] returns for an amount that is a
    JavaScript number, the account number named a customer whose
    outstanding balance [b] was positive, the amount was positive and not
    greater than [b] (the two compared as numbers), exactly one payment
    row was appended, and the balance the customer now has, which is the
    one the result reports, is [b - amount] stored with two decimals; it
    is at most [b] and, for a balance in the range of the column, not
    negative: a processed payment never overdraws the account. *)
Theorem processPayment_returns rt paymentData w result w' :
  is_binary64 (PaymentRequest.payment_amount paymentData) →
  PaymentService.processPayment rt paymentData w = (Return result, w') →
  ∃ customer b b',
    let w1 := logged (PoolExecute SELECT_customer_by_account_number) w in
    let posting := posting_of paymentData customer in
    let amount := PaymentRequest.payment_amount paymentData in
    lookup_account (PaymentRequest.account_number paymentData) (committed w)
    = Some customer
    ∧ CustomerRow.outstanding_balance customer.2 = Some b
    ∧ 0 < b
    ∧ (0 < amount)%Q
    ∧ JS.le (JS.Finite amount) (JS.binary64 (SQL.of_cents b)) = true
    ∧ ProcessedPayment.success result = true
    ∧ ProcessedPayment.payment result = posted_record rt posting w1
    ∧ w' = logged (PoolExecute SELECT_customer_by_id) (posted_world rt posting w1)
    ∧ payments (committed w') = payments (committed w) ++ [posted_row rt posting w1]
    ∧ CustomerRow.outstanding_balance
        <$> customers (committed w') !! Customer.id customer
      = Some (Some b')
    ∧ CustomerSummary.outstanding_balance (ProcessedPayment.customer result)
      = Some b'
    ∧ b' = SQL.to_cents (SQL.of_cents b - amount)
    ∧ b' <= b
    ∧ (b <= 999999999999999 → 0 <= b').
Proof.
  intros Hnum. rewrite processPayment_run. cbn zeta.
  destruct (fault rt (length (log w))); [discriminate|].
  destruct (lookup_account _ _) as [customer|] eqn:Hfound; [|discriminate].
  destruct (Qle_bool _ 0) eqn:Hpos; [discriminate|].
  destruct (PaymentService.exceeds _ _) eqn:Hex; [discriminate|].
  destruct (Payment.create _ _ _) as [[r|e] w2] eqn:Hcreate; [|discriminate].
  apply create_Return in Hcreate as (_ & -> & ->).
  destruct (fault rt _); [discriminate|].
  apply lookup_account_Some in Hfound as Hc. destruct Hc as [Hc _].
  cbn [committed posted_world]. rewrite posted_customers.
  cbn [PaymentData.customer_id posted_row posting_of committed logged].
  rewrite lookup_alter_eq, Hc. cbn.
  intros [= <- <-].
  set (amount := PaymentRequest.payment_amount paymentData) in *.
  assert (0 < amount)%Q as Hlt.
  { apply Qnot_le_lt. intros Hle. apply Qle_bool_iff in Hle. congruence. }
  unfold PaymentService.exceeds in Hex. apply negb_false_iff in Hex.
  unfold is_binary64 in Hnum.
  destruct (JS.binary64 amount) as [v| | |] eqn:Hv; try done.
  rewrite <- (le_Finite_proper amount v _ Hnum) in Hex.
  set (b0 := default 0 (CustomerRow.outstanding_balance customer.2)) in *.
  assert (0 < b0) as Hb0.
  { destruct (decide (0 < b0)) as [|Hn]; [done|].
    rewrite binary64_nonpositive in Hex; [done| |done].
    rewrite of_cents_hundredths.
    assert (inject_Z b0 <= inject_Z 0)%Q as H by (rewrite <- Zle_Qle; lia).
    change (inject_Z 0) with 0%Q in H. lra. }
  destruct (CustomerRow.outstanding_balance customer.2) as [b|] eqn:Hb;
    [|done].
  cbn in b0. subst b0.
  assert (SQL.to_cents (SQL.of_cents b - amount) <= b) as Hle.
  { apply to_cents_le. lra. }
  assert (b <= 999999999999999 →
          0 <= SQL.to_cents (SQL.of_cents b - amount)) as Hnonneg.
  { intros Hrange.
    destruct (binary64_near (SQL.of_cents b)) as (u & Hu & Hnear).
    { apply of_cents_small. lia. }
    rewrite Hu in Hex. cbn in Hex. apply Qle_bool_iff in Hex.
    apply Qabs_Qle_condition in Hnear.
    apply to_cents_nonneg. lra. }
  exists customer, b, (SQL.to_cents (SQL.of_cents b - amount)).
  cbn -[Z.le Z.lt]. rewrite posted_payments. cbn -[Z.le Z.lt].
  rewrite posted_customers.
  cbn -[Z.le Z.lt]. rewrite lookup_alter_eq, Hc. cbn -[Z.le Z.lt]. rewrite Hb.
  split_and!; done.
Qed.

Lemma processPayment_returns_witness :
  let paymentData :=
    PaymentRequest.mk "ACC001" (number (123499 # 100)) None None None in
  is_binary64 (PaymentRequest.payment_amount paymentData)
  ∧ ∃ result w',
      PaymentService.processPayment Sample.first_runtime paymentData
        Sample.world
      = (Return result, w')
      ∧ CustomerSummary.outstanding_balance (ProcessedPayment.customer result)
        = Some 14876501
      ∧ length (payments (committed w')) = 1%nat.
Proof.
  intros paymentData.
  assert (is_binary64 (PaymentRequest.payment_amount paymentData)) as Hnum
    by (vm_compute; reflexivity).
  split; [exact Hnum|].
  destruct (PaymentService.processPayment Sample.first_runtime paymentData
              Sample.world)
    as [[result|e] w'] eqn:H; [|vm_compute in H; discriminate].
  exists result, w'. split; [reflexivity|].
  destruct (processPayment_returns _ _ _ _ _ Hnum H)
    as (customer & b & b' & Hfound & Hb & _ & _ & _ & _ & _ & _ & Hpay & _
        & Hsum & Hb' & _).
  vm_compute in Hfound. injection Hfound as <-.
  vm_compute in Hb. injection Hb as <-.
  split.
  - rewrite Hsum, Hb'. vm_compute. reflexivity.
  - rewrite Hpay. reflexivity.
Defined.

(** X7.  A request that passes the checks is posted.  If the account
    number names a customer whose balance is [b], the amount is positive
    and at most [b], the reference drawn is not in use, and none of the
    driver calls meets a storage error, [processPayment] returns. *)
Theorem processPayment_succeeds rt paymentData w customer b :
  lookup_account (PaymentRequest.account_number paymentData) (committed w)
  = Some customer →
  CustomerRow.outstanding_balance customer.2 = Some b →
  (0 < PaymentRequest.payment_amount paymentData <= SQL.of_cents b)%Q →
  (∀ k, (k < 9)%nat → fault rt (k + length (log w)) = None) →
  Payment.payment_reference rt
    ∉ (PaymentRow.payment_reference_id <$> payments (committed w)) →
  ∃ result w',
    PaymentService.processPayment rt paymentData w = (Return result, w').
Proof.
  intros Hfound Hb [Hpos Hle] Hf Hfresh.
  rewrite processPayment_run. cbn zeta.
  pose proof (Hf 0%nat ltac:(lia)) as F0. cbn in F0. rewrite F0, Hfound.
  assert (Qle_bool (PaymentRequest.payment_amount paymentData) 0 = false) as ->.
  { destruct (Qle_bool _ 0) eqn:E; [|done].
    apply Qle_bool_iff in E. by apply Qlt_not_le in Hpos. }
  assert (PaymentService.exceeds (PaymentRequest.payment_amount paymentData)
            (CustomerRow.outstanding_balance customer.2) = false) as ->.
  { unfold PaymentService.exceeds. rewrite Hb.
    apply negb_false_iff. by apply binary64_mono. }
  apply lookup_account_Some in Hfound as [Hc _].
  rewrite create_ok.
  - cbn [log posted_world logged length].
    pose proof (Hf 8%nat ltac:(lia)) as F8. cbn in F8. rewrite F8.
    cbn [committed posted_world]. rewrite posted_customers.
    cbn [PaymentData.customer_id posting_of committed logged].
    rewrite lookup_alter_eq, Hc. cbn. eauto.
  - split_and!.
    + intros k Hk. cbn [log logged length].
      replace (k + S (length (log w)))%nat with (S k + length (log w))%nat by lia.
      apply Hf. lia.
    + cbn. by rewrite Hc.
    + done.
Qed.

Lemma processPayment_succeeds_witness :
  ∃ result w',
    PaymentService.processPayment Sample.second_runtime
      (PaymentRequest.mk "ACC002" (450050 # 100) (Some CARD)
         (Some "TXN123456789") (Some "Monthly EMI payment")) Sample.world
    = (Return result, w').
Proof.
  apply (processPayment_succeeds Sample.second_runtime _ Sample.world
           (2, Sample.priya) 19500000).
  - vm_compute. reflexivity.
  - reflexivity.
  - split; vm_compute; [reflexivity|discriminate].
  - reflexivity.
  - vm_compute. apply not_elem_of_nil.
Defined.

(** X8.  How a request can fail.  When [processPayment] throws, either
    the database is as it was (the error has status 404 or 400, or it is
    a storage error and has no status), or the posting is committed and
    it is the lookup of the updated customer that failed: the error then
    has no status and the message [Error fetching customer: ...], so a
    payment can be committed although the caller gets an error. *)
Theorem processPayment_throws rt paymentData w e w' :
  PaymentService.processPayment rt paymentData w = (Throw e, w') →
  (committed w' = committed w
   ∧ (JS.status e = Some 404 ∨ JS.status e = Some 400 ∨ JS.status e = None))
  ∨ (∃ customer m,
        let w1 := logged (PoolExecute SELECT_customer_by_account_number) w in
        lookup_account (PaymentRequest.account_number paymentData) (committed w)
        = Some customer
        ∧ e = JS.new_Error ("Error fetching customer: " +:+ m)
        ∧ w' = logged (PoolExecute SELECT_customer_by_id)
                 (posted_world rt (posting_of paymentData customer) w1)).
Proof.
  rewrite processPayment_run. cbn zeta.
  destruct (fault rt (length (log w))).
  { intros [= <- <-]. left. cbn. eauto. }
  destruct (lookup_account _ _) as [customer|] eqn:Hfound.
  2:{ intros [= <- <-]. left. cbn. eauto. }
  destruct (Qle_bool _ 0). { intros [= <- <-]. left. cbn. eauto. }
  destruct (PaymentService.exceeds _ _).
  { intros [= <- <-]. left. cbn. eauto. }
  destruct (Payment.create _ _ _) as [[r|e'] w2] eqn:Hcreate.
  - apply create_Return in Hcreate as (Hok & -> & ->).
    destruct (fault rt _) as [m|].
    { intros [= <- <-]. right. exists customer, m. done. }
    destruct Hok as (_ & [c Hc] & _).
    cbn [committed posted_world]. rewrite posted_customers.
    cbn [PaymentData.customer_id posting_of committed logged] in *.
    rewrite lookup_alter_eq, Hc. discriminate.
  - intros [= <- <-]. left.
    destruct (create_cases rt (posting_of paymentData customer)
                (logged (PoolExecute SELECT_customer_by_account_number) w))
      as [(m' & Hm & Heq)|[(n & e1 & a & Hnone & Hn & Ha & Heq)|[_ Heq]]];
      rewrite Hcreate in Heq; [| |discriminate].
    + injection Heq as -> ->. cbn. eauto.
    + injection Heq as -> ->. split; [done|].
      apply create_Throw in Hcreate as (_ & [(Hf & _)|(_ & _ & _ & [m ->] & _)]).
      * congruence.
      * cbn. eauto.
Qed.

Lemma processPayment_throws_witness :
  let rt := Sample.failing_runtime 8 "Connection lost" in
  let paymentData := PaymentRequest.mk "ACC001" 5000 None None None in
  let w1 := logged (PoolExecute SELECT_customer_by_account_number) Sample.world in
  let w' := logged (PoolExecute SELECT_customer_by_id)
              (posted_world rt (posting_of paymentData (1, Sample.rahul)) w1) in
  let e := JS.new_Error "Error fetching customer: Connection lost" in
  PaymentService.processPayment rt paymentData Sample.world = (Throw e, w')
  ∧ length (payments (committed w')) = 1%nat
  ∧ CustomerRow.outstanding_balance <$> customers (committed w') !! 1
    = Some (Some 14500000)
  ∧ ((committed w' = committed Sample.world
      ∧ (JS.status e = Some 404 ∨ JS.status e = Some 400 ∨ JS.status e = None))
     ∨ (∃ customer m,
          lookup_account "ACC001" (committed Sample.world) = Some customer
          ∧ e = JS.new_Error ("Error fetching customer: " +:+ m)
          ∧ w' = logged (PoolExecute SELECT_customer_by_id)
                   (posted_world rt (posting_of paymentData customer) w1))).
Proof.
  intros rt paymentData w1 w' e.
  split_and!; [vm_compute; reflexivity..|].
  apply (processPayment_throws rt paymentData Sample.world e w').
  vm_compute. reflexivity.
Defined.

(** For an amount of at most two decimals and a balance in the range of
    the column, the balance test of [processPayment] compares the
    cents. *)
Lemma in_cents_exceeds (amount : Q) (cents b : Z) :
  in_cents amount cents → -999999999999999 <= b <= 999999999999999 →
  PaymentService.exceeds amount (Some b) = bool_decide (b < cents).
Proof.
  intros Hin Hb. pose proof (in_cents_near _ _ Hin) as Hnear.
  destruct Hin as [Hc Hin].
  destruct (JS.binary64 (SQL.of_cents cents)) as [v| | |] eqn:Hv; try done.
  destruct (binary64_near (SQL.of_cents b) (of_cents_small _ Hb))
    as (u & Hu & Hunear).
  unfold PaymentService.exceeds. change (default 0 (Some b)) with b.
  rewrite (binary64_proper amount v Hin), (binary64_idempotent _ _ Hv), Hu.
  cbn [JS.le].
  apply Qabs_Qle_condition in Hnear, Hunear.
  rewrite Hin in Hnear. rewrite !of_cents_hundredths in *.
  case_bool_decide as Hlt.
  - apply negb_true_iff. destruct (Qle_bool v u) eqn:E; [|done].
    apply Qle_bool_iff in E.
    assert (inject_Z (b + 1) <= inject_Z cents)%Q as H
      by (rewrite <- Zle_Qle; lia).
    rewrite inject_Z_plus in H. change (inject_Z 1) with 1%Q in H. lra.
  - apply negb_false_iff, Qle_bool_iff.
    destruct (decide (cents = b)) as [->|Hne].
    + rewrite Hv in Hu. injection Hu as ->. lra.
    + assert (inject_Z (cents + 1) <= inject_Z b)%Q as H
        by (rewrite <- Zle_Qle; lia).
      rewrite inject_Z_plus in H. change (inject_Z 1) with 1%Q in H. lra.
Qed.

(** X25.  The balance test on amounts of two decimals.  For an amount of
    at most two decimals, the number written [cents / 100], positive,
    against a customer whose balance is [b] cents, in the range of the
    column, with no storage error and an unused reference:
    [processPayment] posts the payment exactly when [cents <= b], and then
    reports the balance [b - cents] and records [cents]; when [b < cents]
    it throws with status 400 after the lookup.  So an amount equal to
    the balance is accepted and leaves a balance of zero. *)
Theorem processPayment_two_decimals rt paymentData w customer b cents :
  lookup_account (PaymentRequest.account_number paymentData) (committed w)
  = Some customer →
  CustomerRow.outstanding_balance customer.2 = Some b →
  0 <= b <= 999999999999999 →
  in_cents (PaymentRequest.payment_amount paymentData) cents →
  0 < cents →
  (∀ k, (k < 9)%nat → fault rt (k + length (log w)) = None) →
  Payment.payment_reference rt
    ∉ (PaymentRow.payment_reference_id <$> payments (committed w)) →
  if bool_decide (cents <= b)
  then ∃ result w',
         PaymentService.processPayment rt paymentData w = (Return result, w')
         ∧ CustomerSummary.outstanding_balance (ProcessedPayment.customer result)
           = Some (b - cents)
         ∧ PaymentRow.payment_amount <$> payments (committed w')
           = (PaymentRow.payment_amount <$> payments (committed w)) ++ [cents]
  else PaymentService.processPayment rt paymentData w
       = (Throw (JS.mkError "Payment amount exceeds outstanding balance"
                   (Some 400)),
          logged (PoolExecute SELECT_customer_by_account_number) w).
Proof.
  intros Hfound Hb Hrange Hin Hpos Hf Hfresh.
  rewrite processPayment_run. cbn zeta.
  pose proof (Hf 0%nat ltac:(lia)) as F0. cbn in F0. rewrite F0, Hfound.
  assert (Qle_bool (PaymentRequest.payment_amount paymentData) 0 = false) as ->.
  { destruct (Qle_bool _ 0) eqn:E; [|done]. apply Qle_bool_iff in E.
    pose proof (in_cents_near _ _ Hin) as Hnear.
    apply Qabs_Qle_condition in Hnear. rewrite of_cents_hundredths in Hnear.
    assert (inject_Z 1 <= inject_Z cents)%Q as H by (rewrite <- Zle_Qle; lia).
    change (inject_Z 1) with 1%Q in H. lra. }
  rewrite Hb, (in_cents_exceeds _ cents b Hin) by lia.
  case_bool_decide as Hle.
  - rewrite bool_decide_eq_false_2 by lia.
    apply lookup_account_Some in Hfound as [Hc _].
    rewrite create_ok.
    + cbn [log posted_world logged length].
      pose proof (Hf 8%nat ltac:(lia)) as F8. cbn in F8. rewrite F8.
      cbn [committed posted_world]. rewrite posted_customers.
      cbn [PaymentData.customer_id PaymentData.payment_amount posting_of
             committed logged].
      rewrite lookup_alter_eq, Hc. cbn.
      eexists _, _. split; [done|]. cbn.
      rewrite (minus_in_cents _ _ cents Hin), Hb. split; [done|].
      rewrite posted_payments, fmap_app. cbn.
      by rewrite (to_cents_in_cents _ cents Hin).
    + split_and!.
      * intros k Hk. cbn [log logged length].
        replace (k + S (length (log w)))%nat
          with (S k + length (log w))%nat by lia.
        apply Hf. lia.
      * cbn. by rewrite Hc.
      * done.
  - by rewrite bool_decide_eq_true_2 by lia.
Qed.

Lemma processPayment_two_decimals_witness :
  let paymentData :=
    PaymentRequest.mk "ACC001" (number (123499 # 100)) None None None in
  in_cents (PaymentRequest.payment_amount paymentData) 123499
  ∧ ∃ result w',
      PaymentService.processPayment Sample.first_runtime paymentData
        Sample.last_instalment
      = (Return result, w')
      ∧ CustomerSummary.outstanding_balance (ProcessedPayment.customer result)
        = Some (123499 - 123499)
      ∧ PaymentRow.payment_amount <$> payments (committed w')
        = (PaymentRow.payment_amount
             <$> payments (committed Sample.last_instalment)) ++ [123499].
Proof.
  intros paymentData.
  assert (in_cents (PaymentRequest.payment_amount paymentData) 123499) as Hin.
  { split; [lia|]. vm_compute. reflexivity. }
  split; [exact Hin|].
  apply (processPayment_two_decimals Sample.first_runtime paymentData
           Sample.last_instalment
           (1, CustomerRow.mk "ACC001" "Rahul Kumar" 500000 (Some 123499)
                 ACTIVE 0)
           123499 123499).
  - vm_compute. reflexivity.
  - reflexivity.
  - lia.
  - exact Hin.
  - lia.
  - reflexivity.
  - vm_compute. apply not_elem_of_nil.
Defined.

(** ** The reading functions of [models/Payment.js] and [models/Customer.js] *)

Lemma digits_value_letter s1 s2 acc :
  SQL.digits_value acc (s1 +:+ String "e" s2) = None.
Proof.
  revert acc. induction s1 as [|c s1 IH]; intros acc; [done|].
  change (String c s1 +:+ String "e" s2)
    with (String c (s1 +:+ String "e" s2)).
  cbn [SQL.digits_value]. destruct (Ascii.is_nat c); [apply IH|done].
Qed.

(** A number that reads back as a [LIMIT] or [OFFSET] reads back as
    itself, and is at most [2^64 - 1]. *)
Lemma unsigned_literal_natural n m :
  0 <= n →
  SQL.unsigned_literal (JS.natural_to_string n) = Some m →
  m = n ∧ n <= 18446744073709551615.
Proof.
  intros Hn. unfold JS.natural_to_string. destruct (n <? 10 ^ 21) eqn:E.
  - destruct (digits_value_pretty n Hn) as [Hne Hv].
    unfold SQL.unsigned_literal. rewrite Hv. destruct (pretty n); [done|].
    destruct (n <=? 18446744073709551615) eqn:E'; [|done].
    intros [= <-]. split; [done|]. by apply Z.leb_le.
  - unfold JS.exponent_form, SQL.unsigned_literal.
    match goal with
    | |- context [?x +:+ "e+" +:+ ?y] =>
        change (x +:+ "e+" +:+ y) with (x +:+ String "e" ("+" +:+ y));
        rewrite (digits_value_letter x ("+" +:+ y) 0)
    end.
    by destruct (_ +:+ _).
Qed.

Lemma paginate_of_Z {A} l o (rows page : list A) :
  0 <= l → 0 <= o →
  SQL.paginate (JS.NumberToString (JS.of_Z l)) (JS.NumberToString (JS.of_Z o)) rows
  = inr page →
  page = take (Z.to_nat l) (drop (Z.to_nat o) rows)
  ∧ l <= 18446744073709551615 ∧ o <= 18446744073709551615.
Proof.
  intros Hl Ho. unfold SQL.paginate. rewrite !NumberToString_natural by done.
  cbn.
  destruct (SQL.unsigned_literal (JS.natural_to_string l)) as [l'|] eqn:El;
    [|done].
  destruct (SQL.unsigned_literal (JS.natural_to_string o)) as [o'|] eqn:Eo;
    [|done].
  apply unsigned_literal_natural in El as [-> ?]; [|done].
  apply unsigned_literal_natural in Eo as [-> ?]; [|done].
  by intros [= <-].
Qed.

Lemma sanitize_nonneg d v :
  0 <= d → ∃ n, JS.sanitize d v = JS.of_Z n ∧ 0 <= n.
Proof.
  intros Hd. rewrite sanitize_value. eexists. split; [done|].
  destruct (JS.as_finite v); lia.
Qed.

Lemma Payment_findByAccountNumber_run rt accountNumber limit offset w :
  Payment.findByAccountNumber rt accountNumber limit offset w
  = (match fault rt (length (log w)) with
     | Some m => Throw (JS.new_Error ("Error fetching payments: " +:+ m))
     | None =>
         match SQL.payments_by_account_number accountNumber
                 (JS.NumberToString (safeLimit limit))
                 (JS.NumberToString (safeOffset offset)) (committed w) with
         | inl m => Throw (JS.new_Error ("Error fetching payments: " +:+ m))
         | inr rows => Return rows
         end
     end, logged (PoolQuery SELECT_payments_by_account_number) w).
Proof.
  unfold Payment.findByAccountNumber, try_catch, bind.
  rewrite pool_query_run. cbn zeta.
  destruct (fault rt (length (log w))); [done|].
  fold (safeLimit limit). fold (safeOffset offset).
  by destruct (SQL.payments_by_account_number _ _ _ _).
Qed.

Lemma Payment_countByAccountNumber_run rt accountNumber w :
  Payment.countByAccountNumber rt accountNumber w
  = (match fault rt (length (log w)) with
     | Some m => Throw (JS.new_Error ("Error counting payments: " +:+ m))
     | None => Return (SQL.count_by_account_number accountNumber (committed w))
     end, logged (PoolExecute SELECT_count_by_account_number) w).
Proof.
  unfold Payment.countByAccountNumber, try_catch, bind.
  rewrite pool_execute_run. cbn zeta.
  by destruct (fault rt (length (log w))).
Qed.

Lemma order_by_date_desc_length {A} (date : A → Z) (rows : list A) :
  length (SQL.order_by_date_desc date rows) = length rows.
Proof. apply Permutation_length, merge_sort_Permutation. Qed.

(** X9.  A page and its total.  When [findByAccountNumber] returns a
    page and [countByAccountNumber], run on the same data, returns the
    total, the sanitized limit [l] and offset [o] are integers between 0
    and [2^64 - 1], the page holds exactly [min l (max 0 (total - o))]
    rows, and none of them has a status other than SUCCESS or FAILED:
    pending and reversed payments are neither listed nor counted. *)
Theorem findByAccountNumber_page rt rt' accountNumber limit offset w
    rows w1 total w2 :
  Payment.findByAccountNumber rt accountNumber limit offset w
  = (Return rows, w1) →
  Payment.countByAccountNumber rt' accountNumber w1 = (Return total, w2) →
  ∃ l o,
    safeLimit limit = JS.of_Z l ∧ safeOffset offset = JS.of_Z o
    ∧ 0 <= l <= 18446744073709551615 ∧ 0 <= o <= 18446744073709551615
    ∧ Z.of_nat (length rows) = Z.min l (Z.max 0 (total - o))
    ∧ total
      = Z.of_nat (length (filter (λ p, PaymentRow.account_number p = accountNumber
                                       ∧ SQL.success_or_failed p)
                            (payments (committed w))))
    ∧ Forall (λ p, PaymentRow.status p = SUCCESS ∨ PaymentRow.status p = FAILED)
        rows.
Proof.
  rewrite Payment_findByAccountNumber_run, Payment_countByAccountNumber_run.
  destruct (fault rt (length (log w))); [discriminate|].
  destruct (SQL.payments_by_account_number _ _ _ _) as [m|rows'] eqn:E;
    [discriminate|].
  intros [= <- <-]. destruct (fault rt' _); [discriminate|].
  intros [= <- <-]. cbn [committed logged].
  destruct (sanitize_nonneg 50 (JS.default_param (JS.VNumber (JS.of_Z 50)) limit))
    as (l & Hl & Hl0); [lia|].
  destruct (sanitize_nonneg 0 (JS.default_param (JS.VNumber (JS.of_Z 0)) offset))
    as (o & Ho & Ho0); [lia|].
  fold (safeLimit limit) in Hl. fold (safeOffset offset) in Ho.
  exists l, o. rewrite Hl, Ho in E |- *.
  unfold SQL.payments_by_account_number in E.
  apply paginate_of_Z in E as (-> & Hlmax & Homax); [|done..].
  unfold SQL.count_by_account_number.
  split_and!; try done.
  - rewrite length_take, length_drop, order_by_date_desc_length. lia.
  - apply Forall_forall. intros p Hp.
    apply subseteq_take, subseteq_drop in Hp.
    apply (elem_of_Permutation_proper _ _ _ (merge_sort_Permutation _ _)) in Hp.
    by apply list_elem_of_filter in Hp as [[_ Hs] _].
Qed.

Lemma findByAccountNumber_page_witness :
  let w := posted_world Sample.second_runtime Sample.posting
             (posted_world Sample.first_runtime Sample.posting Sample.world) in
  let w1 := logged (PoolQuery SELECT_payments_by_account_number) w in
  let rows := [posted_row Sample.second_runtime Sample.posting
                 (posted_world Sample.first_runtime Sample.posting Sample.world)] in
  Payment.findByAccountNumber Sample.first_runtime "ACC001"
    (JS.VNumber (JS.of_Z 1)) JS.VUndefined w = (Return rows, w1)
  ∧ Payment.countByAccountNumber Sample.first_runtime "ACC001" w1
    = (Return 2, logged (PoolExecute SELECT_count_by_account_number) w1)
  ∧ ∃ l o,
      safeLimit (JS.VNumber (JS.of_Z 1)) = JS.of_Z l
      ∧ safeOffset JS.VUndefined = JS.of_Z o
      ∧ 0 <= l <= 18446744073709551615 ∧ 0 <= o <= 18446744073709551615
      ∧ Z.of_nat (length rows) = Z.min l (Z.max 0 (2 - o))
      ∧ 2 = Z.of_nat (length (filter (λ p, PaymentRow.account_number p = "ACC001"
                                           ∧ SQL.success_or_failed p)
                                (payments (committed w))))
      ∧ Forall (λ p, PaymentRow.status p = SUCCESS ∨ PaymentRow.status p = FAILED)
          rows.
Proof.
  intros w w1 rows.
  assert (Payment.findByAccountNumber Sample.first_runtime "ACC001"
            (JS.VNumber (JS.of_Z 1)) JS.VUndefined w = (Return rows, w1)) as H1
    by (vm_compute; reflexivity).
  assert (Payment.countByAccountNumber Sample.first_runtime "ACC001" w1
          = (Return 2, logged (PoolExecute SELECT_count_by_account_number) w1))
    as H2 by (vm_compute; reflexivity).
  split; [exact H1|]. split; [exact H2|].
  exact (findByAccountNumber_page _ _ _ _ _ _ _ _ _ _ H1 H2).
Defined.

Lemma Payment_getPaymentStats_run rt customerId w :
  Payment.getPaymentStats rt customerId w
  = (match fault rt (length (log w)) with
     | Some m => Throw (JS.new_Error ("Error fetching payment statistics: " +:+ m))
     | None => Return (head (SQL.payment_stats customerId (committed w)))
     end, logged (PoolExecute SELECT_payment_stats) w).
Proof.
  unfold Payment.getPaymentStats, try_catch, bind.
  rewrite pool_execute_run. cbn zeta.
  by destruct (fault rt (length (log w))).
Qed.

Lemma sum_snoc xs x :
  SQL.sum (xs ++ [x]) = Some (default 0 (SQL.sum xs) + x).
Proof.
  assert (∀ l, foldr Z.add 0 (l ++ [x]) = foldr Z.add 0 l + x) as Hfold
    by (induction l as [|z l IH]; cbn in *; lia).
  unfold SQL.sum. destruct xs as [|y xs]; [cbn; f_equal; lia|].
  rewrite <- app_comm_cons, app_comm_cons, Hfold. done.
Qed.

Lemma max_of_snoc xs x :
  SQL.max_of (xs ++ [x])
  = Some (match SQL.max_of xs with Some m => Z.max m x | None => x end).
Proof.
  unfold SQL.max_of. destruct xs as [|y xs]; [done|].
  cbn [app]. f_equal. revert y. induction xs as [|z xs IH]; intros y; cbn.
  - lia.
  - specialize (IH y). cbn in IH. lia.
Qed.

Lemma failed_count_bounds l :
  0 <= foldr Z.add 0 (SQL.failed_one <$> l) <= Z.of_nat (length l).
Proof.
  induction l as [|q l IH]; cbn [fmap list_fmap foldr length]; [lia|].
  unfold SQL.failed_one at 1 3. case_decide; lia.
Qed.

(** X10.  Statistics always come as a row.  When [getPaymentStats]
    returns, it returns a row, never [null]: for a customer without
    payments (or an unknown customer) the row counts 0 payments and its
    sums and its last date are [NULL]; for any other it counts the
    customer's rows of every status, and its failed count lies between 0
    and that total. *)
Theorem getPaymentStats_row rt customerId w stats w1 :
  Payment.getPaymentStats rt customerId w = (Return stats, w1) →
  ∃ s,
    stats = Some s
    ∧ PaymentStats.total_payments s
      = Z.of_nat (length (filter (λ p, PaymentRow.customer_id p = customerId)
                            (payments (committed w))))
    ∧ (PaymentStats.total_payments s = 0 →
       PaymentStats.total_paid s = None
       ∧ PaymentStats.failed_payments s = None
       ∧ PaymentStats.last_payment_date s = None)
    ∧ (0 < PaymentStats.total_payments s →
       ∃ paid failed last,
         PaymentStats.total_paid s = Some paid
         ∧ PaymentStats.failed_payments s = Some failed
         ∧ PaymentStats.last_payment_date s = Some last
         ∧ 0 <= failed <= PaymentStats.total_payments s).
Proof.
  rewrite Payment_getPaymentStats_run.
  destruct (fault rt (length (log w))); [discriminate|].
  intros [= <- <-]. eexists. split; [reflexivity|]. cbn.
  split; [done|].
  destruct (filter _ (payments (committed w))) as [|p rows]; cbn.
  - split; [done|lia].
  - split; [lia|]. intros _. eexists _, _, _. split_and!; [done..| |];
      pose proof (failed_count_bounds (p :: rows)) as Hb; cbn in Hb; lia.
Qed.

Lemma getPaymentStats_row_witness :
  ∃ s,
    Payment.getPaymentStats Sample.first_runtime 99999 Sample.world
    = (Return (Some s), logged (PoolExecute SELECT_payment_stats) Sample.world)
    ∧ PaymentStats.total_payments s = 0
    ∧ PaymentStats.total_paid s = None
    ∧ PaymentStats.failed_payments s = None
    ∧ PaymentStats.last_payment_date s = None.
Proof.
  destruct (getPaymentStats_row Sample.first_runtime 99999 Sample.world
              (Some (PaymentStats.mk 0 None None None))
              (logged (PoolExecute SELECT_payment_stats) Sample.world) eq_refl)
    as (s & Hs & Ht & Hzero & _).
  injection Hs as <-. eexists. split; [reflexivity|].
  split; [reflexivity|]. exact (Hzero eq_refl).
Defined.

(** X11.  Statistics follow a posting.  After a successful posting the
    statistics of the customer count one payment more, the total paid
    grows by the amount as stored (from 0 when it was [NULL]), the failed
    count is kept (0 when it was [NULL]), and the last payment date is the
    later of the old one and the date stored; the statistics of every
    other customer are unchanged. *)
Theorem getPaymentStats_after_posting rt paymentData w r w' :
  Payment.create rt paymentData w = (Return r, w') →
  let customer_id := PaymentData.customer_id paymentData in
  let date := SQL.to_datetime (new_Date rt) in
  (∀ rt1 rt2 before w1 after w2,
      Payment.getPaymentStats rt1 customer_id w = (Return before, w1) →
      Payment.getPaymentStats rt2 customer_id w' = (Return after, w2) →
      ∃ s0 s1,
        before = Some s0 ∧ after = Some s1
        ∧ PaymentStats.total_payments s1 = PaymentStats.total_payments s0 + 1
        ∧ PaymentStats.total_paid s1
          = Some (default 0 (PaymentStats.total_paid s0)
                  + SQL.to_cents (PaymentData.payment_amount paymentData))
        ∧ PaymentStats.failed_payments s1
          = Some (default 0 (PaymentStats.failed_payments s0))
        ∧ PaymentStats.last_payment_date s1
          = Some (match PaymentStats.last_payment_date s0 with
                  | Some d => Z.max d date
                  | None => date
                  end))
  ∧ (∀ other, other ≠ customer_id →
              SQL.payment_stats other (committed w')
              = SQL.payment_stats other (committed w)).
Proof.
  intros H customer_id date. apply create_Return in H as (_ & _ & ->).
  cbn [committed posted_world]. split.
  - intros rt1 rt2 before w1 after w2.
    rewrite !Payment_getPaymentStats_run.
    destruct (fault rt1 _); [discriminate|]. intros [= <- <-].
    destruct (fault rt2 _); [discriminate|]. intros [= <- <-].
    cbn [committed posted_world]. eexists _, _.
    split; [reflexivity|]. split; [reflexivity|].
    unfold SQL.payment_stats. rewrite posted_payments, filter_app.
    rewrite (filter_cons_True _ (posted_row rt paymentData w)) by done.
    rewrite filter_nil. cbn [head PaymentStats.total_payments
      PaymentStats.total_paid PaymentStats.failed_payments
      PaymentStats.last_payment_date].
    rewrite !fmap_app, length_app. cbn [fmap list_fmap length].
    rewrite sum_snoc, sum_snoc, max_of_snoc.
    assert (SQL.failed_one (posted_row rt paymentData w) = 0) as -> by done.
    split_and!; [lia|done| |done].
    f_equal. lia.
  - intros other Hother. unfold SQL.payment_stats.
    rewrite posted_payments, filter_app.
    rewrite (filter_cons_False _ (posted_row rt paymentData w)) by done.
    by rewrite filter_nil, app_nil_r.
Qed.

Lemma getPaymentStats_after_posting_witness :
  let w' := posted_world Sample.first_runtime Sample.posting Sample.world in
  ∃ s1,
    Payment.getPaymentStats Sample.second_runtime 1 w'
    = (Return (Some s1), logged (PoolExecute SELECT_payment_stats) w')
    ∧ PaymentStats.total_payments s1 = 1
    ∧ PaymentStats.total_paid s1 = Some 500000
    ∧ PaymentStats.failed_payments s1 = Some 0
    ∧ PaymentStats.last_payment_date s1 = Some 1700000000.
Proof.
  intros w'.
  destruct (getPaymentStats_after_posting Sample.first_runtime Sample.posting
              Sample.world
              (posted_record Sample.first_runtime Sample.posting Sample.world) w')
    as [Hstats _]; [vm_compute; reflexivity|].
  destruct (Hstats Sample.first_runtime Sample.second_runtime
              (Some (PaymentStats.mk 0 None None None))
              (logged (PoolExecute SELECT_payment_stats) Sample.world)
              (head (SQL.payment_stats 1 (committed w')))
              (logged (PoolExecute SELECT_payment_stats) w') eq_refl eq_refl)
    as (s0 & s1 & Hs0 & Hs1 & Ht & Hp & Hf & Hl).
  injection Hs0 as <-. exists s1. rewrite <- Hs1.
  split; [reflexivity|]. split_and!; [exact Ht|exact Hp|exact Hf|exact Hl].
Defined.

Lemma Customer_findWithPaymentInfo_run rt accountNumber w :
  Customer.findWithPaymentInfo rt accountNumber w
  = (match fault rt (length (log w)) with
     | Some m =>
         Throw (JS.new_Error ("Error fetching customer with payment info: " +:+ m))
     | None =>
         Return (head (SQL.customers_with_payment_info accountNumber (committed w)))
     end, logged (PoolExecute SELECT_customer_with_payment_info) w).
Proof.
  unfold Customer.findWithPaymentInfo, try_catch, bind.
  rewrite pool_execute_run. cbn zeta.
  by destruct (fault rt (length (log w))).
Qed.

(** Under the unique index an account number selects at most one
    customer. *)
Lemma filter_account_number d k c
    (dec : ∀ kc : Z * CustomerRow.t,
        Decision (CustomerRow.account_number kc.2 = CustomerRow.account_number c)) :
  unique_account_numbers d →
  customers d !! k = Some c →
  @filter _ _ _ (λ kc : Z * CustomerRow.t,
                   CustomerRow.account_number kc.2 = CustomerRow.account_number c)
    dec (map_to_list (customers d))
  = [(k, c)].
Proof.
  intros Hu Hk.
  pose proof (@NoDup_filter _ (λ kc : Z * CustomerRow.t,
                                 CustomerRow.account_number kc.2
                                 = CustomerRow.account_number c)
                dec _ (NoDup_map_to_list (customers d))) as Hnd.
  assert (∀ x, x ∈ @filter _ _ _
                     (λ kc : Z * CustomerRow.t,
                        CustomerRow.account_number kc.2
                        = CustomerRow.account_number c)
                     dec (map_to_list (customers d)) ↔ x = (k, c)) as Hall.
  { intros [k' c']. rewrite list_elem_of_filter, elem_of_map_to_list. cbn.
    split.
    - intros [Ha Hk']. assert (k' = k) as -> by eauto. congruence.
    - intros [= -> ->]. done. }
  destruct (filter _ _) as [|x [|y l]].
  - specialize (proj2 (Hall (k, c)) eq_refl). by intros ?%elem_of_nil.
  - f_equal. apply Hall. by left.
  - exfalso. assert (x = (k, c)) as -> by (apply Hall; by left).
    assert (y = (k, c)) as -> by (apply Hall; right; by left).
    apply NoDup_cons in Hnd as [Hn _]. apply Hn. by left.
Qed.

Lemma lookup_by_account_number d accountNumber kc :
  unique_account_numbers d →
  head (filter (λ kc : Z * CustomerRow.t,
                  CustomerRow.account_number kc.2 = accountNumber)
          (map_to_list (customers d))) = Some kc →
  customers d !! kc.1 = Some kc.2
  ∧ CustomerRow.account_number kc.2 = accountNumber.
Proof.
  intros Hu H. apply head_Some_elem_of, list_elem_of_filter in H as [Ha H].
  destruct kc as [k c]. by apply elem_of_map_to_list in H.
Qed.

Lemma posted_unique_account_numbers rt paymentData w :
  unique_account_numbers (committed w) →
  unique_account_numbers (posted_database rt paymentData w).
Proof.
  intros Hu k1 k2 c1 c2. rewrite posted_customers.
  intros H1 H2.
  apply lookup_alter_Some in H1 as [(_ & c1' & H1 & ->)|[_ H1]];
    apply lookup_alter_Some in H2 as [(_ & c2' & H2 & ->)|[_ H2]];
    cbn; eauto.
Qed.

(** X12.  A posting moves money from the balance to the total paid.
    With account numbers unique, as the schema has them, and an amount
    of at most two decimals, the number written [cents / 100]: if
    [findWithPaymentInfo] reported the
    customer with balance [b] before a successful posting for that
    customer, then after it it reports the same customer with balance
    [b - amount], one successful payment more, and a total paid that grew
    by the amount (from 0 when it was [NULL]): the sum of the balance and
    the total paid is what it was. *)
Theorem findWithPaymentInfo_after_posting rt paymentData w r w' cents
    rt1 rt2 accountNumber before w1 after w2 b :
  unique_account_numbers (committed w) →
  Payment.create rt paymentData w = (Return r, w') →
  in_cents (PaymentData.payment_amount paymentData) cents →
  Customer.findWithPaymentInfo rt1 accountNumber w = (Return (Some before), w1) →
  (CustomerPaymentInfo.customer before).1 = PaymentData.customer_id paymentData →
  CustomerRow.outstanding_balance (CustomerPaymentInfo.customer before).2
  = Some b →
  Customer.findWithPaymentInfo rt2 accountNumber w' = (Return after, w2) →
  ∃ info balance paid,
    after = Some info
    ∧ (CustomerPaymentInfo.customer info).1 = PaymentData.customer_id paymentData
    ∧ CustomerRow.outstanding_balance (CustomerPaymentInfo.customer info).2
      = Some balance
    ∧ CustomerPaymentInfo.total_paid info = Some paid
    ∧ balance = b - cents
    ∧ paid = default 0 (CustomerPaymentInfo.total_paid before) + cents
    ∧ balance + paid = b + default 0 (CustomerPaymentInfo.total_paid before)
    ∧ CustomerPaymentInfo.total_payments info
      = CustomerPaymentInfo.total_payments before + 1.
Proof.
  intros Hu H Hcents. apply create_Return in H as (_ & _ & ->).
  rewrite !Customer_findWithPaymentInfo_run.
  destruct (fault rt1 _); [discriminate|]. intros [= Hbefore <-] Hid Hb.
  destruct (fault rt2 _); [discriminate|]. intros [= <- <-].
  cbn [committed posted_world].
  unfold SQL.customers_with_payment_info in *.
  destruct (filter _ (map_to_list (customers (committed w))))
    as [|[k c] l] eqn:Hfilter; [discriminate|].
  cbn in Hbefore. injection Hbefore as <-. cbn in Hid, Hb. subst k.
  assert ((PaymentData.customer_id paymentData, c)
          ∈ (PaymentData.customer_id paymentData, c) :: l) as Hin by left.
  rewrite <- Hfilter in Hin.
  apply list_elem_of_filter in Hin as [Ha Hc]. cbn in Ha. subst accountNumber.
  apply elem_of_map_to_list in Hc.
  assert (customers (posted_database rt paymentData w)
            !! PaymentData.customer_id paymentData
          = Some (SQL.decrement_balance
                    (PaymentData.payment_amount paymentData) c)) as Hc'
    by (by rewrite posted_customers, lookup_alter_eq, Hc).
  pose proof (filter_account_number (posted_database rt paymentData w)
                (PaymentData.customer_id paymentData)
                (SQL.decrement_balance
                   (PaymentData.payment_amount paymentData) c)
                (λ x : Z * CustomerRow.t,
                   decide_rel eq (CustomerRow.account_number x.2)
                     (CustomerRow.account_number c))
                (posted_unique_account_numbers rt paymentData w Hu) Hc') as Hf'.
  cbn [SQL.decrement_balance CustomerRow.account_number] in Hf'.
  rewrite Hf'. cbn [fmap list_fmap head].
  unfold SQL.with_payment_info, SQL.successful_of.
  cbn [fst snd CustomerPaymentInfo.customer CustomerPaymentInfo.total_paid
         CustomerPaymentInfo.total_payments CustomerRow.outstanding_balance
         SQL.decrement_balance].
  rewrite posted_payments, filter_app.
  rewrite (filter_cons_True _ (posted_row rt paymentData w)) by done.
  rewrite filter_nil, fmap_app, length_app.
  cbn [fmap list_fmap length PaymentRow.payment_amount posted_row].
  rewrite sum_snoc.
  assert (SQL.to_cents (PaymentData.payment_amount paymentData) = cents) as ->
    by (by apply to_cents_in_cents).
  eexists _, (b - cents), _. split; [reflexivity|].
  cbn [fst snd CustomerPaymentInfo.customer CustomerPaymentInfo.total_paid
         CustomerPaymentInfo.total_payments CustomerRow.outstanding_balance
         SQL.decrement_balance].
  rewrite (minus_in_cents _ _ cents Hcents), Hb.
  split_and!; try done; try reflexivity; lia.
Qed.

Lemma Sample_unique_account_numbers : unique_account_numbers Sample.database.
Proof.
  intros k1 k2 c1 c2 H1 H2 Ha.
  apply elem_of_map_to_list in H1, H2.
  let l := eval vm_compute in (map_to_list (customers Sample.database)) in
  change (map_to_list (customers Sample.database)) with l in H1, H2.
  rewrite !elem_of_cons, elem_of_nil in H1, H2.
  destruct H1 as [[= -> ->]|[[= -> ->]|[]]];
    destruct H2 as [[= -> ->]|[[= -> ->]|[]]];
    try done; discriminate.
Qed.

Lemma findWithPaymentInfo_after_posting_witness :
  let w' := posted_world Sample.first_runtime Sample.precise_posting
              Sample.world in
  in_cents (PaymentData.payment_amount Sample.precise_posting) 123499
  ∧ ∃ info balance paid,
      Customer.findWithPaymentInfo Sample.second_runtime "ACC001" w'
      = (Return (Some info),
         logged (PoolExecute SELECT_customer_with_payment_info) w')
      ∧ CustomerRow.outstanding_balance (CustomerPaymentInfo.customer info).2
        = Some balance
      ∧ CustomerPaymentInfo.total_paid info = Some paid
      ∧ balance = 14876501 ∧ paid = 123499.
Proof.
  intros w'.
  assert (in_cents (PaymentData.payment_amount Sample.precise_posting) 123499)
    as Hcents.
  { split; [lia|]. vm_compute. reflexivity. }
  split; [exact Hcents|].
  destruct (findWithPaymentInfo_after_posting Sample.first_runtime
              Sample.precise_posting Sample.world
              (posted_record Sample.first_runtime Sample.precise_posting
                 Sample.world)
              w' 123499 Sample.first_runtime Sample.second_runtime "ACC001"
              (SQL.with_payment_info Sample.database (1, Sample.rahul))
              (logged (PoolExecute SELECT_customer_with_payment_info) Sample.world)
              (head (SQL.customers_with_payment_info "ACC001" (committed w')))
              (logged (PoolExecute SELECT_customer_with_payment_info) w')
              15000000)
    as (info & balance & paid & Hinfo & _ & Hbal & Hpaid & Hb & Hp & _).
  - apply Sample_unique_account_numbers.
  - vm_compute. reflexivity.
  - exact Hcents.
  - vm_compute. reflexivity.
  - reflexivity.
  - reflexivity.
  - reflexivity.
  - exists info, balance, paid. rewrite <- Hinfo.
    split; [vm_compute; reflexivity|]. by split_and!.
Defined.

Lemma Payment_findByReferenceId_run rt referenceId w :
  Payment.findByReferenceId rt referenceId w
  = (match fault rt (length (log w)) with
     | Some m => Throw (JS.new_Error ("Error fetching payment: " +:+ m))
     | None => Return (head (SQL.payments_by_reference_id referenceId (committed w)))
     end, logged (PoolExecute SELECT_payment_by_reference_id) w).
Proof.
  unfold Payment.findByReferenceId, try_catch, bind.
  rewrite pool_execute_run. cbn zeta.
  by destruct (fault rt (length (log w))).
Qed.

Lemma head_filter_unique {A B} `{EqDecision B} (f : A → B) (l : list A) y :
  NoDup (f <$> l) → y ∈ l →
  head (filter (λ x, f x = f y) l) = Some y.
Proof.
  induction l as [|a l IH]; intros Hnd Hy; [by apply elem_of_nil in Hy|].
  rewrite fmap_cons in Hnd. apply NoDup_cons in Hnd as [Ha Hnd].
  apply elem_of_cons in Hy as [->|Hy].
  - by rewrite filter_cons_True.
  - rewrite filter_cons_False; [by apply IH|].
    intros Heq. apply Ha. rewrite Heq. apply list_elem_of_fmap. eauto.
Qed.

(** X13.  Looking a payment up by its reference.  With the references
    pairwise distinct, as the unique index keeps them,
    [findByReferenceId] returns a row exactly when it is the row of the
    table with that reference, and returns [null], not an error, exactly
    when no row has it.  It changes nothing. *)
Theorem findByReferenceId_finds rt referenceId w found w1 :
  NoDup (PaymentRow.payment_reference_id <$> payments (committed w)) →
  Payment.findByReferenceId rt referenceId w = (Return found, w1) →
  (∀ row, found = Some row
          ↔ row ∈ payments (committed w)
            ∧ PaymentRow.payment_reference_id row = referenceId)
  ∧ (found = None
     ↔ referenceId ∉ (PaymentRow.payment_reference_id <$> payments (committed w)))
  ∧ committed w1 = committed w.
Proof.
  intros Hnd. rewrite Payment_findByReferenceId_run.
  destruct (fault rt (length (log w))); [discriminate|].
  intros [= <- <-]. unfold SQL.payments_by_reference_id.
  assert (∀ row, head (filter (λ p, PaymentRow.payment_reference_id p = referenceId)
                         (payments (committed w))) = Some row
                 ↔ row ∈ payments (committed w)
                   ∧ PaymentRow.payment_reference_id row = referenceId) as Hrow.
  { intros row. split.
    - intros H. apply head_Some_elem_of, list_elem_of_filter in H. tauto.
    - intros [Hin <-]. by apply head_filter_unique. }
  split_and!; [done| |done].
  split.
  - intros Hnone Hin. apply list_elem_of_fmap in Hin as (row & -> & Hin).
    assert (head (filter (λ p, PaymentRow.payment_reference_id p
                               = PaymentRow.payment_reference_id row)
                    (payments (committed w))) = Some row) as Hsome
      by (by apply Hrow).
    congruence.
  - intros Hnot. destruct (head _) as [row|] eqn:E; [|done].
    destruct (proj1 (Hrow row) eq_refl) as [Hin <-]. exfalso. apply Hnot.
    apply list_elem_of_fmap. eauto.
Qed.

Lemma findByReferenceId_finds_witness :
  let w := posted_world Sample.first_runtime Sample.posting Sample.world in
  Payment.findByReferenceId Sample.second_runtime "PAY-0-00000000" w
  = (Return None, logged (PoolExecute SELECT_payment_by_reference_id) w)
  ∧ "PAY-0-00000000"
      ∉ (PaymentRow.payment_reference_id <$> payments (committed w)).
Proof.
  intros w.
  assert (Payment.findByReferenceId Sample.second_runtime "PAY-0-00000000" w
          = (Return None, logged (PoolExecute SELECT_payment_by_reference_id) w))
    as H by (vm_compute; reflexivity).
  split; [exact H|].
  destruct (findByReferenceId_finds Sample.second_runtime "PAY-0-00000000" w
              None (logged (PoolExecute SELECT_payment_by_reference_id) w))
    as (_ & Hnone & _).
  - apply NoDup_singleton.
  - exact H.
  - by apply Hnone.
Defined.

Lemma length_omap_total {A B} (f : A → option B) (l : list A) :
  Forall (λ x, is_Some (f x)) l → length (omap f l) = length l.
Proof.
  induction 1 as [|x l [y Hy] _ IH]; [done|]. cbn. rewrite Hy. cbn. by rewrite IH.
Qed.

(** X14.  The detailed history is complete up to 100 rows.  When every
    payment row names a customer of the table, as the foreign key has it,
    [getPaymentHistory] returns [min 100 n] rows, [n] being the number of
    payment rows of the account, whatever their status; when [n] is at
    most 100, every payment row of the account is in the history, pending
    and reversed ones included, joined with its customer's current
    columns. *)
Theorem getPaymentHistory_complete rt accountNumber w rows w1 :
  Forall (λ p, is_Some (customers (committed w) !! PaymentRow.customer_id p))
    (payments (committed w)) →
  Payment.getPaymentHistory rt accountNumber w = (Return rows, w1) →
  let n := length (filter (λ p, PaymentRow.account_number p = accountNumber)
                     (payments (committed w))) in
  length rows = (100 `min` n)%nat
  ∧ ((n <= 100)%nat →
     ∀ p, p ∈ payments (committed w) →
          PaymentRow.account_number p = accountNumber →
          ∃ c, customers (committed w) !! PaymentRow.customer_id p = Some c
               ∧ (p, c) ∈ rows).
Proof.
  intros Hfk H n. apply getPaymentHistory_Return in H as ->.
  unfold SQL.payment_history.
  assert (length (omap (SQL.join_customer (committed w))
                    (filter (λ p, PaymentRow.account_number p = accountNumber)
                       (payments (committed w)))) = n) as Hlen.
  { apply length_omap_total. apply Forall_forall. intros p Hp.
    apply list_elem_of_filter in Hp as [_ Hp].
    rewrite Forall_forall in Hfk. destruct (Hfk p Hp) as [c Hc].
    unfold SQL.join_customer. rewrite Hc. by eexists. }
  split.
  - by rewrite length_take, order_by_date_desc_length, Hlen.
  - intros Hn p Hp Ha. rewrite Forall_forall in Hfk.
    destruct (Hfk p Hp) as [c Hc]. exists c. split; [done|].
    rewrite take_ge by (rewrite order_by_date_desc_length; lia).
    apply (elem_of_Permutation_proper _ _ _ (merge_sort_Permutation _ _)).
    apply list_elem_of_omap. exists p. split.
    + by apply list_elem_of_filter.
    + unfold SQL.join_customer. by rewrite Hc.
Qed.

Lemma getPaymentHistory_complete_witness :
  let w := posted_world Sample.first_runtime Sample.posting Sample.world in
  let rows := SQL.payment_history "ACC001" (committed w) in
  Payment.getPaymentHistory Sample.second_runtime "ACC001" w
  = (Return rows, logged (PoolExecute SELECT_payment_history) w)
  ∧ length rows = 1%nat
  ∧ ∃ c, (posted_row Sample.first_runtime Sample.posting Sample.world, c) ∈ rows.
Proof.
  intros w rows.
  assert (Payment.getPaymentHistory Sample.second_runtime "ACC001" w
          = (Return rows, logged (PoolExecute SELECT_payment_history) w)) as H
    by (vm_compute; reflexivity).
  split; [exact H|].
  destruct (getPaymentHistory_complete Sample.second_runtime "ACC001" w rows
              (logged (PoolExecute SELECT_payment_history) w)) as [Hlen Hall].
  - apply Forall_singleton. vm_compute. eauto.
  - exact H.
  - split; [exact Hlen|].
    destruct (Hall ltac:(vm_compute; lia)
                (posted_row Sample.first_runtime Sample.posting Sample.world))
      as (c & _ & Hc).
    + left.
    + reflexivity.
    + eauto.
Defined.

Lemma Customer_findAll_run rt limit offset w :
  Customer.findAll rt limit offset w
  = (match fault rt (length (log w)) with
     | Some m => Throw (JS.new_Error ("Error fetching customers: " +:+ m))
     | None =>
         match SQL.active_customers (JS.NumberToString (safeLimit limit))
                 (JS.NumberToString (safeOffset offset)) (committed w) with
         | inl m => Throw (JS.new_Error ("Error fetching customers: " +:+ m))
         | inr rows => Return rows
         end
     end, logged (PoolQuery SELECT_customers) w).
Proof.
  unfold Customer.findAll, try_catch, bind.
  rewrite pool_query_run. cbn zeta.
  destruct (fault rt (length (log w))); [done|].
  fold (safeLimit limit). fold (safeOffset offset).
  by destruct (SQL.active_customers _ _ _).
Qed.

(** X15.  The customer listing.  When [Customer.findAll] returns, every
    customer listed is a row of the table with status ACTIVE, no customer
    is listed twice, the rows come by descending creation date, and their
    number is [min l (max 0 (n - o))], for the sanitized limit [l] and
    offset [o] and the number [n] of active customers. *)
Theorem findAll_active rt limit offset w rows w1 :
  Customer.findAll rt limit offset w = (Return rows, w1) →
  ∃ l o,
    safeLimit limit = JS.of_Z l ∧ safeOffset offset = JS.of_Z o
    ∧ 0 <= l ∧ 0 <= o
    ∧ Z.of_nat (length rows)
      = Z.min l
          (Z.max 0
             (Z.of_nat (length (filter (λ c : Z * CustomerRow.t,
                                          CustomerRow.status c.2 = ACTIVE)
                                  (map_to_list (customers (committed w))))) - o))
    ∧ Forall (λ c, customers (committed w) !! c.1 = Some c.2
                   ∧ CustomerRow.status c.2 = ACTIVE) rows
    ∧ NoDup rows
    ∧ StronglySorted (SQL.later_first (λ c, CustomerRow.created_at c.2)) rows.
Proof.
  rewrite Customer_findAll_run.
  destruct (fault rt (length (log w))); [discriminate|].
  destruct (SQL.active_customers _ _ _) as [m|rows'] eqn:E; [discriminate|].
  intros [= <- <-].
  destruct (sanitize_nonneg 50 (JS.default_param (JS.VNumber (JS.of_Z 50)) limit))
    as (l & Hl & Hl0); [lia|].
  destruct (sanitize_nonneg 0 (JS.default_param (JS.VNumber (JS.of_Z 0)) offset))
    as (o & Ho & Ho0); [lia|].
  fold (safeLimit limit) in Hl. fold (safeOffset offset) in Ho.
  exists l, o. rewrite Hl, Ho in E |- *.
  unfold SQL.active_customers in E.
  apply paginate_of_Z in E as (-> & _ & _); [|done..].
  split_and!; try done.
  - rewrite length_take, length_drop, order_by_date_desc_length.
    lazymatch goal with
    | |- Z.of_nat (_ `min` (?a - _)) = _ `min` (0 `max` (Z.of_nat ?b - _)) =>
        change b with a
    end.
    lia.
  - apply Forall_forall. intros [k c] Hc.
    apply subseteq_take, subseteq_drop in Hc.
    apply (elem_of_Permutation_proper _ _ _ (merge_sort_Permutation _ _)) in Hc.
    apply list_elem_of_filter in Hc as [Hs Hc].
    by apply elem_of_map_to_list in Hc.
  - eapply sublist_NoDup; [|apply sublist_take].
    eapply sublist_NoDup; [|apply sublist_drop].
    unfold SQL.order_by_date_desc. rewrite merge_sort_Permutation.
    apply NoDup_filter, NoDup_map_to_list.
  - apply sorted_take, sorted_drop, order_by_date_desc_sorted.
Qed.

Lemma findAll_active_witness :
  let rows := [(1, Sample.rahul)] in
  Customer.findAll Sample.first_runtime (JS.VNumber (JS.of_Z 1))
    (JS.VNumber (JS.of_Z 1)) Sample.world
  = (Return rows, logged (PoolQuery SELECT_customers) Sample.world)
  ∧ Forall (λ c, customers Sample.database !! c.1 = Some c.2
                 ∧ CustomerRow.status c.2 = ACTIVE) rows.
Proof.
  intros rows.
  assert (Customer.findAll Sample.first_runtime (JS.VNumber (JS.of_Z 1))
            (JS.VNumber (JS.of_Z 1)) Sample.world
          = (Return rows, logged (PoolQuery SELECT_customers) Sample.world)) as H
    by (vm_compute; reflexivity).
  split; [exact H|].
  destruct (findAll_active _ _ _ _ _ _ H) as (l & o & _ & _ & _ & _ & _ & Hall & _).
  exact Hall.
Defined.

Lemma Payment_findAll_run rt filters limit offset w :
  Payment.findAll rt filters limit offset w
  = (match fault rt (length (log w)) with
     | Some m => Throw (JS.new_Error ("Error fetching payments: " +:+ m))
     | None =>
         match SQL.all_payments (default (Filters.mk None None None None) filters)
                 (JS.NumberToString
                    (Payment.capped_limit
                       (JS.default_param (JS.VNumber (JS.of_Z 20)) limit)))
                 (JS.NumberToString (safeOffset offset)) (committed w) with
         | inl m => Throw (JS.new_Error ("Error fetching payments: " +:+ m))
         | inr rows => Return rows
         end
     end, logged (PoolQuery SELECT_all_payments) w).
Proof.
  unfold Payment.findAll, try_catch, bind.
  rewrite pool_query_run. cbn zeta.
  destruct (fault rt (length (log w))); [done|].
  fold (safeOffset offset).
  by destruct (SQL.all_payments _ _ _ _).
Qed.

Lemma Payment_countAll_run rt filters w :
  Payment.countAll rt filters w
  = (match fault rt (length (log w)) with
     | Some m => Throw (JS.new_Error ("Error counting payments: " +:+ m))
     | None =>
         Return (SQL.count_all (default (Filters.mk None None None None) filters)
                   (committed w))
     end, logged (PoolExecute SELECT_count_all) w).
Proof.
  unfold Payment.countAll, try_catch, bind.
  rewrite pool_execute_run. cbn zeta.
  by destruct (fault rt (length (log w))).
Qed.

Lemma capped_limit_range v :
  ∃ r, Payment.capped_limit v = JS.Finite r ∧ (0 <= r <= 100)%Q.
Proof.
  unfold Payment.capped_limit. destruct (JS.as_finite v) as [q|].
  - unfold JS.Math_min, JS.Math_max, JS.of_Z.
    destruct (Qle_bool q (inject_Z 100)) eqn:E1.
    + destruct (Qle_bool (inject_Z 0) q) eqn:E0.
      * eexists. split; [done|]. split; by apply Qle_bool_iff.
      * eexists. split; [done|]. by compute.
    + eexists. split; [done|]. by compute.
  - eexists. split; [done|]. by compute.
Qed.

(** The text interpolated for a finite number is an unsigned literal only
    if the number is an integer; the literal then reads as it. *)
Lemma unsigned_literal_Finite r s n :
  (0 <= r)%Q →
  JS.NumberToString (JS.Finite r) = Some s →
  SQL.unsigned_literal s = Some n →
  (r == inject_Z n)%Q ∧ 0 <= n.
Proof.
  intros Hr. unfold JS.NumberToString, JS.is_integer.
  destruct (Qeq_bool r (inject_Z (Qfloor r))) eqn:E; [|done].
  apply Qeq_bool_iff in E.
  assert (0 <= Qfloor r) as Hf.
  { change 0 with (Qfloor (inject_Z 0)). by apply Qfloor_resp_le. }
  rewrite (proj2 (Z.ltb_ge _ _)) by lia. intros [= <-] Hn.
  apply unsigned_literal_natural in Hn as [-> _]; [|done]. done.
Qed.

Lemma Qle_inject_Z_iff a b : (inject_Z a <= inject_Z b)%Q ↔ a <= b.
Proof. by rewrite Zle_Qle. Qed.

(** X16.  The filtered listing is capped at 100 rows.  When
    [Payment.findAll] returns, it returns at most 100 rows whatever limit
    it was given; every row is a payment row that passes the filters, with
    the customer it names when there is one, and the rows come by
    descending payment date.  With the total [countAll] returns for the
    same filters, the number of rows is [min l (max 0 (total - o))] for an
    integer limit [l] between 0 and 100 and the sanitized offset [o]. *)
Theorem findAll_capped rt filters limit offset w rows w1 :
  Payment.findAll rt filters limit offset w = (Return rows, w1) →
  (length rows <= 100)%nat
  ∧ Forall (λ pc, pc.1 ∈ payments (committed w)
                  ∧ SQL.where_filters
                      (default (Filters.mk None None None None) filters) pc.1
                    = true
                  ∧ pc.2 = customers (committed w) !! PaymentRow.customer_id pc.1)
      rows
  ∧ StronglySorted (SQL.later_first (λ pc, PaymentRow.payment_date pc.1)) rows
  ∧ (∀ rt' total w2,
        Payment.countAll rt' filters w1 = (Return total, w2) →
        ∃ l o,
          0 <= l <= 100 ∧ 0 <= o
          ∧ safeOffset offset = JS.of_Z o
          ∧ Z.of_nat (length rows) = Z.min l (Z.max 0 (total - o))).
Proof.
  rewrite Payment_findAll_run.
  destruct (fault rt (length (log w))); [discriminate|].
  destruct (SQL.all_payments _ _ _ _) as [m|rows'] eqn:E; [discriminate|].
  intros [= <- <-].
  destruct (capped_limit_range (JS.default_param (JS.VNumber (JS.of_Z 20)) limit))
    as (r & Hr & Hr0 & Hr100).
  destruct (sanitize_nonneg 0 (JS.default_param (JS.VNumber (JS.of_Z 0)) offset))
    as (o & Ho & Ho0); [lia|].
  fold (safeOffset offset) in Ho. rewrite Hr, Ho in E.
  rewrite (NumberToString_natural o) in E by done.
  unfold SQL.all_payments, SQL.paginate in E.
  destruct (JS.NumberToString (JS.Finite r)) as [s|] eqn:Es; [|done].
  cbn [mbind option_bind] in E.
  destruct (SQL.unsigned_literal s) as [l|] eqn:El; [|done].
  destruct (unsigned_literal_Finite r s l Hr0 Es El) as [Hrl Hl0].
  assert (l <= 100) as Hl100.
  { apply Qle_inject_Z_iff. by rewrite <- Hrl. }
  destruct (SQL.unsigned_literal (JS.natural_to_string o)) as [o'|] eqn:Eo;
    [|done].
  apply unsigned_literal_natural in Eo as [-> _]; [|done].
  injection E as <-.
  split_and!.
  - rewrite length_take. lia.
  - apply Forall_forall. intros [p c] Hp.
    apply subseteq_take, subseteq_drop in Hp.
    apply (elem_of_Permutation_proper _ _ _ (merge_sort_Permutation _ _)) in Hp.
    apply list_elem_of_fmap in Hp as (p' & [= -> ->] & Hp).
    apply list_elem_of_filter in Hp as [Hf Hp]. cbn.
    split_and!; [done| |done]. by destruct (SQL.where_filters _ _).
  - apply sorted_take, sorted_drop, order_by_date_desc_sorted.
  - intros rt' total w2. rewrite Payment_countAll_run.
    destruct (fault rt' _); [discriminate|]. intros [= <- <-].
    exists l, o. split_and!; [done..|].
    rewrite length_take, length_drop, order_by_date_desc_length, length_fmap.
    unfold SQL.count_all. cbn [committed logged]. lia.
Qed.

(** X17.  The limit of the filtered listing is not floored.  A limit
    that is not an integer and lies between 0 and 100 is interpolated as
    it is, and the statement is refused: [Payment.findAll] throws, where
    [Payment.findByAccountNumber] would floor the same limit. *)
Theorem findAll_fractional_limit rt filters q offset w :
  fault rt (length (log w)) = None →
  JS.is_integer q = false →
  (0 <= q <= 100)%Q →
  Payment.findAll rt filters (JS.VNumber (JS.Finite q)) offset w
  = (Throw (JS.new_Error
              "Error fetching payments: You have an error in your SQL syntax"),
     logged (PoolQuery SELECT_all_payments) w).
Proof.
  intros Hf Hq [Hq0 Hq100]. rewrite Payment_findAll_run, Hf.
  unfold SQL.all_payments, SQL.paginate, Payment.capped_limit.
  cbn [JS.default_param JS.as_finite].
  unfold JS.Math_min, JS.Math_max, JS.of_Z.
  rewrite (proj2 (Qle_bool_iff q (inject_Z 100)) Hq100).
  rewrite (proj2 (Qle_bool_iff (inject_Z 0) q) Hq0).
  unfold JS.NumberToString at 1. by rewrite Hq.
Qed.

Lemma findAll_fractional_limit_witness :
  Payment.findAll Sample.first_runtime None (JS.VNumber (JS.Finite (5 # 2)))
    JS.VUndefined Sample.world
  = (Throw (JS.new_Error
              "Error fetching payments: You have an error in your SQL syntax"),
     logged (PoolQuery SELECT_all_payments) Sample.world)
  ∧ ∃ w1, Payment.findByAccountNumber Sample.first_runtime "ACC001"
            (JS.VNumber (JS.Finite (5 # 2))) JS.VUndefined Sample.world
          = (Return [], w1).
Proof.
  split.
  - apply findAll_fractional_limit; [reflexivity|reflexivity|].
    split; vm_compute; discriminate.
  - eexists. vm_compute. reflexivity.
Defined.

Lemma findAll_capped_witness :
  let w := posted_world Sample.second_runtime Sample.posting
             (posted_world Sample.first_runtime Sample.posting Sample.world) in
  let filters := Some (Filters.mk (Some "SUCCESS") (Some "") None None) in
  ∃ rows,
    Payment.findAll Sample.first_runtime filters (JS.VNumber (JS.of_Z 1000))
      JS.VUndefined w
    = (Return rows, logged (PoolQuery SELECT_all_payments) w)
    ∧ length rows = 2%nat
    ∧ Payment.countAll Sample.first_runtime filters
        (logged (PoolQuery SELECT_all_payments) w)
      = (Return 2, logged (PoolExecute SELECT_count_all)
                     (logged (PoolQuery SELECT_all_payments) w))
    ∧ ∃ l o, 0 <= l <= 100 ∧ 0 <= o
             ∧ safeOffset JS.VUndefined = JS.of_Z o
             ∧ Z.of_nat (length rows) = Z.min l (Z.max 0 (2 - o)).
Proof.
  intros w filters.
  destruct (Payment.findAll Sample.first_runtime filters
              (JS.VNumber (JS.of_Z 1000)) JS.VUndefined w)
    as [[rows|e] w1] eqn:H; [|vm_compute in H; discriminate].
  assert (w1 = logged (PoolQuery SELECT_all_payments) w) as ->
    by (rewrite Payment_findAll_run in H; by injection H as _ <-).
  assert (length rows = 2%nat) as Hlen
    by (vm_compute in H; by injection H as <-).
  exists rows. split; [reflexivity|]. split; [exact Hlen|].
  assert (Payment.countAll Sample.first_runtime filters
            (logged (PoolQuery SELECT_all_payments) w)
          = (Return 2, logged (PoolExecute SELECT_count_all)
                         (logged (PoolQuery SELECT_all_payments) w))) as Hc
    by (vm_compute; reflexivity).
  split; [exact Hc|].
  destruct (findAll_capped _ _ _ _ _ _ _ H) as (_ & _ & _ & Hcount).
  exact (Hcount _ _ _ Hc).
Defined.

(** ** [PaymentService.getPaymentHistory] *)


(** ** [middleware/validation.js]: what is let through *)

Lemma failing_nil ok e : Validation.failing ok e = [] ↔ ok = true.
Proof. by destruct ok. Qed.

Lemma handleValidationErrors_inr {R} errs (next x : R) :
  Validation.handleValidationErrors errs next = inr x ↔ errs = [] ∧ x = next.
Proof.
  destruct errs; cbn; [|split; [done|by intros [? _]]].
  split; [by intros [= <-]|by intros [_ ->]].
Qed.

Lemma check_account_number_nil v :
  (Validation.check_account_number v).2 = []
  ↔ (3 <= String.length (Validator.trim (Validator.toString v)))%nat.
Proof.
  unfold Validation.check_account_number. cbn [snd].
  rewrite app_nil, !failing_nil.
  unfold Validator.notEmpty, Validator.isLength.
  rewrite andb_true_r, negb_true_iff, Nat.eqb_neq, Nat.leb_le. lia.
Qed.

Lemma check_remarks_nil v :
  (Validation.check_remarks v).2 = []
  ↔ ∀ r, v = Some r → (String.length (Validator.trim r) <= 500)%nat.
Proof.
  unfold Validation.check_remarks. destruct v as [r|]; cbn [snd].
  - rewrite failing_nil. unfold Validator.isLength. cbn [Nat.leb andb].
    rewrite Nat.leb_le. split; [by intros ? ? [= <-]|eauto].
  - split; [done|done].
Qed.

Lemma check_payment_method_nil v :
  (Validation.check_payment_method v).2 = []
  ↔ ∀ m, v = Some m → m ∈ ["UPI"; "CARD"; "NET_BANKING"; "CHEQUE"].
Proof.
  unfold Validation.check_payment_method. destruct v as [m|]; cbn [snd].
  - rewrite failing_nil. unfold Validator.isIn. rewrite bool_decide_eq_true.
    split; [by intros ? ? [= <-]|eauto].
  - split; [done|done].
Qed.

(** X18.  What [validatePayment] lets through.  A body reaches the
    handler exactly when its account number has at least 3 characters
    once trimmed, its amount reads as a number of at least 0.01, its
    method is absent or one of the four names, and its remarks are absent
    or at most 500 characters long once trimmed.  The handler then gets
    the body with the account number, the transaction id and the remarks
    trimmed, and the amount and the method as they were sent. *)
Theorem validatePayment_accepts {R} (body : Validation.Body)
    (next : Validation.Body → R) :
  let account_number :=
    Validator.trim (Validator.toString (Validation.account_number body)) in
  ((3 <= String.length account_number)%nat
   ∧ Validator.isFloat (JS.binary64 (1 # 100))
       (Validator.toString (Validation.payment_amount body)) = true
   ∧ (∀ m, Validation.payment_method body = Some m →
           m ∈ ["UPI"; "CARD"; "NET_BANKING"; "CHEQUE"])
   ∧ (∀ r, Validation.remarks body = Some r →
           (String.length (Validator.trim r) <= 500)%nat))
  ↔ Validation.validatePayment body next
    = inr (next (Validation.mkBody (Some account_number)
                   (Validation.payment_amount body)
                   (Validation.payment_method body)
                   (Validator.trim <$> Validation.transaction_id body)
                   (Validator.trim <$> Validation.remarks body))).
Proof.
  intros account_number. subst account_number.
  rewrite <- check_account_number_nil, <- check_payment_method_nil,
    <- check_remarks_nil, <- (failing_nil _
      (Validation.mkFieldError "payment_amount"
         "Payment amount must be a valid number greater than 0"
         (Validation.payment_amount body))).
  unfold Validation.validatePayment.
  destruct (Validation.check_account_number _) as [a e1] eqn:E1.
  destruct (Validation.check_payment_amount _) as [b e2] eqn:E2.
  destruct (Validation.check_payment_method _) as [c e3] eqn:E3.
  destruct (Validation.check_transaction_id _) as [d e4] eqn:E4.
  destruct (Validation.check_remarks _) as [e e5] eqn:E5.
  assert (a = Some (Validator.trim
                      (Validator.toString (Validation.account_number body))))
    as -> by (unfold Validation.check_account_number in E1; cbv zeta in E1;
              by injection E1 as <- _).
  assert (b = Validation.payment_amount body
          ∧ e2 = Validation.failing
                   (Validator.isFloat (JS.binary64 (1 # 100))
                      (Validator.toString (Validation.payment_amount body)))
                   (Validation.mkFieldError "payment_amount"
                      "Payment amount must be a valid number greater than 0"
                      (Validation.payment_amount body))) as [-> ->]
    by (unfold Validation.check_payment_amount in E2; by injection E2 as <- <-).
  assert (c = Validation.payment_method body) as ->
    by (unfold Validation.check_payment_method in E3;
        destruct (Validation.payment_method body); by injection E3 as <- _).
  assert (d = Validator.trim <$> Validation.transaction_id body ∧ e4 = [])
    as [-> ->]
    by (unfold Validation.check_transaction_id in E4;
        destruct (Validation.transaction_id body); by injection E4 as <- <-).
  assert (e = Validator.trim <$> Validation.remarks body) as ->
    by (unfold Validation.check_remarks in E5; cbv zeta in E5;
        destruct (Validation.remarks body); by injection E5 as <- _).
  cbn [snd]. split.
  - intros (-> & -> & -> & ->). done.
  - intros H. apply handleValidationErrors_inr in H as [H _].
    apply app_nil in H as [-> H]. apply app_nil in H as [-> H].
    apply app_nil in H as [-> H]. by apply app_nil in H as [_ ->].
Qed.

(** X19.  What [validateAccountNumber] lets through.  A route parameter
    reaches the handler, trimmed, exactly when it has at least 3
    characters once trimmed.  A parameter that is empty once trimmed is
    answered with two errors for the one field, since the chain goes on
    after a validator fails. *)
Theorem validateAccountNumber_accepts {R} (account_number : string)
    (next : string → R) :
  ((3 <= String.length (Validator.trim account_number))%nat
   ↔ Validation.validateAccountNumber account_number next
     = inr (next (Validator.trim account_number)))
  ∧ (Validator.trim account_number = EmptyString →
     Validation.validateAccountNumber account_number next
     = inl (Validation.mkRejection 400 false "Validation Error"
              [Validation.mkFieldError "account_number"
                 "Account number is required" (Some EmptyString);
               Validation.mkFieldError "account_number"
                 "Account number must be at least 3 characters"
                 (Some EmptyString)])).
Proof.
  unfold Validation.validateAccountNumber.
  pose proof (check_account_number_nil (Some account_number)) as Hnil.
  change (Validator.toString (Some account_number)) with account_number in Hnil.
  split.
  - rewrite <- Hnil. unfold Validation.check_account_number. cbv zeta.
    change (Validator.toString (Some account_number)) with account_number.
    cbn [fst snd Validator.toString default from_option id]. split.
    + intros ->. done.
    + intros H. by apply handleValidationErrors_inr in H as [H _].
  - intros Hempty. unfold Validation.check_account_number. cbv zeta.
    change (Validator.toString (Some account_number)) with account_number.
    cbn [fst snd]. rewrite Hempty. done.
Qed.

(** ** The routes *)

Lemma handleValidationErrors_inl {R} errs (next : R) rejection :
  Validation.handleValidationErrors errs next = inl rejection →
  Validation.status rejection = 400.
Proof. destruct errs; [done|]. by intros [= <-]. Qed.

Lemma validatePayment_inl {R} body (next : Validation.Body → R) rejection :
  Validation.validatePayment body next = inl rejection →
  Validation.status rejection = 400.
Proof.
  unfold Validation.validatePayment.
  destruct (Validation.check_account_number _), (Validation.check_payment_amount _),
    (Validation.check_payment_method _), (Validation.check_transaction_id _),
    (Validation.check_remarks _).
  apply handleValidationErrors_inl.
Qed.

Lemma check_payment_method_fst v : (Validation.check_payment_method v).1 = v.
Proof. by destruct v. Qed.

Lemma validatePayment_cases {R} body (next : Validation.Body → R) :
  (∃ rejection, Validation.validatePayment body next = inl rejection
                ∧ Validation.status rejection = 400)
  ∨ (∃ sanitized,
        Validation.validatePayment body next = inr (next sanitized)
        ∧ is_Some (Validation.account_number sanitized)
        ∧ Validator.isFloat (JS.binary64 (1 # 100))
            (Validator.toString (Validation.payment_amount sanitized)) = true
        ∧ (∀ m, Validation.payment_method sanitized = Some m →
                m ∈ ["UPI"; "CARD"; "NET_BANKING"; "CHEQUE"])).
Proof.
  destruct (Validation.validatePayment body next) as [rejection|x] eqn:H.
  - left. exists rejection. split; [done|]. by eapply validatePayment_inl.
  - right. revert H. unfold Validation.validatePayment.
    destruct (Validation.check_account_number _) as [a e1] eqn:E1.
    destruct (Validation.check_payment_amount _) as [b e2] eqn:E2.
    destruct (Validation.check_payment_method _) as [c e3] eqn:E3.
    destruct (Validation.check_transaction_id _) as [d e4] eqn:E4.
    destruct (Validation.check_remarks _) as [e e5] eqn:E5.
    intros H. apply handleValidationErrors_inr in H as [H ->].
    apply app_nil in H as [-> H]. apply app_nil in H as [-> H].
    apply app_nil in H as [-> H]. apply app_nil in H as [-> ->].
    eexists. split; [reflexivity|]. cbn.
    split_and!.
    + unfold Validation.check_account_number in E1. cbv zeta in E1.
      injection E1 as <- _. by eexists.
    + unfold Validation.check_payment_amount in E2. injection E2 as <- E2.
      by apply failing_nil in E2.
    + pose proof (check_payment_method_nil (Validation.payment_method body)) as Hm.
      pose proof (check_payment_method_fst (Validation.payment_method body)) as Hc.
      rewrite E3 in Hm, Hc. cbn in Hm, Hc. subst c. by apply Hm.
Qed.

(** Every run of [processPayment] ends in one of three ways. *)
Lemma processPayment_cases rt paymentData w :
  (∃ e w',
      PaymentService.processPayment rt paymentData w = (Throw e, w')
      ∧ committed w' = committed w
      ∧ (JS.status e = Some 404 ∨ JS.status e = Some 400 ∨ JS.status e = None))
  ∨ (∃ customer m,
        PaymentService.processPayment rt paymentData w
        = (Throw (JS.new_Error ("Error fetching customer: " +:+ m)),
           logged (PoolExecute SELECT_customer_by_id)
             (posted_world rt (posting_of paymentData customer)
                (logged (PoolExecute SELECT_customer_by_account_number) w))))
  ∨ (∃ customer result,
        PaymentService.processPayment rt paymentData w
        = (Return result,
           logged (PoolExecute SELECT_customer_by_id)
             (posted_world rt (posting_of paymentData customer)
                (logged (PoolExecute SELECT_customer_by_account_number) w)))
        ∧ ProcessedPayment.payment result
          = posted_record rt (posting_of paymentData customer)
              (logged (PoolExecute SELECT_customer_by_account_number) w)).
Proof.
  rewrite processPayment_run. cbn zeta.
  destruct (fault rt (length (log w))).
  { left. eexists _, _. split; [done|]. cbn. eauto. }
  destruct (lookup_account _ _) as [customer|] eqn:Hfound.
  2:{ left. eexists _, _. split; [done|]. cbn. eauto. }
  destruct (Qle_bool _ 0). { left. eexists _, _. split; [done|]. cbn. eauto. }
  destruct (PaymentService.exceeds _ _).
  { left. eexists _, _. split; [done|]. cbn. eauto. }
  destruct (Payment.create _ _ _) as [[r|e'] w2] eqn:Hcreate.
  - apply create_Return in Hcreate as (Hok & -> & ->).
    destruct (fault rt _) as [m|].
    { right. left. by exists customer, m. }
    destruct Hok as (_ & [c Hc] & _).
    cbn [committed posted_world]. rewrite posted_customers.
    cbn [PaymentData.customer_id posting_of committed logged] in *.
    rewrite lookup_alter_eq, Hc. cbn. right. right. eexists customer, _. done.
  - left. exists e', w2. split; [done|].
    destruct (create_cases rt (posting_of paymentData customer)
                (logged (PoolExecute SELECT_customer_by_account_number) w))
      as [(m' & Hm & Heq)|[(n & e1 & a & Hnone & Hn & Ha & Heq)|[_ Heq]]];
      rewrite Hcreate in Heq; [| |discriminate].
    + injection Heq as -> ->. cbn. eauto.
    + injection Heq as -> ->. split; [done|].
      apply create_Throw in Hcreate as (_ & [(Hf & _)|(_ & _ & _ & [m ->] & _)]).
      * congruence.
      * cbn. eauto.
Qed.

Lemma processPayment_Infinity_run rt account_number w :
  ∃ e, PaymentService.processPayment_Infinity rt account_number w
       = (Throw e, logged (PoolExecute SELECT_customer_by_account_number) w)
       ∧ (JS.status e = Some 404 ∨ JS.status e = Some 400 ∨ JS.status e = None).
Proof.
  unfold PaymentService.processPayment_Infinity. unfold try_catch at 1.
  unfold bind at 1. rewrite Customer_findByAccountNumber_run.
  destruct (fault rt (length (log w))); [cbn; eauto|].
  destruct (head _); cbn; eauto.
Qed.

Lemma method_of_valid v :
  (∀ m, v = Some m → m ∈ ["UPI"; "CARD"; "NET_BANKING"; "CHEQUE"]) →
  is_Some (Routes.method_of v).
Proof.
  destruct v as [m|]; [|by eexists]. intros H.
  specialize (H m eq_refl).
  rewrite !elem_of_cons, elem_of_nil in H.
  destruct H as [->|[->|[->|[->|[]]]]]; by eexists.
Qed.

Lemma isFloat_true min s :
  Validator.isFloat min s = true →
  ∃ f, Validator.match_float s = Some f ∧ JS.le min (Validator.float_value f) = true.
Proof.
  unfold Validator.isFloat. case_bool_decide; [done|].
  destruct (Validator.match_float s) as [f|]; [|done]. eauto.
Qed.

(** A body that [validatePayment] lets through is one the handler's call
    of the service is defined for. *)
Lemma process_defined rt body :
  is_Some (Validation.account_number body) →
  Validator.isFloat (JS.binary64 (1 # 100))
    (Validator.toString (Validation.payment_amount body)) = true →
  (∀ m, Validation.payment_method body = Some m →
        m ∈ ["UPI"; "CARD"; "NET_BANKING"; "CHEQUE"]) →
  ∃ account_number,
    Validation.account_number body = Some account_number
    ∧ ((∃ paymentData,
          Routes.process rt body
          = Some (PaymentService.processPayment rt paymentData))
       ∨ Routes.process rt body
         = Some (PaymentService.processPayment_Infinity rt account_number)).
Proof.
  intros [a Ha] Hfloat Hmethod. exists a. split; [done|].
  apply isFloat_true in Hfloat as (f & Hf & Hle).
  destruct (method_of_valid _ Hmethod) as [m Hm].
  unfold Routes.process. rewrite Ha, Hf, Hm. cbn.
  destruct (Validator.float_value f); cbn in Hle; try done; eauto.
Qed.

(** X20.  The answers of [POST /api/payments].  For every body, the
    route answers, and in one of these ways: 400 from the validation,
    before any driver call; 400 or 404 from the service, with the database
    unchanged; 500 with the database unchanged; 500 with the payment
    committed (the lookup of the updated customer failed after the
    commit); or 201, with exactly one payment row appended, whose
    reference is the one in the answer.  So 201 is never answered without
    the payment, and 400 and 404 never come with a change; only a 500
    leaves the caller unable to tell. *)
Theorem post_payment_answers rt body w :
  ∃ answer response w',
    Routes.post_payment rt body = Some answer
    ∧ answer w = (Return response, w')
    ∧ ((∃ rejection,
          response = Routes.Invalid rejection
          ∧ Routes.status_of response = 400 ∧ w' = w)
       ∨ (∃ message,
             (response = Routes.Failure 400 message
              ∨ response = Routes.Failure 404 message)
             ∧ committed w' = committed w)
       ∨ (∃ message,
             response = Routes.Failure 500 message
             ∧ committed w' = committed w)
       ∨ (∃ message row,
             response = Routes.Failure 500 message
             ∧ payments (committed w') = payments (committed w) ++ [row])
       ∨ (∃ payment customer row,
             response = Routes.Ok 201 (payment, customer)
             ∧ payments (committed w') = payments (committed w) ++ [row]
             ∧ PaymentRow.payment_reference_id row
               = PaymentRecord.payment_reference_id payment)).
Proof.
  unfold Routes.post_payment.
  destruct (validatePayment_cases body (Routes.post_payment_handler rt))
    as [(rejection & -> & Hs)|(sanitized & -> & Ha & Hf & Hm)].
  { eexists _, _, _. split; [reflexivity|]. split; [reflexivity|]. left. eauto. }
  unfold Routes.post_payment_handler.
  destruct (process_defined rt sanitized Ha Hf Hm)
    as (account_number & _ & [[paymentData ->]| ->]); cbn [mbind option_bind].
  - destruct (processPayment_cases rt paymentData w)
      as [(e & w1 & He1 & Hc & He)|[(customer & m & He1)
                                   |(customer & result & He1 & Hp)]];
      eexists _, _, _; (split; [reflexivity|]); unfold try_catch, bind;
      rewrite He1; (split; [reflexivity|]).
    + right. unfold Routes.failure_of.
      destruct He as [-> | [-> | ->]]; eauto 10.
    + right. right. right. left. eexists _, _.
      split; [done|]. cbn [committed logged posted_world].
      by rewrite posted_payments.
    + right. right. right. right. eexists _, _, _.
      split; [done|]. cbn [committed logged posted_world].
      rewrite posted_payments. split; [done|]. by rewrite Hp.
  - destruct (processPayment_Infinity_run rt account_number w)
      as (e & He1 & He).
    eexists _, _, _. split; [reflexivity|]. unfold try_catch, bind.
    rewrite He1. split; [reflexivity|]. right. unfold Routes.failure_of.
    destruct He as [-> | [-> | ->]]; eauto 10.
Qed.





(** ** When two references collide *)

Lemma hex_digit_inj m n :
  0 <= m < 16 → 0 <= n < 16 → Uuid.hex_digit m = Uuid.hex_digit n → m = n.
Proof.
  intros Hm Hn.
  assert (∃ i : nat, m = Z.of_nat i ∧ (i < 16)%nat) as (i & -> & Hi)
    by (exists (Z.to_nat m); lia).
  assert (∃ j : nat, n = Z.of_nat j ∧ (j < 16)%nat) as (j & -> & Hj)
    by (exists (Z.to_nat n); lia).
  unfold Uuid.hex_digit. rewrite !Nat2Z.id.
  do 16 (destruct i as [|i]; [do 16 (destruct j as [|j]; [by (done || discriminate)|]); lia|]).
  lia.
Qed.

Lemma byte_to_hex_inj a b :
  0 <= a < 256 → 0 <= b < 256 → Uuid.byte_to_hex a = Uuid.byte_to_hex b → a = b.
Proof.
  intros Ha Hb [= H1 H2].
  change 15 with (Z.ones 4) in H2. rewrite !Z.land_ones in H2 by lia.
  rewrite !Z.shiftr_div_pow2 in H1 by lia.
  assert (∀ x, 0 <= x < 256 → 0 <= x `div` 2 ^ 4 < 16) as Hdiv.
  { intros x Hx. split; [apply Z.div_pos; lia|].
    apply Z.div_lt_upper_bound; lia. }
  apply hex_digit_inj in H1; [|by apply Hdiv..].
  apply hex_digit_inj in H2; [|apply Z.mod_pos_bound; lia..].
  rewrite (Z.div_mod a (2 ^ 4)), (Z.div_mod b (2 ^ 4)) by lia. congruence.
Qed.

Lemma string_length_app (a b : string) :
  String.length (a +:+ b) = (String.length a + String.length b)%nat.
Proof.
  induction a as [|c a IH]; [done|].
  change (S (String.length (a +:+ b)) = S (String.length a + String.length b)).
  by rewrite IH.
Qed.

Lemma append_inj_suffix (a1 a2 b1 b2 : string) :
  String.length b1 = String.length b2 →
  a1 +:+ b1 = a2 +:+ b2 → a1 = a2 ∧ b1 = b2.
Proof.
  intros Hlen. revert a2. induction a1 as [|c a1 IH]; intros [|c' a2] H.
  - done.
  - exfalso. change (b1 = String c' (a2 +:+ b2)) in H. rewrite H in Hlen.
    cbn in Hlen. rewrite string_length_app in Hlen. lia.
  - exfalso. change (String c (a1 +:+ b1) = b2) in H. rewrite <- H in Hlen.
    cbn in Hlen. rewrite string_length_app in Hlen. lia.
  - change (String c (a1 +:+ b1) = String c' (a2 +:+ b2)) in H.
    injection H as -> H. apply IH in H as [-> ->]. done.
Qed.

Lemma first_bytes r :
  take 4 (Uuid.rnds r)
  = [Z.land (Z.shiftr r 120) 255; Z.land (Z.shiftr r 112) 255;
     Z.land (Z.shiftr r 104) 255; Z.land (Z.shiftr r 96) 255].
Proof. reflexivity. Qed.

Lemma land_255_range x : 0 <= Z.land x 255 < 256.
Proof.
  change 255 with (Z.ones 8). rewrite Z.land_ones by lia.
  apply Z.mod_pos_bound. lia.
Qed.

(** X23.  When two references collide.  The references two invocations
    generate are equal exactly when the clock gave both the same
    millisecond and the first four of their sixteen random bytes are the
    same: the other twelve bytes play no part. *)
Theorem payment_reference_collision rt1 rt2 :
  Payment.payment_reference rt1 = Payment.payment_reference rt2
  ↔ Date_now rt1 = Date_now rt2
    ∧ take 4 (Uuid.rnds (random128 rt1)) = take 4 (Uuid.rnds (random128 rt2)).
Proof.
  rewrite !payment_reference_format. split.
  - intros H.
    assert (∀ (d : Z) s,
               "PAY-" +:+ pretty d +:+ "-" +:+ s
               = String "P" (String "A" (String "Y" (String "-"
                   (pretty d +:+ String "-" s))))) as Hform by reflexivity.
    rewrite !Hform in H. injection H as H.
    apply append_inj_suffix in H as [Hd H].
    2:{ cbn [String.length]. by rewrite !(proj1 (random_suffix_hex _)). }
    apply (inj pretty) in Hd. split; [done|].
    rewrite !first_bytes.
    assert (∀ rt, random_suffix rt
                  = Uuid.hex_of (take 4 (Uuid.rnds (random128 rt)))) as Hsuffix
      by reflexivity.
    rewrite !Hsuffix, !first_bytes in H.
    cbn [Uuid.hex_of foldr] in H. unfold Uuid.byte_to_hex in H.
    cbn [String.append] in H.
    injection H as H1 H2 H3 H4 H5 H6 H7 H8.
    assert (∀ a b, 0 <= a < 256 → 0 <= b < 256 →
                   Uuid.hex_digit (a ≫ 4) = Uuid.hex_digit (b ≫ 4) →
                   Uuid.hex_digit (Z.land a 15) = Uuid.hex_digit (Z.land b 15) →
                   a = b) as Hbyte.
    { intros a b Ha Hb Hh Hl. apply byte_to_hex_inj; [done..|].
      unfold Uuid.byte_to_hex. congruence. }
    by rewrite (Hbyte _ _ (land_255_range _) (land_255_range _) H1 H2),
      (Hbyte _ _ (land_255_range _) (land_255_range _) H3 H4),
      (Hbyte _ _ (land_255_range _) (land_255_range _) H5 H6),
      (Hbyte _ _ (land_255_range _) (land_255_range _) H7 H8).
  - intros [Hd Hb]. unfold random_suffix. by rewrite Hd, Hb.
Qed.

(** ** Counting after a posting *)

(** X24.  The count follows the postings.  After a successful posting
    [countByAccountNumber] counts one payment more for the account number
    of the posting and the same number for every other account number;
    after an invocation of [Payment.create] that throws, every count is
    what it was. *)
Theorem countByAccountNumber_after_create rt paymentData w accountNumber
    rt1 rt2 before w1 after w2 :
  let outcome := Payment.create rt paymentData w in
  Payment.countByAccountNumber rt1 accountNumber w = (Return before, w1) →
  Payment.countByAccountNumber rt2 accountNumber outcome.2 = (Return after, w2) →
  after
  = before
    + (if is_Return outcome.1
          && bool_decide (PaymentData.account_number paymentData = accountNumber)
       then 1 else 0).
Proof.
  cbn zeta. rewrite !Payment_countByAccountNumber_run.
  destruct (fault rt1 _); [discriminate|]. intros [= <- <-].
  destruct (fault rt2 _); [discriminate|]. intros [= <- <-].
  destruct (create_cases rt paymentData w)
    as [(m' & Hm & ->)|[(n & e & a & _ & Hn & Ha & ->)|[_ ->]]]; cbn [fst snd].
  - cbn. lia.
  - cbn. lia.
  - cbn [is_Return andb committed posted_world].
    unfold SQL.count_by_account_number. rewrite posted_payments, filter_app.
    case_bool_decide as Heq.
    + rewrite (filter_cons_True _ (posted_row rt paymentData w)).
      * rewrite filter_nil, length_app. cbn. lia.
      * split; [done|]. by left.
    + rewrite (filter_cons_False _ (posted_row rt paymentData w)).
      * rewrite filter_nil, app_nil_r. lia.
      * by intros [? _].
Qed.

Lemma countByAccountNumber_after_create_witness :
  let w' := (Payment.create Sample.first_runtime Sample.posting Sample.world).2 in
  Payment.countByAccountNumber Sample.first_runtime "ACC001" Sample.world
  = (Return 0, logged (PoolExecute SELECT_count_by_account_number) Sample.world)
  ∧ Payment.countByAccountNumber Sample.second_runtime "ACC001" w'
    = (Return 1, logged (PoolExecute SELECT_count_by_account_number) w')
  ∧ 1 = 0 + (if is_Return
                  (Payment.create Sample.first_runtime Sample.posting
                     Sample.world).1
                && bool_decide (PaymentData.account_number Sample.posting
                                = "ACC001")
             then 1 else 0).
Proof.
  intros w'.
  assert (Payment.countByAccountNumber Sample.first_runtime "ACC001" Sample.world
          = (Return 0, logged (PoolExecute SELECT_count_by_account_number)
                         Sample.world)) as H1 by (vm_compute; reflexivity).
  assert (Payment.countByAccountNumber Sample.second_runtime "ACC001" w'
          = (Return 1, logged (PoolExecute SELECT_count_by_account_number) w'))
    as H2 by (vm_compute; reflexivity).
  split; [exact H1|]. split; [exact H2|].
  exact (countByAccountNumber_after_create _ _ _ _ _ _ _ _ _ _ H1 H2).
Defined.
